(** * Online volume expansion: the resize coordination caches

    A shallow embedding of
      - pkg/controller/volume/expand/cache/volume_resize_map.go
        (the controller-side [volumeResizeMap]),
      - pkg/kubelet/volumemanager/cache/volume_fs_resize_map.go
        (the node-side [volumeFsResizeMap]),
      - the kubelet's [volumeFsResizeMapPopulator],
    together with the properties of the annotation handshake between them,
    and of
      - the device mounter and unmounter of the rbd volume plugin
        ([MountDevice], [UnmountDevice]).

    Go pointers are locations of an explicit heap; [DeepCopy] allocates.
    Maps are [gmap]s, a nil map is [None].  Every call made through the kube
    client is appended to the client's log, so that "no update was issued"
    is a statement about that log. *)

From stdpp Require Import gmap strings list fin_maps.

Open Scope string_scope.
Open Scope list_scope.

(* ===================================================================== *)
(** * Part I: definitions                                                 *)
(* ===================================================================== *)

(** ** Go values *)

(** A pointer: the address of a heap cell.  An address that is not
    allocated plays the role of a nil (or otherwise invalid) pointer:
    dereferencing it panics. *)
Abbreviation loc := positive.

(** [resource.Quantity].  Only [Cmp] is used by the code, and it compares
    numeric values, so a quantity is its value counted in the smallest unit
    a quantity can express.  The zero value of the Go struct is 0. *)
Abbreviation Quantity := Z.

Definition Cmp (q y : Quantity) : Z :=
  match (q ?= y)%Z with
  | Lt => (-1)%Z
  | Eq => 0%Z
  | Gt => 1%Z
  end.

(** A Go map with string keys; [None] is the nil map. *)
Abbreviation gomap V := (option (gmap string V)).

(** [v, exist := m[k]]: reading a nil map finds nothing. *)
Definition index {V} (m : gomap V) (k : string) : option V :=
  match m with
  | Some m' => m' !! k
  | None => None
  end.

(** The entries of a Go map; the nil map has none. *)
Definition entries {V} (m : gomap V) : gmap string V :=
  match m with
  | Some m' => m'
  | None => ∅
  end.

(** [for k, v := range m].  Go leaves the order unspecified; the model
    enumerates in the order of [map_to_list], and no statement below depends
    on which order that is. *)
Definition range {V} (m : gmap string V) : list (string * V) :=
  map_to_list m.

(** ** API objects (k8s.io/api/core/v1), restricted to the fields that the
    code under study reads or writes *)
Module v1.

Abbreviation ResourceList := (gomap Quantity).

Definition ResourceStorage : string := "storage".
Definition ClaimBound : string := "Bound".

Record ObjectMeta := {
  Namespace : string;
  Name : string;
  UID : string;
  Annotations : gomap string
}.

Record ObjectReference := {
  RefNamespace : string;
  RefName : string
}.

Record PodStatus := {
  PodPhase : string
}.

Record Pod := {
  PodMeta : ObjectMeta;
  NodeName : string;            (* Spec.NodeName *)
  Status : PodStatus
}.

Record PersistentVolume := {
  PVMeta : ObjectMeta;
  SpecCapacity : ResourceList;  (* Spec.Capacity *)
  ClaimRef : option ObjectReference   (* Spec.ClaimRef, a pointer *)
}.

Record PersistentVolumeClaimCondition := {
  ConditionType : string;
  ConditionStatus : string
}.

Record PersistentVolumeClaim := {
  PVCMeta : ObjectMeta;
  Requests : ResourceList;      (* Spec.Resources.Requests *)
  Phase : string;               (* Status.Phase *)
  StatusCapacity : ResourceList; (* Status.Capacity *)
  Conditions : list PersistentVolumeClaimCondition (* Status.Conditions *)
}.

(** [rl[name]] on a ResourceList: a missing entry reads as the zero
    quantity. *)
Definition quantityOf (rl : ResourceList) (name : string) : Quantity :=
  default 0%Z (index rl name).

End v1.

(** The pod with its annotation map replaced. *)
Definition withAnnotations (p : v1.Pod) (a : gomap string) : v1.Pod :=
  {| v1.PodMeta :=
       {| v1.Namespace := v1.Namespace (v1.PodMeta p);
          v1.Name := v1.Name (v1.PodMeta p);
          v1.UID := v1.UID (v1.PodMeta p);
          v1.Annotations := a |};
     v1.NodeName := v1.NodeName p;
     v1.Status := v1.Status p |}.

(** ** The heap *)

Record Heap := {
  Pods : gmap loc v1.Pod;
  PersistentVolumes : gmap loc v1.PersistentVolume;
  PersistentVolumeClaims : gmap loc v1.PersistentVolumeClaim
}.

Definition emptyHeap : Heap :=
  {| Pods := ∅; PersistentVolumes := ∅; PersistentVolumeClaims := ∅ |}.

(** Allocation picks an address that is not in use. *)
Definition alloc {T} (x : T) (cells : gmap loc T) : loc * gmap loc T :=
  let l := fresh (dom cells) in (l, <[l := x]> cells).

Definition heapWithPods (h : Heap) (cells : gmap loc v1.Pod) : Heap :=
  {| Pods := cells;
     PersistentVolumes := PersistentVolumes h;
     PersistentVolumeClaims := PersistentVolumeClaims h |}.

Definition withPersistentVolumes (h : Heap)
    (cells : gmap loc v1.PersistentVolume) : Heap :=
  {| Pods := Pods h;
     PersistentVolumes := cells;
     PersistentVolumeClaims := PersistentVolumeClaims h |}.

Definition withPersistentVolumeClaims (h : Heap)
    (cells : gmap loc v1.PersistentVolumeClaim) : Heap :=
  {| Pods := Pods h;
     PersistentVolumes := PersistentVolumes h;
     PersistentVolumeClaims := cells |}.

(** Modelled from the spec: the generated [DeepCopy] of [v1.Pod] is missing
    from the sources.  A deep copy is a private clone that its caller
    owns: a new cell holding an equal object.  A cell holds the whole
    object, its maps included, so the copy shares nothing with the
    original. *)
Definition DeepCopyPod (p : v1.Pod) (h : Heap) : loc * Heap :=
  let '(l, cells) := alloc p (Pods h) in (l, heapWithPods h cells).

(** Modelled from the spec: the generated [DeepCopy] of
    [v1.PersistentVolume] is missing from the sources; a private clone, as
    for pods. *)
Definition DeepCopyPV (pv : v1.PersistentVolume) (h : Heap) : loc * Heap :=
  let '(l, cells) := alloc pv (PersistentVolumes h) in
  (l, withPersistentVolumes h cells).

(** Modelled from the spec: the generated [DeepCopy] of
    [v1.PersistentVolumeClaim] is missing from the sources; a private
    clone, as for pods. *)
Definition DeepCopyPVC (c : v1.PersistentVolumeClaim) (h : Heap) : loc * Heap :=
  let '(l, cells) := alloc c (PersistentVolumeClaims h) in
  (l, withPersistentVolumeClaims h cells).

(** ** Errors and outcomes *)

Inductive error :=
  | StatusError (reason : string)
  | Errorf (format : string) (args : list string) (cause : error).

(** How a call ends: it returns (with an error value, [None] being Go's
    nil), or the goroutine panics. *)
Inductive outcome :=
  | Returned (err : option error)
  | Panicked.

(** ** The kube client

    The API server is an external collaborator, and other clients talk to it
    too.  It is modelled by the log of every exchange with it, a request
    and the server's verdict ([None]: accepted), and by two oracles that
    give, from the exchanges so far, the requests the server turns down
    (transport failure, conflict, ...) and the pod a read finds.  What the
    server persists is what it accepted: the log is the persistent
    state. *)

Inductive ApiCall :=
  | PodsGet (namespace name : string)
  | PodsUpdate (pod : v1.Pod)
  | PersistentVolumesPatch (name : string) (patchBytes : string)
  | PersistentVolumeClaimsUpdateStatus (claim : v1.PersistentVolumeClaim).

Record KubeClient := {
  calls : list (ApiCall * option string);
  faults : list (ApiCall * option string) → ApiCall → option string;
  found : list (ApiCall * option string) → string → string → option v1.Pod
}.

Definition podKey (p : v1.Pod) : string * string :=
  (v1.Namespace (v1.PodMeta p), v1.Name (v1.PodMeta p)).

Definition logged (c : ApiCall) (verdict : option string) (k : KubeClient)
    : KubeClient :=
  {| calls := calls k ++ [(c, verdict)];
     faults := faults k;
     found := found k |}.

Definition asError (verdict : option string) : option error :=
  StatusError <$> verdict.

(** A write: the server's verdict is logged and handed back as the error. *)
Definition send (c : ApiCall) (k : KubeClient) : KubeClient * option error :=
  let verdict := faults k (calls k) c in
  (logged c verdict k, asError verdict).

(** [kubeClient.CoreV1().Pods(ns).Get(name, ...)]: the answer is decoded
    into a new object. *)
Definition clientPodsGet (namespace name : string) (k : KubeClient) (h : Heap)
    : KubeClient * Heap * (loc + error) :=
  let c := PodsGet namespace name in
  match faults k (calls k) c with
  | Some reason => (logged c (Some reason) k, h, inr (StatusError reason))
  | None =>
      match found k (calls k) namespace name with
      | None =>
          (logged c (Some "NotFound") k, h, inr (StatusError "NotFound"))
      | Some p => let '(l, h') := DeepCopyPod p h in (logged c None k, h', inl l)
      end
  end.

(** [kubeClient.CoreV1().Pods(ns).Update(pod)]; both callers drop the
    returned object. *)
Definition clientPodsUpdate (pod : v1.Pod) (k : KubeClient)
    : KubeClient * option error :=
  send (PodsUpdate pod) k.

(** [kubeClient.CoreV1().PersistentVolumes().Patch(name, type, bytes)]. *)
Definition clientPersistentVolumesPatch (name patchBytes : string)
    (k : KubeClient) : KubeClient * option error :=
  send (PersistentVolumesPatch name patchBytes) k.

(** [kubeClient.CoreV1().PersistentVolumeClaims(ns).UpdateStatus(claim)]. *)
Definition clientPersistentVolumeClaimsUpdateStatus
    (claim : v1.PersistentVolumeClaim) (k : KubeClient)
    : KubeClient * option error :=
  send (PersistentVolumeClaimsUpdateStatus claim) k.

(** The pods of the updates that the server accepted, in a piece of log. *)
Definition acceptedUpdates (log : list (ApiCall * option string))
    : list v1.Pod :=
  omap (λ x, match x with
             | (PodsUpdate p, None) => Some p
             | _ => None
             end) log.

(** ** Library functions that the sources call but do not contain *)

(** [encoding/json] and [strategicpatch]: serialisation of a volume and the
    two-way merge patch between two serialisations.  The code only threads
    their results and errors through. *)
Class Json := {
  Marshal : v1.PersistentVolume → string + error;
  CreateTwoWayMergePatch :
    string → string → v1.PersistentVolume → string + error
}.

(** [pkg/volume/util/volumehelper]: the annotation prefix and the test for
    a terminated pod are taken as given. *)
Class VolumeHelper := {
  VolumeFsResizeAnnotationPrefix : string;
  IsPodTerminated : v1.Pod → v1.PodStatus → bool
}.

(** [strings.TrimPrefix] with the answer whether the prefix was there. *)
Fixpoint cutPrefix (prefix s : string) : option string :=
  match prefix with
  | EmptyString => Some s
  | String a prefix' =>
      match s with
      | EmptyString => None
      | String b s' =>
          if Ascii.eqb a b then cutPrefix prefix' s' else None
      end
  end.

Section volumehelper.
Context `{VolumeHelper}.

(** Modelled from the spec: [GetVolumeFsResizeAnnotation] of
    pkg/volume/util/volumehelper is missing from the sources.  The key
    is the fixed prefix followed by the volume's logical name. *)
Definition GetVolumeFsResizeAnnotation (volumeName : string) : string :=
  VolumeFsResizeAnnotationPrefix +:+ volumeName.

(** Modelled from the spec: the decoder of the handshake key, missing
    from the sources.  It gives the logical name and ok=true for a key
    made of the prefix and a name, and ok=false for any other key. *)
Definition decode (key : string) : string * bool :=
  match cutPrefix VolumeFsResizeAnnotationPrefix key with
  | Some volumeName => (volumeName, true)
  | None => ("", false)
  end.

(** Modelled from the spec: [IsVolumeFsResizeAnnotation] of
    pkg/volume/util/volumehelper is missing from the sources; it is the
    decoder's ok. *)
Definition IsVolumeFsResizeAnnotation (key : string) : bool :=
  (decode key).2.

(** Modelled from the spec: [GetVolumeUniqueNameFromFsResizeAnnotation]
    of pkg/volume/util/volumehelper is missing from the sources; it is
    the decoder's name. *)
Definition GetVolumeUniqueNameFromFsResizeAnnotation (key : string)
    : string :=
  (decode key).1.

(** Modelled from the spec: [GetUniquePodName] of
    pkg/volume/util/volumehelper is missing from the sources; the
    workload identity is the pod's UID. *)
Definition GetUniquePodName (pod : v1.Pod) : string :=
  v1.UID (v1.PodMeta pod).

End volumehelper.

(** ** pkg/controller/volume/expand/cache: [volumeResizeMap] *)
Module expand.

(** A pending resize request.  [PVC] and [PersistentVolume] are the
    pointers handed to [AddPVCUpdate]. *)
Record PVCWithResizeRequest := {
  PVC : loc;
  PersistentVolume : loc;
  CurrentSize : Quantity;
  ExpectedSize : Quantity
}.

(** [UniquePVCKey] returns unique key of the PVC based on its UID; [None]
    is the panic of a nil [PVC]. *)
Definition UniquePVCKey (pvcr : PVCWithResizeRequest) (h : Heap)
    : option string :=
  match PersistentVolumeClaims h !! PVC pvcr with
  | Some c => Some (v1.UID (v1.PVCMeta c))
  | None => None
  end.

(** The struct behind the [VolumeResizeMap] interface.  The map is keyed by
    [types.UniquePVCName], a string made of the claim's UID.  The mutex is
    not modelled: every method below is one atomic step.  The collaborators
    held by the struct are given by what they answer: the lister by the
    shared objects of its cache, indexed by namespace and name, the two
    getters by the lists they return. *)
Record volumeResizeMap := {
  pvcrs : gmap string PVCWithResizeRequest;
  kubeClient : KubeClient;
  podLister : gmap (string * string) loc;
  podsInVolumeGetter : string → list loc;
  volumeMountedNodesGetter : string → list string
}.

Definition withPvcrs (resizeMap : volumeResizeMap)
    (m : gmap string PVCWithResizeRequest) : volumeResizeMap :=
  {| pvcrs := m;
     kubeClient := kubeClient resizeMap;
     podLister := podLister resizeMap;
     podsInVolumeGetter := podsInVolumeGetter resizeMap;
     volumeMountedNodesGetter := volumeMountedNodesGetter resizeMap |}.

Definition withKubeClient (resizeMap : volumeResizeMap) (k : KubeClient)
    : volumeResizeMap :=
  {| pvcrs := pvcrs resizeMap;
     kubeClient := k;
     podLister := podLister resizeMap;
     podsInVolumeGetter := podsInVolumeGetter resizeMap;
     volumeMountedNodesGetter := volumeMountedNodesGetter resizeMap |}.

Definition NewVolumeResizeMap (kubeClient : KubeClient)
    (podLister : gmap (string * string) loc)
    (podsInVolumeGetter : string → list loc)
    (volumeMountedNodesGetter : string → list string) : volumeResizeMap :=
  {| pvcrs := ∅;
     kubeClient := kubeClient;
     podLister := podLister;
     podsInVolumeGetter := podsInVolumeGetter;
     volumeMountedNodesGetter := volumeMountedNodesGetter |}.

(** [AddPVCUpdate] adds pvc for resizing. *)
Definition AddPVCUpdate (pvc pv : loc) (h : Heap)
    (resizeMap : volumeResizeMap) : volumeResizeMap * outcome :=
  match PersistentVolumes h !! pv, PersistentVolumeClaims h !! pvc with
  | Some v, Some c =>
      match v1.ClaimRef v with
      | None => (resizeMap, Returned None)
      | Some ref =>
          if decide (v1.Namespace (v1.PVCMeta c) ≠ v1.RefNamespace ref
                     ∨ v1.Name (v1.PVCMeta c) ≠ v1.RefName ref)
          then (resizeMap, Returned None)
          else if decide (v1.Phase c ≠ v1.ClaimBound)
          then (resizeMap, Returned None)
          else
            let pvcSize := v1.quantityOf (v1.Requests c) v1.ResourceStorage in
            let pvcStatusSize :=
              v1.quantityOf (v1.StatusCapacity c) v1.ResourceStorage in
            if decide (Cmp pvcStatusSize pvcSize >= 0)%Z
            then (resizeMap, Returned None)
            else
              let pvcRequest :=
                {| PVC := pvc;
                   CurrentSize := pvcStatusSize;
                   ExpectedSize := pvcSize;
                   PersistentVolume := pv |} in
              (withPvcrs resizeMap
                 (<[v1.UID (v1.PVCMeta c) := pvcRequest]> (pvcrs resizeMap)),
               Returned None)
      end
  | _, _ => (resizeMap, Panicked)
  end.

(** [GetPVCsWithResizeRequest] returns all pending pvc resize requests. *)
Definition GetPVCsWithResizeRequest (resizeMap : volumeResizeMap)
    : list PVCWithResizeRequest * volumeResizeMap :=
  let pvcrs' :=
    foldl (λ acc kv, acc ++ [kv.2]) [] (range (pvcrs resizeMap)) in
  (pvcrs', withPvcrs resizeMap ∅).

(** [DeletePVC] removes given pvc object from list of pvcs that needs
    resizing. *)
Definition DeletePVC (pvc : loc) (h : Heap) (resizeMap : volumeResizeMap)
    : volumeResizeMap * outcome :=
  match PersistentVolumeClaims h !! pvc with
  | Some c =>
      (withPvcrs resizeMap (delete (v1.UID (v1.PVCMeta c)) (pvcrs resizeMap)),
       Returned None)
  | None => (resizeMap, Panicked)
  end.

(** [m[name] = q] on a ResourceList: assignment to an entry of the nil map
    panics, which is the [None] here. *)
Definition assign (rl : v1.ResourceList) (name : string) (q : Quantity)
    : option v1.ResourceList :=
  match rl with
  | Some m => Some (Some (<[name := q]> m))
  | None => None
  end.

Definition withStatus (c : v1.PersistentVolumeClaim)
    (capacity : v1.ResourceList)
    (conditions : list v1.PersistentVolumeClaimCondition)
    : v1.PersistentVolumeClaim :=
  {| v1.PVCMeta := v1.PVCMeta c;
     v1.Requests := v1.Requests c;
     v1.Phase := v1.Phase c;
     v1.StatusCapacity := capacity;
     v1.Conditions := conditions |}.

Definition withSpecCapacity (pv : v1.PersistentVolume)
    (capacity : v1.ResourceList) : v1.PersistentVolume :=
  {| v1.PVMeta := v1.PVMeta pv;
     v1.SpecCapacity := capacity;
     v1.ClaimRef := v1.ClaimRef pv |}.

Definition updatePVCCapacityAndConditions (pvcr : PVCWithResizeRequest)
    (newSize : Quantity)
    (pvcConditions : list v1.PersistentVolumeClaimCondition)
    (h : Heap) (resizeMap : volumeResizeMap)
    : Heap * volumeResizeMap * outcome :=
  match PersistentVolumeClaims h !! PVC pvcr with
  | None => (h, resizeMap, Panicked)
  | Some c =>
      let '(claimClone, h1) := DeepCopyPVC c h in
      match assign (v1.StatusCapacity c) v1.ResourceStorage newSize with
      | None => (h1, resizeMap, Panicked)
      | Some capacity =>
          let c' := withStatus c capacity pvcConditions in
          let h2 :=
            withPersistentVolumeClaims h1
              (<[claimClone := c']> (PersistentVolumeClaims h1)) in
          let '(k, updateErr) :=
            clientPersistentVolumeClaimsUpdateStatus c'
              (kubeClient resizeMap) in
          (h2, withKubeClient resizeMap k, Returned updateErr)
      end
  end.

(** [MarkAsResized] marks a pvc as fully resized. *)
Definition MarkAsResized (pvcr : PVCWithResizeRequest) (newSize : Quantity)
    (h : Heap) (resizeMap : volumeResizeMap)
    : Heap * volumeResizeMap * outcome :=
  let emptyCondition : list v1.PersistentVolumeClaimCondition := [] in
  let '(h', resizeMap', err) :=
    updatePVCCapacityAndConditions pvcr newSize emptyCondition h resizeMap in
  match err with
  | Returned (Some e) => (h', resizeMap', Returned (Some e))
  | Returned None => (h', resizeMap', Returned None)
  | Panicked => (h', resizeMap', Panicked)
  end.

Section controller.
Context `{Json} `{VolumeHelper}.

(** [UpdatePVSize] updates just pv size after cloudprovider resizing is
    successful. *)
Definition UpdatePVSize (pvcr : PVCWithResizeRequest) (newSize : Quantity)
    (h : Heap) (resizeMap : volumeResizeMap)
    : Heap * volumeResizeMap * outcome :=
  match PersistentVolumes h !! PersistentVolume pvcr with
  | None => (h, resizeMap, Panicked)
  | Some oldPv =>
      let '(pvClone, h1) := DeepCopyPV oldPv h in
      let name := v1.Name (v1.PVMeta oldPv) in
      match Marshal oldPv with
      | inr err =>
          (h1, resizeMap,
           Returned (Some (Errorf
             "Unexpected error marshaling PV : %q with error %v"
             [name] err)))
      | inl oldData =>
          match assign (v1.SpecCapacity oldPv) v1.ResourceStorage newSize with
          | None => (h1, resizeMap, Panicked)
          | Some capacity =>
              let pv' := withSpecCapacity oldPv capacity in
              let h2 :=
                withPersistentVolumes h1
                  (<[pvClone := pv']> (PersistentVolumes h1)) in
              match Marshal pv' with
              | inr err =>
                  (h2, resizeMap,
                   Returned (Some (Errorf
                     "Unexpected error marshaling PV : %q with error %v"
                     [name] err)))
              | inl newData =>
                  match CreateTwoWayMergePatch oldData newData pv' with
                  | inr err =>
                      (h2, resizeMap,
                       Returned (Some (Errorf
                         "Error Creating two way merge patch for  PV : %q with error %v"
                         [name] err)))
                  | inl patchBytes =>
                      let '(k, updateErr) :=
                        clientPersistentVolumesPatch name patchBytes
                          (kubeClient resizeMap) in
                      (h2, withKubeClient resizeMap k, Returned updateErr)
                  end
              end
          end
      end
  end.

Definition podHasMarkedForPVCResizing (pod : v1.Pod) (pvcName : string)
    : bool :=
  match index (v1.Annotations (v1.PodMeta pod))
              (GetVolumeFsResizeAnnotation pvcName) with
  | Some resizeAnnValue => bool_decide (resizeAnnValue = "yes")
  | None => false
  end.

(** What the two assignments of [updatePodAnnotationForPVCResizing] make
    of a pod: a nil annotation map is replaced by an empty one, then the
    key is set. *)
Definition annotated (p : v1.Pod) (pvcName : string) : v1.Pod :=
  let annotations :=
    match v1.Annotations (v1.PodMeta p) with
    | None => ∅
    | Some a => a
    end in
  withAnnotations p
    (Some (<[GetVolumeFsResizeAnnotation pvcName := "yes"]> annotations)).

(** The pod is edited in place, in the cell [pod] points to, and then
    sent. *)
Definition updatePodAnnotationForPVCResizing (pod : loc) (pvcName : string)
    (h : Heap) (k : KubeClient) : Heap * KubeClient * outcome :=
  match Pods h !! pod with
  | None => (h, k, Panicked)
  | Some p =>
      let p' := annotated p pvcName in
      let h' := heapWithPods h (<[pod := p']> (Pods h)) in
      let '(k', err) := clientPodsUpdate p' k in
      (h', k', Returned err)
  end.

(** The first loop of [MarkForFileSystemResize]: look every pod up,
    copy it, and sort out the ones to annotate.  [inl] ends the method,
    [inr] carries [markedNodes] and [podObjs] to the second loop. *)
Fixpoint lookupPods (resizeMap : volumeResizeMap)
    (pvcName uniqueVolumeName : string) (mountedNodes : gset string)
    (pods : list loc) (h : Heap)
    (markedNodes : gset string) (podObjs : list loc)
    : Heap * (outcome + gset string * list loc) :=
  match pods with
  | [] => (h, inr (markedNodes, podObjs))
  | pod :: pods' =>
      let continue := lookupPods resizeMap pvcName uniqueVolumeName
                        mountedNodes pods' in
      match Pods h !! pod with
      | None => (h, inl Panicked)
      | Some p =>
          match podLister resizeMap !! podKey p with
          | None =>
              (h, inl (Returned (Some (Errorf
                 "get pod %s/%s using PVC %s failed: %v"
                 [v1.Name (v1.PodMeta p); v1.Namespace (v1.PodMeta p);
                  uniqueVolumeName]
                 (StatusError "NotFound")))))
          | Some cached =>
              match Pods h !! cached with
              | None => (h, inl Panicked)
              | Some obj =>
                  let '(podObj, h1) := DeepCopyPod obj h in
                  if decide (String.length (v1.NodeName obj) = 0)
                  then continue h1 markedNodes podObjs
                  else if decide (v1.NodeName obj ∉ mountedNodes)
                  then continue h1 markedNodes podObjs
                  else if decide (v1.NodeName obj ∈ markedNodes)
                  then continue h1 markedNodes podObjs
                  else if podHasMarkedForPVCResizing obj pvcName
                  then continue h1 ({[v1.NodeName obj]} ∪ markedNodes) podObjs
                  else continue h1 markedNodes (podObjs ++ [podObj])
              end
          end
      end
  end.

(** The second loop: annotate the first pod of every node that is not
    marked yet. *)
Fixpoint markPods (pvcName : string) (podObjs : list loc) (h : Heap)
    (k : KubeClient) (markedNodes : gset string)
    : Heap * KubeClient * outcome :=
  match podObjs with
  | [] => (h, k, Returned None)
  | podObj :: podObjs' =>
      match Pods h !! podObj with
      | None => (h, k, Panicked)
      | Some p =>
          if decide (v1.NodeName p ∈ markedNodes)
          then markPods pvcName podObjs' h k markedNodes
          else
            let '(h1, k1, markErr) :=
              updatePodAnnotationForPVCResizing podObj pvcName h k in
            match markErr with
            | Returned None =>
                markPods pvcName podObjs' h1 k1
                  ({[v1.NodeName p]} ∪ markedNodes)
            | _ => (h1, k1, markErr)
            end
      end
  end.

(** [MarkForFileSystemResize] add an annotation to pods using the volume
    with specified name.  [pvcName] is [volumeSpec.Name()]. *)
Definition MarkForFileSystemResize (pvcName uniqueVolumeName : string)
    (h : Heap) (resizeMap : volumeResizeMap)
    : Heap * volumeResizeMap * outcome :=
  let pods := podsInVolumeGetter resizeMap uniqueVolumeName in
  if decide (length pods = 0) then (h, resizeMap, Returned None)
  else
    let mountedNodes : gset string :=
      list_to_set (volumeMountedNodesGetter resizeMap uniqueVolumeName) in
    match lookupPods resizeMap pvcName uniqueVolumeName mountedNodes
            pods h ∅ [] with
    | (h1, inl o) => (h1, resizeMap, o)
    | (h1, inr (markedNodes, podObjs)) =>
        let '(h2, k, o) :=
          markPods pvcName podObjs h1 (kubeClient resizeMap) markedNodes in
        (h2, withKubeClient resizeMap k, o)
    end.

End controller.

End expand.

(** ** pkg/kubelet/volumemanager/cache: [volumeFsResizeMap] *)
Module volumemanager.

Record VolumeToResize := {
  Pod : loc;
  VolumeName : string
}.

(** [pods] maps [types.UniquePodName] to a [volumeToResizeSet], itself a
    map from the volume name to the entry.  The mutex is not modelled:
    every method is one atomic step. *)
Record volumeFsResizeMap := {
  pods : gmap string (gmap string VolumeToResize);
  kubeClient : KubeClient
}.

Definition withPods (resizeMap : volumeFsResizeMap)
    (m : gmap string (gmap string VolumeToResize)) : volumeFsResizeMap :=
  {| pods := m; kubeClient := kubeClient resizeMap |}.

Definition withKubeClient (resizeMap : volumeFsResizeMap) (k : KubeClient)
    : volumeFsResizeMap :=
  {| pods := pods resizeMap; kubeClient := k |}.

Definition NewVolumeFsResizeMap (kubeClient : KubeClient)
    : volumeFsResizeMap :=
  {| pods := ∅; kubeClient := kubeClient |}.

Section cache.
Context `{VolumeHelper}.

(** The inner map is a reference in Go: writing [volumes[volumeName]]
    changes the set that [pods[podName]] holds, which is the nested
    insertion here. *)
Definition AddVolumeForPod (volumeName : string) (pod : loc) (h : Heap)
    (resizeMap : volumeFsResizeMap) : volumeFsResizeMap * outcome :=
  match Pods h !! pod with
  | None => (resizeMap, Panicked)
  | Some p =>
      let podName := GetUniquePodName p in
      let volumes :=
        match pods resizeMap !! podName with
        | Some volumes => volumes
        | None => ∅
        end in
      (withPods resizeMap
         (<[podName :=
              <[volumeName := {| Pod := pod; VolumeName := volumeName |}]>
                volumes]>
            (pods resizeMap)),
       Returned None)
  end.

Definition GetVolumesToResize (resizeMap : volumeFsResizeMap)
    : list VolumeToResize * volumeFsResizeMap :=
  let volumesToResize :=
    foldl
      (λ acc volumes,
         foldl (λ acc' volume, acc' ++ [volume.2]) acc (range volumes.2))
      [] (range (pods resizeMap)) in
  (volumesToResize, withPods resizeMap ∅).

(** [pod] may be nil, which is [None]. *)
Definition MarkAsFileSystemResized (pod : option loc) (volumeName : string)
    (h : Heap) (resizeMap : volumeFsResizeMap)
    : Heap * volumeFsResizeMap * outcome :=
  match pod with
  | None => (h, resizeMap, Returned None)
  | Some l =>
      match Pods h !! l with
      | None => (h, resizeMap, Panicked)
      | Some p =>
          let namespace := v1.Namespace (v1.PodMeta p) in
          let name := v1.Name (v1.PodMeta p) in
          let '(k1, h1, r) :=
            clientPodsGet namespace name (kubeClient resizeMap) h in
          match r with
          | inr err =>
              (h1, withKubeClient resizeMap k1,
               Returned (Some (Errorf "failed to get pod %s/%s with %v"
                                      [name; namespace] err)))
          | inl podObj =>
              match Pods h1 !! podObj with
              | None => (h1, withKubeClient resizeMap k1, Panicked)
              | Some obj =>
                  let annKey := GetVolumeFsResizeAnnotation volumeName in
                  match index (v1.Annotations (v1.PodMeta obj)) annKey with
                  | None =>
                      (h1, withKubeClient resizeMap k1, Returned None)
                  | Some _ =>
                      let obj' :=
                        withAnnotations obj
                          (delete annKey <$> v1.Annotations (v1.PodMeta obj)) in
                      let h2 :=
                        heapWithPods h1 (<[podObj := obj']> (Pods h1)) in
                      let '(k2, err) := clientPodsUpdate obj' k1 in
                      match err with
                      | Some e =>
                          (h2, withKubeClient resizeMap k2,
                           Returned (Some (Errorf
                             "failed to update pod %s/%s with %v"
                             [v1.Name (v1.PodMeta obj');
                              v1.Namespace (v1.PodMeta obj')] e)))
                      | None =>
                          (h2, withKubeClient resizeMap k2, Returned None)
                      end
                  end
              end
          end
      end
  end.

End cache.

End volumemanager.


(** ** The kubelet's [volumeFsResizeMapPopulator] *)
Module populator.

(** The collaborators of the populator, given by what they answer during
    one iteration: [podManager.GetPods()] and
    [podStatusProvider.GetPodStatus(uid)].  The cache the populator fills
    is shared with its consumer, so it is threaded through the functions
    instead of being a field. *)
Record volumeFsResizeMapPopulator := {
  podManager : list loc;
  podStatusProvider : string → option v1.PodStatus
}.

Section populator.
Context `{VolumeHelper}.

Definition isPodTerminated (populator : volumeFsResizeMapPopulator)
    (pod : v1.Pod) : bool :=
  let podStatus :=
    match podStatusProvider populator (v1.UID (v1.PodMeta pod)) with
    | Some podStatus => podStatus
    | None => v1.Status pod
    end in
  IsPodTerminated pod podStatus.

(** The loop of [processPodVolumes] over the annotations of [p]. *)
Fixpoint rangeAnnotations (p : v1.Pod) (annotations : list (string * string))
    (h : Heap) (resizeMap : volumemanager.volumeFsResizeMap)
    : Heap * volumemanager.volumeFsResizeMap * outcome :=
  match annotations with
  | [] => (h, resizeMap, Returned None)
  | (key, value) :: annotations' =>
      if IsVolumeFsResizeAnnotation key && bool_decide (value = "yes")
      then
        let '(copy, h1) := DeepCopyPod p h in
        match volumemanager.AddVolumeForPod
                (GetVolumeUniqueNameFromFsResizeAnnotation key) copy h1
                resizeMap with
        | (resizeMap1, Returned _) =>
            rangeAnnotations p annotations' h1 resizeMap1
        | (resizeMap1, Panicked) => (h1, resizeMap1, Panicked)
        end
      else rangeAnnotations p annotations' h resizeMap
  end.

Definition processPodVolumes (pod : option loc) (h : Heap)
    (resizeMap : volumemanager.volumeFsResizeMap)
    : Heap * volumemanager.volumeFsResizeMap * outcome :=
  match pod with
  | None => (h, resizeMap, Returned None)
  | Some l =>
      match Pods h !! l with
      | None => (h, resizeMap, Panicked)
      | Some p =>
          rangeAnnotations p (range (entries (v1.Annotations (v1.PodMeta p))))
            h resizeMap
      end
  end.

(** The loop of [addNewPods] over the pods of the pod manager. *)
Fixpoint rangePods (populator : volumeFsResizeMapPopulator)
    (podObjs : list loc) (h : Heap)
    (resizeMap : volumemanager.volumeFsResizeMap)
    : Heap * volumemanager.volumeFsResizeMap * outcome :=
  match podObjs with
  | [] => (h, resizeMap, Returned None)
  | podObj :: podObjs' =>
      match Pods h !! podObj with
      | None => (h, resizeMap, Panicked)
      | Some p =>
          if isPodTerminated populator p
          then rangePods populator podObjs' h resizeMap
          else
            match processPodVolumes (Some podObj) h resizeMap with
            | (h1, resizeMap1, Returned _) =>
                rangePods populator podObjs' h1 resizeMap1
            | (h1, resizeMap1, Panicked) => (h1, resizeMap1, Panicked)
            end
      end
  end.

Definition addNewPods (populator : volumeFsResizeMapPopulator) (h : Heap)
    (resizeMap : volumemanager.volumeFsResizeMap)
    : Heap * volumemanager.volumeFsResizeMap * outcome :=
  rangePods populator (podManager populator) h resizeMap.

(** One iteration of the loop that [Run] drives. *)
Definition populate (populator : volumeFsResizeMapPopulator) (h : Heap)
    (resizeMap : volumemanager.volumeFsResizeMap)
    : Heap * volumemanager.volumeFsResizeMap * outcome :=
  addNewPods populator h resizeMap.

End populator.

End populator.

(** ** Notions used to state the properties *)

(** The bindings of a map of maps, each under its pair of keys. *)
Definition flatten {V} (l : list (string * gmap string V))
    : list ((string * string) * V) :=
  l ≫= (λ pvs, (λ ve, ((pvs.1, ve.1), ve.2)) <$> map_to_list pvs.2).

(** The object the lister holds for the pod behind [l]: what the first
    loop of [MarkForFileSystemResize] looks at for that pod. *)
Definition observed (h : Heap) (lister : gmap (string * string) loc)
    (l : loc) : option v1.Pod :=
  match Pods h !! l with
  | Some p =>
      match lister !! podKey p with
      | Some cached => Pods h !! cached
      | None => None
      end
  | None => None
  end.

(** The pointers that the collaborators of the controller hand out point
    to objects: Go has no dangling pointer, and a nil one is not a pod. *)
Definition validPointers (h : Heap) (lister : gmap (string * string) loc)
    (pods : list loc) : Prop :=
  (∀ l, l ∈ pods → is_Some (Pods h !! l))
  ∧ (∀ key cached, lister !! key = Some cached → is_Some (Pods h !! cached)).

(** A pod that the fan-out may annotate: it is scheduled, and the volume
    is mounted on its node. *)
Definition eligible (mountedNodes : gset string) (obj : v1.Pod) : Prop :=
  v1.NodeName obj ≠ "" ∧ v1.NodeName obj ∈ mountedNodes.

(** The updates of pods in a piece of log, accepted or not. *)
Definition updatesIn (log : list (ApiCall * option string)) : list v1.Pod :=
  omap (λ x, match x with
             | (PodsUpdate p, _) => Some p
             | _ => None
             end) log.

(** The log entries of a list of pods sent for update, with the server's
    verdicts. *)
Definition asUpdates (sent : list (v1.Pod * option string))
    : list (ApiCall * option string) :=
  (λ x, (PodsUpdate x.1, x.2)) <$> sent.

(** What one turn of the first loop of [MarkForFileSystemResize] does to
    [markedNodes] and [podObjs], for the object [obj] found by the lister
    and its copy [podObj]; see [lookupPods_cons]. *)
Definition sortOut `{VolumeHelper} (pvcName : string)
    (mountedNodes : gset string) (obj : v1.Pod) (podObj : loc)
    (markedNodes : gset string) (podObjs : list loc)
    : gset string * list loc :=
  if decide (String.length (v1.NodeName obj) = 0)
  then (markedNodes, podObjs)
  else if decide (v1.NodeName obj ∉ mountedNodes)
  then (markedNodes, podObjs)
  else if decide (v1.NodeName obj ∈ markedNodes)
  then (markedNodes, podObjs)
  else if expand.podHasMarkedForPVCResizing obj pvcName
  then ({[v1.NodeName obj]} ∪ markedNodes, podObjs)
  else (markedNodes, podObjs ++ [podObj]).

(** The exchanges with the server made between two states of the
    client. *)
Definition exchanges (before after : KubeClient)
    : list (ApiCall * option string) :=
  drop (length (calls before)) (calls after).

(** The nodes on which the volume is mounted, as the fan-out collects
    them. *)
Definition mountedNodesOf (resizeMap : expand.volumeResizeMap)
    (uniqueVolumeName : string) : gset string :=
  list_to_set (expand.volumeMountedNodesGetter resizeMap uniqueVolumeName).

(** [obj] is the lister's object of a pod that uses the volume, and it is
    scheduled to node [n]. *)
Definition listedOn (h : Heap) (resizeMap : expand.volumeResizeMap)
    (uniqueVolumeName : string) (n : string) (obj : v1.Pod) : Prop :=
  ∃ l, l ∈ expand.podsInVolumeGetter resizeMap uniqueVolumeName
       ∧ observed h (expand.podLister resizeMap) l = Some obj
       ∧ v1.NodeName obj = n.

(** The pod carries the signal when a call that made the exchanges [new]
    ends: it carried it when the call looked it up, or the server accepted
    the update of the call that sets it on this pod. *)
Definition carriesSignalAfter `{VolumeHelper} (pvcName : string)
    (new : list (ApiCall * option string)) (obj : v1.Pod) : Prop :=
  expand.podHasMarkedForPVCResizing obj pvcName = true
  ∨ expand.annotated obj pvcName ∈ acceptedUpdates new.

(** Exactly one pod of node [n] carries the signal when the call ends;
    pods are told apart by namespace and name. *)
Definition exactlyOneCarrier `{VolumeHelper} (h : Heap)
    (resizeMap : expand.volumeResizeMap) (pvcName uniqueVolumeName : string)
    (new : list (ApiCall * option string)) (n : string) : Prop :=
  ∃ obj,
    listedOn h resizeMap uniqueVolumeName n obj
    ∧ carriesSignalAfter pvcName new obj
    ∧ ∀ obj', listedOn h resizeMap uniqueVolumeName n obj' →
              carriesSignalAfter pvcName new obj' →
              podKey obj' = podKey obj.

(** ** Worlds to run the code on *)

(** A helper to run examples with: some prefix, and pods terminated when
    their phase says so. *)
Definition exampleHelper : VolumeHelper :=
  {| VolumeFsResizeAnnotationPrefix := "fs-resize/";
     IsPodTerminated := λ _ podStatus,
       bool_decide (v1.PodPhase podStatus = "Failed"
                    ∨ v1.PodPhase podStatus = "Succeeded") |}.

Definition examplePod (name node phase : string) (annotations : gomap string)
    : v1.Pod :=
  {| v1.PodMeta :=
       {| v1.Namespace := "default";
          v1.Name := name;
          v1.UID := "uid-" +:+ name;
          v1.Annotations := annotations |};
     v1.NodeName := node;
     v1.Status := {| v1.PodPhase := phase |} |}.

(** A server that accepts every request and finds no pod. *)
Definition quietClient : KubeClient :=
  {| calls := []; faults := λ _ _, None; found := λ _ _ _, None |}.

(** A server that turns every request down. *)
Definition refusingClient : KubeClient :=
  {| calls := []; faults := λ _ _, Some "Conflict"; found := λ _ _ _, None |}.

Definition heapOfPods (pods : list v1.Pod) : Heap :=
  {| Pods := list_to_map (zip (Pos.of_nat <$> seq 1 (length pods)) pods);
     PersistentVolumes := ∅;
     PersistentVolumeClaims := ∅ |}.

(** The controller of a cluster whose pods all use the volume "vol",
    mounted on node "n1": the lister holds the pods at addresses 1, 2, ...
    under their names. *)
Definition controllerOf (client : KubeClient) (pods : list v1.Pod)
    : expand.volumeResizeMap :=
  expand.NewVolumeResizeMap client
    (list_to_map (zip (podKey <$> pods) (Pos.of_nat <$> seq 1 (length pods))))
    (λ _, Pos.of_nat <$> seq 1 (length pods))
    (λ _, ["n1"]).

Definition signal (value : string) : gomap string :=
  Some {[ @GetVolumeFsResizeAnnotation exampleHelper "data" := value ]}.

(** Two pods of node n1 that both carry the signal already. *)
Definition bothMarked : list v1.Pod :=
  [examplePod "pod-x" "n1" "Running" (signal "yes");
   examplePod "pod-y" "n1" "Running" (signal "yes")].

(** Two pods of node n1 without the signal. *)
Definition noneMarked : list v1.Pod :=
  [examplePod "pod-x" "n1" "Running" None;
   examplePod "pod-y" "n1" "Running" None].

(** A pod of node n1 whose annotation holds another value. *)
Definition oddlyMarked : list v1.Pod :=
  [examplePod "pod-x" "n1" "Running" (signal "no")].

(** The fan-out for the volume "vol", named "data" in the pods, over a
    cluster of the given pods. *)
Definition fanOutOver (client : KubeClient) (pods : list v1.Pod)
    : Heap * expand.volumeResizeMap * outcome :=
  @expand.MarkForFileSystemResize exampleHelper "data" "vol"
    (heapOfPods pods) (controllerOf client pods).

(** The controller whose lister has lost the pod of that name. *)
Definition withoutPod (name : string) (resizeMap : expand.volumeResizeMap)
    : expand.volumeResizeMap :=
  {| expand.pvcrs := expand.pvcrs resizeMap;
     expand.kubeClient := expand.kubeClient resizeMap;
     expand.podLister := delete ("default", name) (expand.podLister resizeMap);
     expand.podsInVolumeGetter := expand.podsInVolumeGetter resizeMap;
     expand.volumeMountedNodesGetter :=
       expand.volumeMountedNodesGetter resizeMap |}.

(** The entry of the node cache for a pod and a volume, if any. *)
Definition pending (resizeMap : volumemanager.volumeFsResizeMap)
    (podName volumeName : string) : option volumemanager.VolumeToResize :=
  match volumemanager.pods resizeMap !! podName with
  | Some volumes => volumes !! volumeName
  | None => None
  end.

(** The pod asks for the volume to be resized: it has the identity
    [podName], the populator does not take it for terminated, and it
    carries the annotation of the volume with the value "yes". *)
Definition wantedBy `{VolumeHelper}
    (populator : populator.volumeFsResizeMapPopulator) (p : v1.Pod)
    (podName volumeName : string) : Prop :=
  GetUniquePodName p = podName
  ∧ populator.isPodTerminated populator p = false
  ∧ index (v1.Annotations (v1.PodMeta p))
          (GetVolumeFsResizeAnnotation volumeName) = Some "yes".

(** Some pod among [pods] asks for it. *)
Definition wanted `{VolumeHelper}
    (populator : populator.volumeFsResizeMapPopulator) (h : Heap)
    (pods : list loc) (podName volumeName : string) : Prop :=
  ∃ l p, l ∈ pods ∧ Pods h !! l = Some p
         ∧ wantedBy populator p podName volumeName.

(** A kubelet that manages the one pod at address 1 and whose status
    provider answers [status] for it. *)
Definition watching (status : option v1.PodStatus)
    : populator.volumeFsResizeMapPopulator :=
  {| populator.podManager := [1%positive];
     populator.podStatusProvider := λ _, status |}.

(** A running pod that carries the signal for the volume "data". *)
Definition signalledPod : v1.Pod :=
  examplePod "pod-x" "n1" "Running" (signal "yes").

(** A first cycle of the populator on an empty cache, the drain by the
    consumer, and a second cycle for which the status provider answers
    [status]. *)
Definition firstCycle
    : Heap * volumemanager.volumeFsResizeMap * outcome :=
  @populator.populate exampleHelper (watching None)
    (heapOfPods [signalledPod]) (volumemanager.NewVolumeFsResizeMap quietClient).

Definition drained : volumemanager.volumeFsResizeMap :=
  (volumemanager.GetVolumesToResize firstCycle.1.2).2.

Definition secondCycle (status : option v1.PodStatus)
    : Heap * volumemanager.volumeFsResizeMap * outcome :=
  @populator.populate exampleHelper (watching status) firstCycle.1.1 drained.

(** A claim of 1 unit that asks for 2, bound to its volume. *)
Definition exampleClaim : v1.PersistentVolumeClaim :=
  {| v1.PVCMeta :=
       {| v1.Namespace := "default"; v1.Name := "pvc-a"; v1.UID := "u1";
          v1.Annotations := None |};
     v1.Requests := Some {[ v1.ResourceStorage := 2%Z ]};
     v1.Phase := v1.ClaimBound;
     v1.StatusCapacity := Some {[ v1.ResourceStorage := 1%Z ]};
     v1.Conditions := [] |}.

Definition exampleVolume : v1.PersistentVolume :=
  {| v1.PVMeta :=
       {| v1.Namespace := ""; v1.Name := "pv-a"; v1.UID := "u2";
          v1.Annotations := None |};
     v1.SpecCapacity := Some {[ v1.ResourceStorage := 1%Z ]};
     v1.ClaimRef :=
       Some {| v1.RefNamespace := "default"; v1.RefName := "pvc-a" |} |}.

Definition claimHeap : Heap :=
  {| Pods := ∅;
     PersistentVolumes := {[ 1%positive := exampleVolume ]};
     PersistentVolumeClaims := {[ 1%positive := exampleClaim ]} |}.

Definition idleController : expand.volumeResizeMap :=
  expand.NewVolumeResizeMap quietClient ∅ (λ _, []) (λ _, []).

Definition exampleRequest : expand.PVCWithResizeRequest :=
  {| expand.PVC := 1%positive;
     expand.PersistentVolume := 1%positive;
     expand.CurrentSize := 1%Z;
     expand.ExpectedSize := 2%Z |}.

(** A serialiser to run examples with. *)
Definition exampleJson : Json :=
  {| Marshal := λ pv, inl (v1.Name (v1.PVMeta pv));
     CreateTwoWayMergePatch := λ oldData newData _, inl (oldData +:+ newData) |}.

(** A server that accepts every request and finds the signalled pod. *)
Definition servingClient : KubeClient :=
  {| calls := [];
     faults := λ _ _, None;
     found := λ _ _ _, Some signalledPod |}.

(** ** Notions used to state further properties *)

(** The claim and its volume pass the three tests of [AddPVCUpdate]. *)
Definition resizable (c : v1.PersistentVolumeClaim) (v : v1.PersistentVolume)
    : Prop :=
  (∃ ref, v1.ClaimRef v = Some ref
          ∧ v1.Namespace (v1.PVCMeta c) = v1.RefNamespace ref
          ∧ v1.Name (v1.PVCMeta c) = v1.RefName ref)
  ∧ v1.Phase c = v1.ClaimBound
  ∧ (v1.quantityOf (v1.StatusCapacity c) v1.ResourceStorage
     < v1.quantityOf (v1.Requests c) v1.ResourceStorage)%Z.

(** The request that [AddPVCUpdate] builds for them. *)
Definition requestFor (pvc pv : loc) (c : v1.PersistentVolumeClaim)
    : expand.PVCWithResizeRequest :=
  {| expand.PVC := pvc;
     expand.PersistentVolume := pv;
     expand.CurrentSize :=
       v1.quantityOf (v1.StatusCapacity c) v1.ResourceStorage;
     expand.ExpectedSize := v1.quantityOf (v1.Requests c) v1.ResourceStorage |}.

(** Every request of the cache is stored under the UID of the claim it
    points to. *)
Definition keyedByUID (h : Heap) (resizeMap : expand.volumeResizeMap) : Prop :=
  ∀ k r, expand.pvcrs resizeMap !! k = Some r →
         expand.UniquePVCKey r h = Some k.

(** The requests of a piece of log, without the verdicts. *)
Definition requestsIn (log : list (ApiCall * option string)) : list ApiCall :=
  log.*1.

(** The example claim as the informer hands it over after a second edit:
    the same UID, a request of 3. *)
Definition grownClaim : v1.PersistentVolumeClaim :=
  {| v1.PVCMeta := v1.PVCMeta exampleClaim;
     v1.Requests := Some {[ v1.ResourceStorage := 3%Z ]};
     v1.Phase := v1.ClaimBound;
     v1.StatusCapacity := v1.StatusCapacity exampleClaim;
     v1.Conditions := [] |}.

Definition twoVersionsHeap : Heap :=
  {| Pods := ∅;
     PersistentVolumes := {[ 1%positive := exampleVolume ]};
     PersistentVolumeClaims :=
       {[ 1%positive := exampleClaim; 2%positive := grownClaim ]} |}.

(** A bound claim that asks for 2 and whose status has no capacity map. *)
Definition claimWithoutCapacity : v1.PersistentVolumeClaim :=
  {| v1.PVCMeta := v1.PVCMeta exampleClaim;
     v1.Requests := Some {[ v1.ResourceStorage := 2%Z ]};
     v1.Phase := v1.ClaimBound;
     v1.StatusCapacity := None;
     v1.Conditions := [] |}.

Definition heapWithoutCapacity : Heap :=
  {| Pods := ∅;
     PersistentVolumes := {[ 1%positive := exampleVolume ]};
     PersistentVolumeClaims := {[ 1%positive := claimWithoutCapacity ]} |}.

(** Every entry of the node cache names the volume it is stored under and
    points to a pod of the identity it is stored under. *)
Definition nodeKeyed (h : Heap)
    (resizeMap : volumemanager.volumeFsResizeMap) : Prop :=
  ∀ podName volumeName e,
    pending resizeMap podName volumeName = Some e →
    volumemanager.VolumeName e = volumeName
    ∧ ∃ p, Pods h !! volumemanager.Pod e = Some p
           ∧ GetUniquePodName p = podName.

(** A cycle of the populator that follows [firstCycle] with no drain in
    between. *)
Definition repeatedCycle
    : Heap * volumemanager.volumeFsResizeMap * outcome :=
  @populator.populate exampleHelper (watching None)
    firstCycle.1.1 firstCycle.1.2.


(** A running pod of node n1 that carries no annotation, alone on the
    heap of the controller. *)
Definition plainPod : v1.Pod := examplePod "pod-x" "n1" "Running" None.

Definition controllerMarks : Heap * KubeClient * outcome :=
  @expand.updatePodAnnotationForPVCResizing exampleHelper 1%positive "data"
    (heapOfPods [plainPod]) quietClient.

(** The node clears the signal of the volume "data" on a server that
    finds the pod as the controller sent it. *)
Definition nodeClears : Heap * volumemanager.volumeFsResizeMap * outcome :=
  @volumemanager.MarkAsFileSystemResized exampleHelper (Some 1%positive) "data"
    (heapOfPods [signalledPod])
    (volumemanager.NewVolumeFsResizeMap servingClient).


(** A cycle of the populator that follows [nodeClears], the pod manager
    still showing the pod as it was. *)
Definition cycleAfterClearing
    : Heap * volumemanager.volumeFsResizeMap * outcome :=
  @populator.populate exampleHelper (watching None)
    nodeClears.1.1 nodeClears.1.2.


(** ** The device mounter of the rbd plugin

    [MountDevice] and [UnmountDevice] drive the operating system and the
    disk manager of the node.  Those collaborators are modelled like the
    API server: every call is appended to a trace together with its
    results, and oracles give the results from the trace so far. *)
Module rbd.

(** Errors: what a collaborator reports, and what [fmt.Errorf] makes of
    its arguments, with or without an error among them. *)
#[warnings="-register-all"] Inductive Error :=
  | Reported (reason : string)
  | FmtErrorf (format : string) (args : list string) (cause : option Error).

(** Functions of the package and of [pkg/volume] that the sources call
    but do not contain: what a volume spec says about its image, and how
    the plugin names the mount point of an image.  [makePDNameInternal] is
    taken at the host of the plugin.  [IsNotExist] is [os.IsNotExist]. *)
Class Plugin := {
  Spec : Type;
  Mounter : Type;
  getVolumeSourceImage : Spec → string * option Error;
  getVolumeSourcePool : Spec → string * option Error;
  getVolumeSourceFSType : Spec → string * option Error;
  getVolumeSourceReadOnly : Spec → bool * option Error;
  makePDNameInternal : string → string → string;
  MountOptionFromSpec : Spec → list string → list string;
  IsNotExist : Error → bool
}.

Section node.
Context `{Plugin}.

(** A call to a collaborator, with its arguments and its results. *)
Inductive Event :=
  | CreateMounterFromVolumeSpecAndPod (spec : Spec) (pod : option loc)
      (mounter : option Mounter) (err : option Error)
  | AttachDisk (mounter : Mounter) (realDevicePath : string)
      (err : option Error)
  | IsLikelyNotMountPoint (file : string) (notMnt : bool)
      (err : option Error)
  | MkdirAll (path : string) (perm : Z) (err : option Error)
  | FormatAndMount (source target fstype : string) (options : list string)
      (err : option Error)
  | Remove (name : string) (err : option Error)
  | PathExists (path : string) (pathExists : bool) (pathErr : option Error)
  | GetDeviceNameFromMount (mountPath devicePath : string) (cnt : Z)
      (err : option Error)
  | Unmount (target : string) (err : option Error)
  | DetachDisk (deviceMountPath devicePath : string) (err : option Error).

(** The error that a call reported. *)
Definition reported (ev : Event) : option Error :=
  match ev with
  | CreateMounterFromVolumeSpecAndPod _ _ _ err
  | AttachDisk _ _ err
  | IsLikelyNotMountPoint _ _ err
  | MkdirAll _ _ err
  | FormatAndMount _ _ _ _ err
  | Remove _ err
  | PathExists _ _ err
  | GetDeviceNameFromMount _ _ _ err
  | Unmount _ err
  | DetachDisk _ _ err => err
  end.

(** The results of every call, given the events so far. *)
Record Oracles := {
  createMounterFromVolumeSpecAndPod :
    list Event → Spec → option loc → option Mounter * option Error;
  attachDisk : list Event → Mounter → string * option Error;
  isLikelyNotMountPoint : list Event → string → bool * option Error;
  mkdirAll : list Event → string → Z → option Error;
  formatAndMount :
    list Event → string → string → string → list string → option Error;
  remove : list Event → string → option Error;
  pathExists : list Event → string → bool * option Error;
  getDeviceNameFromMount : list Event → string → string * Z * option Error;
  unmount : list Event → string → option Error;
  detachDisk : list Event → string → string → option Error
}.

Record Node := {
  trace : list Event;
  oracles : Oracles
}.

Definition logged (ev : Event) (n : Node) : Node :=
  {| trace := trace n ++ [ev]; oracles := oracles n |}.

(** A computation on the node that ends the method with an [R], as a Go
    [return] does, or goes on with an [A]. *)
Definition Run (R A : Type) : Type := Node → Node * (R + A).

#[export] Instance Run_ret {R} : MRet (Run R) := λ A a n, (n, inr a).

#[export] Instance Run_bind {R} : MBind (Run R) := λ A B k c n,
  let '(n', x) := c n in
  match x with
  | inl r => (n', inl r)
  | inr a => k a n'
  end.

Definition exit {R A} (r : R) : Run R A := λ n, (n, inl r).

(** The method as a function of the node: what it returns, whichever
    [return] was taken. *)
Definition body {R} (c : Run R R) (n : Node) : Node * R :=
  let '(n', x) := c n in
  (n', match x with inl r => r | inr r => r end).

(** A call asks the oracle and logs the event. *)
Definition call {R A} (answer : Oracles → list Event → A) (ev : A → Event)
    : Run R A :=
  λ n, let a := answer (oracles n) (trace n) in (logged (ev a) n, inr a).

Definition plugin_createMounterFromVolumeSpecAndPod {R} (spec : Spec)
    (pod : option loc) : Run R (option Mounter * option Error) :=
  call (λ o t, createMounterFromVolumeSpecAndPod o t spec pod)
       (λ a, CreateMounterFromVolumeSpecAndPod spec pod a.1 a.2).

Definition manager_AttachDisk {R} (mounter : Mounter)
    : Run R (string * option Error) :=
  call (λ o t, attachDisk o t mounter) (λ a, AttachDisk mounter a.1 a.2).

Definition mounter_IsLikelyNotMountPoint {R} (file : string)
    : Run R (bool * option Error) :=
  call (λ o t, isLikelyNotMountPoint o t file)
       (λ a, IsLikelyNotMountPoint file a.1 a.2).

Definition os_MkdirAll {R} (path : string) (perm : Z)
    : Run R (option Error) :=
  call (λ o t, mkdirAll o t path perm) (MkdirAll path perm).

Definition mounter_FormatAndMount {R} (source target fstype : string)
    (options : list string) : Run R (option Error) :=
  call (λ o t, formatAndMount o t source target fstype options)
       (FormatAndMount source target fstype options).

Definition os_Remove {R} (name : string) : Run R (option Error) :=
  call (λ o t, remove o t name) (Remove name).

Definition volutil_PathExists {R} (path : string)
    : Run R (bool * option Error) :=
  call (λ o t, pathExists o t path) (λ a, PathExists path a.1 a.2).

Definition mount_GetDeviceNameFromMount {R} (mountPath : string)
    : Run R (string * Z * option Error) :=
  call (λ o t, getDeviceNameFromMount o t mountPath)
       (λ a, GetDeviceNameFromMount mountPath a.1.1 a.1.2 a.2).

Definition mounter_Unmount {R} (target : string) : Run R (option Error) :=
  call (λ o t, unmount o t target) (Unmount target).

Definition manager_DetachDisk {R} (deviceMountPath devicePath : string)
    : Run R (option Error) :=
  call (λ o t, detachDisk o t deviceMountPath devicePath)
       (DetachDisk deviceMountPath devicePath).

End node.

(** How [MountDevice] ends: it returns a path and an error, or the
    goroutine panics. *)
Inductive Mounted :=
  | Returns (deviceMountPath : string) (err : option Error)
  | Panics.

Section attacher.
Context `{Plugin}.

Definition GetDeviceMountPath (spec : Spec) : string * option Error :=
  let '(img, err) := getVolumeSourceImage spec in
  if err is Some e then ("", Some e) else
  let '(pool, err) := getVolumeSourcePool spec in
  if err is Some e then ("", Some e) else
  (makePDNameInternal pool img, None).

(** [MountDevice(spec, _, pod)].  The mode 0750 of the directory is 488. *)
Definition MountDevice (spec : Spec) (pod : option loc)
    : Node → Node * Mounted :=
  body (
    '(mounter, err) ← plugin_createMounterFromVolumeSpecAndPod spec pod;
    if err is Some e then exit (Returns "" (Some e)) else
    mounter ← (if mounter is Some m then mret m else exit Panics);
    '(realDevicePath, err) ← manager_AttachDisk mounter;
    if err is Some e then exit (Returns "" (Some e)) else
    let '(deviceMountPath, err) := GetDeviceMountPath spec in
    if err is Some e then exit (Returns deviceMountPath (Some e)) else
    '(notMnt, err) ← mounter_IsLikelyNotMountPoint deviceMountPath;
    notMnt ←
      match err with
      | Some e =>
          if IsNotExist e then
            err ← os_MkdirAll deviceMountPath 488;
            if err is Some e' then exit (Returns deviceMountPath (Some e'))
            else mret true
          else exit (Returns deviceMountPath (Some e))
      | None => mret notMnt
      end;
    if negb notMnt then exit (Returns deviceMountPath None) else
    let '(fstype, err) := getVolumeSourceFSType spec in
    if err is Some e then exit (Returns deviceMountPath (Some e)) else
    let '(ro, err) := getVolumeSourceReadOnly spec in
    if err is Some e then exit (Returns deviceMountPath (Some e)) else
    let options := if ro then ["ro"] else [] in
    let mountOptions := MountOptionFromSpec spec options in
    err ← mounter_FormatAndMount realDevicePath deviceMountPath fstype
            mountOptions;
    if err is Some e then
      _ ← os_Remove deviceMountPath;
      exit (Returns deviceMountPath
              (Some (FmtErrorf
                 "rbd: failed to mount device %s at %s (fstype: %s), error %v"
                 [realDevicePath; deviceMountPath; fstype] (Some e))))
    else mret (Returns deviceMountPath None)).

(** [UnmountDevice(deviceMountPath)]. *)
Definition UnmountDevice (deviceMountPath : string)
    : Node → Node * option Error :=
  body (
    '(pathExists, pathErr) ← volutil_PathExists deviceMountPath;
    if pathErr is Some e then
      exit (Some (FmtErrorf "Error checking if path exists: %v" [] (Some e)))
    else if negb pathExists then exit None else
    '(devicePath, cnt, err) ← mount_GetDeviceNameFromMount deviceMountPath;
    if err is Some e then exit (Some e) else
    if bool_decide (1 < cnt)%Z then
      exit (Some (FmtErrorf "rbd: more than 1 reference counts at %s"
                    [deviceMountPath] None))
    else
    _ ← (if bool_decide (cnt = 1%Z) then
           err ← mounter_Unmount deviceMountPath;
           if err is Some e then exit (Some e) else mret ()
         else mret ());
    err ← manager_DetachDisk deviceMountPath devicePath;
    if err is Some e then exit (Some e) else
    err ← os_Remove deviceMountPath;
    if err is Some e then exit (Some e) else
    mret None).

End attacher.
End rbd.

(** The events of a run: what the trace gained. *)
Definition events `{rbd.Plugin} (before after : rbd.Node)
    : list rbd.Event :=
  drop (length (rbd.trace before)) (rbd.trace after).

(** What [MountDevice] has done when it comes to read the file system
    type: the mounter was made and the disk attached. *)
Definition attached `{rbd.Plugin} (spec : rbd.Spec) (pod : option loc)
    (mounter : rbd.Mounter) (realDevicePath : string) : list rbd.Event :=
  [rbd.CreateMounterFromVolumeSpecAndPod spec pod (Some mounter) None;
   rbd.AttachDisk mounter realDevicePath None].

(** The mount point was found free, or missing and then created. *)
Definition probed `{rbd.Plugin} (deviceMountPath : string)
    (probe : list rbd.Event) : Prop :=
  probe = [rbd.IsLikelyNotMountPoint deviceMountPath true None]
  ∨ ∃ notMnt e,
      rbd.IsNotExist e = true
      ∧ probe = [rbd.IsLikelyNotMountPoint deviceMountPath notMnt (Some e);
                 rbd.MkdirAll deviceMountPath 488 None].

(** The options that [MountDevice] mounts a volume with. *)
Definition mountOptionsOf `{rbd.Plugin} (spec : rbd.Spec) (ro : bool)
    : list string :=
  rbd.MountOptionFromSpec spec (if ro then ["ro"] else []).

(** The error [MountDevice] makes of a failed mount. *)
Definition mountFailure (realDevicePath deviceMountPath fstype : string)
    (e : rbd.Error) : rbd.Error :=
  rbd.FmtErrorf "rbd: failed to mount device %s at %s (fstype: %s), error %v"
    [realDevicePath; deviceMountPath; fstype] (Some e).

(** A plugin to run examples with: a spec says whether the volume is
    read-only, every image is "img" of pool "pool" with an ext4 file
    system, and a mounter is known by a name. *)
Definition examplePlugin : rbd.Plugin :=
  {| rbd.Spec := bool;
     rbd.Mounter := string;
     rbd.getVolumeSourceImage := λ _, ("img", None);
     rbd.getVolumeSourcePool := λ _, ("pool", None);
     rbd.getVolumeSourceFSType := λ _, ("ext4", None);
     rbd.getVolumeSourceReadOnly := λ ro, (ro, None);
     rbd.makePDNameInternal :=
       λ pool img, "/rbd/" +:+ pool +:+ "-image-" +:+ img;
     rbd.MountOptionFromSpec := λ _ options, options;
     rbd.IsNotExist := λ e,
       if e is rbd.Reported reason then String.eqb reason "ENOENT"
       else false |}.

Definition exampleMountPath : string := "/rbd/pool-image-img".

(** A node on which every call succeeds: the mount point exists, [cnt]
    mounts refer to the device found there, the enquiry about the mount
    point answers [notMnt], and mounting reports [mounting]. *)
Definition exampleOracles (cnt : Z) (notMnt : bool)
    (mounting : option rbd.Error) : @rbd.Oracles examplePlugin :=
  {| rbd.createMounterFromVolumeSpecAndPod :=
       λ _ _ _, (Some "mounter" : option (@rbd.Mounter examplePlugin), None);
     rbd.attachDisk := λ _ _, ("/dev/rbd0", None);
     rbd.isLikelyNotMountPoint := λ _ _, (notMnt, None);
     rbd.mkdirAll := λ _ _ _, None;
     rbd.formatAndMount := λ _ _ _ _ _, mounting;
     rbd.remove := λ _ _, None;
     rbd.pathExists := λ _ _, (true, None);
     rbd.getDeviceNameFromMount := λ _ _, ("/dev/rbd0", cnt, None);
     rbd.unmount := λ _ _, None;
     rbd.detachDisk := λ _ _ _, None |}.

Definition exampleNode (cnt : Z) (notMnt : bool) (mounting : option rbd.Error)
    : @rbd.Node examplePlugin :=
  {| rbd.trace := []; rbd.oracles := exampleOracles cnt notMnt mounting |}.

Definition unmounted (cnt : Z) : @rbd.Node examplePlugin * option rbd.Error :=
  @rbd.UnmountDevice examplePlugin exampleMountPath (exampleNode cnt true None).

Definition mounted (readOnly notMnt : bool) (mounting : option rbd.Error)
    : @rbd.Node examplePlugin * rbd.Mounted :=
  @rbd.MountDevice examplePlugin readOnly None (exampleNode 0 notMnt mounting).


(* ===================================================================== *)
(** * Part II: properties                                                 *)
(* ===================================================================== *)

(** ** Lists built by the loops *)

Lemma foldl_snoc {A B} (f : A → B) (l : list A) (acc : list B) :
  foldl (λ acc x, acc ++ [f x]) acc l = acc ++ (f <$> l).
Proof.
  revert acc. induction l as [|x l IH]; intros acc; simpl.
  - by rewrite app_nil_r.
  - rewrite IH. by rewrite <- app_assoc.
Qed.

Lemma foldl_nested_snoc {V} (l : list (string * gmap string V))
    (acc : list V) :
  foldl (λ acc volumes,
           foldl (λ acc' volume, acc' ++ [volume.2]) acc (range volumes.2))
        acc l
  = acc ++ (flatten l).*2.
Proof.
  revert acc. induction l as [|x l IH]; intros acc; simpl.
  - by rewrite app_nil_r.
  - rewrite IH, (foldl_snoc snd). unfold flatten. simpl.
    rewrite fmap_app, <- app_assoc. do 2 f_equal.
    unfold range. rewrite <- list_fmap_compose. done.
Qed.

Lemma elem_of_flatten {V} (l : list (string * gmap string V)) p v (e : V) :
  ((p, v), e) ∈ flatten l ↔ ∃ vs, (p, vs) ∈ l ∧ vs !! v = Some e.
Proof.
  unfold flatten. rewrite list_elem_of_bind. split.
  - intros ([p' vs] & Hin & Hl). simpl in Hin.
    apply list_elem_of_fmap in Hin as ([v' e'] & Heq & Hin). simpl in Heq.
    inversion Heq; subst. exists vs. split; [done|].
    by apply elem_of_map_to_list in Hin.
  - intros (vs & Hl & Hv). exists (p, vs). split; [|done]. simpl.
    apply list_elem_of_fmap. exists (v, e). split; [done|].
    by apply elem_of_map_to_list.
Qed.

Lemma flatten_keys_in {V} (l : list (string * gmap string V)) pv :
  pv ∈ (flatten l).*1 → pv.1 ∈ l.*1.
Proof.
  intros Hin. apply list_elem_of_fmap in Hin as ([[p v] e] & -> & Hin).
  apply elem_of_flatten in Hin as (vs & Hin & _). simpl.
  apply list_elem_of_fmap. by exists (p, vs).
Qed.

Lemma NoDup_flatten_keys {V} (l : list (string * gmap string V)) :
  NoDup l.*1 → NoDup (flatten l).*1.
Proof.
  induction l as [|[p vs] l IH]; simpl; intros Hnd.
  - constructor.
  - apply NoDup_cons in Hnd as [Hp Hnd].
    change (flatten ((p, vs) :: l))
      with (((λ ve, ((p, ve.1), ve.2)) <$> map_to_list vs) ++ flatten l).
    rewrite fmap_app. apply NoDup_app. split; [|split].
    + assert (((λ ve : string * V, ((p, ve.1), ve.2)) <$> map_to_list vs).*1
              = (λ v, (p, v)) <$> (map_to_list vs).*1) as ->.
      { rewrite <- !list_fmap_compose. by apply list_fmap_ext. }
      apply NoDup_fmap_2; [intros ?? [=]; done|].
      apply NoDup_fst_map_to_list.
    + intros pv Hin Hin'. apply flatten_keys_in in Hin'.
      apply list_elem_of_fmap in Hin as (ve & -> & Hin).
      apply list_elem_of_fmap in Hin as ([v e] & -> & _). done.
    + by apply IH.
Qed.

(** ** Draining a cache *)

(** C1.  Draining either cache returns every entry that was in the cache
    exactly once, and nothing else, and leaves the cache empty: the batch
    is the list of values of an enumeration of the cache in which every key
    occurs once and which holds exactly the bindings of the cache. *)
Theorem drain_returns_every_entry_once :
  (∀ resizeMap : expand.volumeResizeMap,
     ∃ keyed : list (string * expand.PVCWithResizeRequest),
       (expand.GetPVCsWithResizeRequest resizeMap).1 = keyed.*2
       ∧ NoDup keyed.*1
       ∧ (∀ k r, (k, r) ∈ keyed ↔ expand.pvcrs resizeMap !! k = Some r)
       ∧ expand.pvcrs (expand.GetPVCsWithResizeRequest resizeMap).2 = ∅
       ∧ expand.kubeClient (expand.GetPVCsWithResizeRequest resizeMap).2
         = expand.kubeClient resizeMap)
  ∧ (∀ resizeMap : volumemanager.volumeFsResizeMap,
       ∃ keyed : list ((string * string) * volumemanager.VolumeToResize),
         (volumemanager.GetVolumesToResize resizeMap).1 = keyed.*2
         ∧ NoDup keyed.*1
         ∧ (∀ podName volumeName e,
              ((podName, volumeName), e) ∈ keyed
              ↔ ∃ volumes,
                  volumemanager.pods resizeMap !! podName = Some volumes
                  ∧ volumes !! volumeName = Some e)
         ∧ volumemanager.pods (volumemanager.GetVolumesToResize resizeMap).2
           = ∅
         ∧ volumemanager.kubeClient
             (volumemanager.GetVolumesToResize resizeMap).2
           = volumemanager.kubeClient resizeMap).
Proof.
  split.
  - intros resizeMap. exists (map_to_list (expand.pvcrs resizeMap)).
    split; [|split; [|split; [|split]]]; try done.
    + exact (foldl_snoc snd _ []).
    + apply NoDup_fst_map_to_list.
    + intros k r. apply elem_of_map_to_list.
  - intros resizeMap.
    exists (flatten (map_to_list (volumemanager.pods resizeMap))).
    split; [|split; [|split; [|split]]]; try done.
    + exact (foldl_nested_snoc _ []).
    + apply NoDup_flatten_keys, NoDup_fst_map_to_list.
    + intros p v e. rewrite elem_of_flatten.
      split; intros (vs & Hin & Hv); exists vs; split; try done;
        by apply elem_of_map_to_list.
Qed.

(** ** The handshake key *)

Lemma cutPrefix_append (prefix s : string) :
  cutPrefix prefix (prefix +:+ s) = Some s.
Proof.
  induction prefix as [|a prefix IH]; simpl; [done|].
  by rewrite Ascii.eqb_refl.
Qed.

Lemma cutPrefix_Some (prefix key s : string) :
  cutPrefix prefix key = Some s → key = prefix +:+ s.
Proof.
  revert key. induction prefix as [|a prefix IH]; intros key; simpl.
  - by intros [= ->].
  - destruct key as [|b key]; [done|].
    destruct (Ascii.eqb a b) eqn:Hab; [|done].
    apply Ascii.eqb_eq in Hab as ->. intros Hcut. by rewrite (IH _ Hcut).
Qed.

Section codec.
Context `{VolumeHelper}.

Lemma decode_encode (volumeName : string) :
  decode (GetVolumeFsResizeAnnotation volumeName) = (volumeName, true).
Proof.
  unfold decode, GetVolumeFsResizeAnnotation. by rewrite cutPrefix_append.
Qed.

Lemma decode_ok (key volumeName : string) :
  decode key = (volumeName, true)
  ↔ key = GetVolumeFsResizeAnnotation volumeName.
Proof.
  split.
  - unfold decode, GetVolumeFsResizeAnnotation.
    destruct (cutPrefix _ key) as [s|] eqn:Hcut; [|done].
    intros [= ->]. by apply cutPrefix_Some.
  - intros ->. apply decode_encode.
Qed.

Lemma IsVolumeFsResizeAnnotation_true (key : string) :
  IsVolumeFsResizeAnnotation key = true
  ↔ key = GetVolumeFsResizeAnnotation
            (GetVolumeUniqueNameFromFsResizeAnnotation key).
Proof.
  unfold IsVolumeFsResizeAnnotation, GetVolumeUniqueNameFromFsResizeAnnotation.
  split.
  - intros Hok. apply decode_ok. destruct (decode key); simpl in *; by subst.
  - intros ->. by rewrite decode_encode.
Qed.

Lemma GetVolumeFsResizeAnnotation_inj (a b : string) :
  GetVolumeFsResizeAnnotation a = GetVolumeFsResizeAnnotation b → a = b.
Proof.
  intros Heq. pose proof (decode_encode a) as Ha.
  rewrite Heq, decode_encode in Ha. by inversion Ha.
Qed.

Lemma podHasMarkedForPVCResizing_true (pod : v1.Pod) (pvcName : string) :
  expand.podHasMarkedForPVCResizing pod pvcName = true
  ↔ index (v1.Annotations (v1.PodMeta pod))
          (GetVolumeFsResizeAnnotation pvcName) = Some "yes".
Proof.
  unfold expand.podHasMarkedForPVCResizing.
  destruct (index _ _) as [value|]; [|done].
  rewrite bool_decide_eq_true. split; [by intros ->|by intros [= ->]].
Qed.

(** C4.  Decoding an encoded name gives the name back with ok=true; a key
    that is the encoding of no name decodes with ok=false; and on either
    side a signal is pending only for the value "yes": the controller
    takes a pod for marked exactly when the key is present with that
    value, and the populator's loop passes over an entry whose key is no
    handshake key or whose value is anything else. *)
Theorem handshake_codec_inverse :
  (∀ volumeName,
     decode (GetVolumeFsResizeAnnotation volumeName) = (volumeName, true))
  ∧ (∀ key, (∀ volumeName, key ≠ GetVolumeFsResizeAnnotation volumeName) →
            (decode key).2 = false)
  ∧ (∀ pod pvcName,
       expand.podHasMarkedForPVCResizing pod pvcName = true
       ↔ index (v1.Annotations (v1.PodMeta pod))
               (GetVolumeFsResizeAnnotation pvcName) = Some "yes")
  ∧ (∀ p key value h resizeMap,
       IsVolumeFsResizeAnnotation key = false ∨ value ≠ "yes" →
       populator.rangeAnnotations p [(key, value)] h resizeMap
       = (h, resizeMap, Returned None)).
Proof.
  split; [|split; [|split]].
  - apply decode_encode.
  - intros key Hkey. destruct (decode key) as [volumeName ok] eqn:Hdec.
    destruct ok; [|done]. apply decode_ok in Hdec. by destruct (Hkey volumeName).
  - apply podHasMarkedForPVCResizing_true.
  - intros p key value h resizeMap Hnot. simpl.
    destruct Hnot as [-> | Hvalue]; [done|].
    rewrite (bool_decide_eq_false_2 _ Hvalue). by rewrite andb_false_r.
Qed.

End codec.

(** ** Enqueueing a claim *)

Lemma Cmp_ge_0 (q y : Quantity) : (Cmp q y >= 0)%Z ↔ (y ≤ q)%Z.
Proof.
  unfold Cmp. destruct (Z.compare_spec q y); lia.
Qed.

(** C3.  For a claim and a volume behind valid pointers, [AddPVCUpdate]
    stores, under the claim's UID, the request made of the two pointers,
    the claim's status capacity and the claim's requested size, if the
    volume's claim reference is set and names the claim, the claim is
    Bound and its status capacity is below the request; in every other
    case the cache is returned as it was.  It returns normally in both
    cases, and it has no error to return. *)
Theorem AddPVCUpdate_adds_iff (pvc pv : loc) (h : Heap)
    (resizeMap : expand.volumeResizeMap)
    (c : v1.PersistentVolumeClaim) (v : v1.PersistentVolume) :
  PersistentVolumeClaims h !! pvc = Some c →
  PersistentVolumes h !! pv = Some v →
  ((∃ ref, v1.ClaimRef v = Some ref
           ∧ v1.Namespace (v1.PVCMeta c) = v1.RefNamespace ref
           ∧ v1.Name (v1.PVCMeta c) = v1.RefName ref)
   ∧ v1.Phase c = v1.ClaimBound
   ∧ (v1.quantityOf (v1.StatusCapacity c) v1.ResourceStorage
      < v1.quantityOf (v1.Requests c) v1.ResourceStorage)%Z →
   expand.AddPVCUpdate pvc pv h resizeMap
   = (expand.withPvcrs resizeMap
        (<[v1.UID (v1.PVCMeta c) :=
             {| expand.PVC := pvc;
                expand.PersistentVolume := pv;
                expand.CurrentSize :=
                  v1.quantityOf (v1.StatusCapacity c) v1.ResourceStorage;
                expand.ExpectedSize :=
                  v1.quantityOf (v1.Requests c) v1.ResourceStorage |}]>
           (expand.pvcrs resizeMap)),
      Returned None))
  ∧ (¬ ((∃ ref, v1.ClaimRef v = Some ref
                ∧ v1.Namespace (v1.PVCMeta c) = v1.RefNamespace ref
                ∧ v1.Name (v1.PVCMeta c) = v1.RefName ref)
        ∧ v1.Phase c = v1.ClaimBound
        ∧ (v1.quantityOf (v1.StatusCapacity c) v1.ResourceStorage
           < v1.quantityOf (v1.Requests c) v1.ResourceStorage)%Z) →
     expand.AddPVCUpdate pvc pv h resizeMap = (resizeMap, Returned None)).
Proof.
  intros Hc Hv. unfold expand.AddPVCUpdate. rewrite Hv, Hc.
  destruct (v1.ClaimRef v) as [ref|] eqn:Href.
  2: { split; [intros [(? & [=] & _) _] | done]. }
  destruct (decide (_ ∨ _)) as [Hne|Hsame].
  { split; [|done]. intros [(ref' & [= <-] & Hns & Hname) _].
    destruct Hne; done. }
  assert (v1.Namespace (v1.PVCMeta c) = v1.RefNamespace ref) as Hns.
  { apply dec_stable. intros ?. apply Hsame. by left. }
  assert (v1.Name (v1.PVCMeta c) = v1.RefName ref) as Hname.
  { apply dec_stable. intros ?. apply Hsame. by right. }
  destruct (decide (v1.Phase c ≠ v1.ClaimBound)) as [Hphase|Hphase].
  { split; [|done]. by intros (_ & ? & _). }
  apply dec_stable in Hphase.
  destruct (decide (Cmp _ _ >= 0)%Z) as [Hcmp|Hcmp].
  { split; [|done]. apply Cmp_ge_0 in Hcmp. intros (_ & _ & ?). lia. }
  rewrite Cmp_ge_0 in Hcmp. split; [done|].
  intros Hnot. destruct Hnot. split; [by exists ref|]. split; [done|lia].
Qed.

(** ** Allocation *)

Lemma DeepCopyPod_spec (p : v1.Pod) (h h' : Heap) (l : loc) :
  DeepCopyPod p h = (l, h') →
  Pods h !! l = None
  ∧ h' = heapWithPods h (<[l := p]> (Pods h)).
Proof.
  unfold DeepCopyPod. intros [= <- <-]. split; [|done].
  apply not_elem_of_dom, is_fresh.
Qed.

(** ** Clearing the signal on the node *)

Section clearing.
Context `{VolumeHelper}.

(** C9.  [MarkAsFileSystemResized] with a nil pod returns nil and does
    nothing.  When the pod is read back and no longer carries the
    annotation of the volume, the method returns nil and the read is the
    only exchange with the server.  When the pod read back carries it,
    whatever its value, the one update that follows sends that pod with
    exactly this key removed from its annotations, and the method returns
    nil exactly when the server accepts the update.  In every case an
    update is sent only after a read that found the annotation. *)
Theorem MarkAsFileSystemResized_clears_once :
  (∀ volumeName h resizeMap,
     volumemanager.MarkAsFileSystemResized None volumeName h resizeMap
     = (h, resizeMap, Returned None))
  ∧ (∀ l p obj volumeName h resizeMap h' resizeMap' o,
       Pods h !! l = Some p →
       faults (volumemanager.kubeClient resizeMap)
              (calls (volumemanager.kubeClient resizeMap))
              (PodsGet (v1.Namespace (v1.PodMeta p)) (v1.Name (v1.PodMeta p)))
       = None →
       found (volumemanager.kubeClient resizeMap)
             (calls (volumemanager.kubeClient resizeMap))
             (v1.Namespace (v1.PodMeta p)) (v1.Name (v1.PodMeta p))
       = Some obj →
       volumemanager.MarkAsFileSystemResized (Some l) volumeName h resizeMap
       = (h', resizeMap', o) →
       (index (v1.Annotations (v1.PodMeta obj))
              (GetVolumeFsResizeAnnotation volumeName) = None →
        o = Returned None
        ∧ calls (volumemanager.kubeClient resizeMap')
          = calls (volumemanager.kubeClient resizeMap)
            ++ [(PodsGet (v1.Namespace (v1.PodMeta p))
                         (v1.Name (v1.PodMeta p)), None)])
       ∧ (is_Some (index (v1.Annotations (v1.PodMeta obj))
                         (GetVolumeFsResizeAnnotation volumeName)) →
          ∃ obj' verdict,
            calls (volumemanager.kubeClient resizeMap')
            = calls (volumemanager.kubeClient resizeMap)
              ++ [(PodsGet (v1.Namespace (v1.PodMeta p))
                           (v1.Name (v1.PodMeta p)), None);
                  (PodsUpdate obj', verdict)]
            ∧ (o = Returned None ↔ verdict = None)
            ∧ podKey obj' = podKey obj
            ∧ v1.UID (v1.PodMeta obj') = v1.UID (v1.PodMeta obj)
            ∧ v1.NodeName obj' = v1.NodeName obj
            ∧ v1.Status obj' = v1.Status obj
            ∧ ∀ key,
                index (v1.Annotations (v1.PodMeta obj')) key
                = if decide (key = GetVolumeFsResizeAnnotation volumeName)
                  then None
                  else index (v1.Annotations (v1.PodMeta obj)) key))
  ∧ (∀ pod volumeName h resizeMap h' resizeMap' o,
       volumemanager.MarkAsFileSystemResized pod volumeName h resizeMap
       = (h', resizeMap', o) →
       ∃ new,
         calls (volumemanager.kubeClient resizeMap')
         = calls (volumemanager.kubeClient resizeMap) ++ new
         ∧ ∀ q verdict, (PodsUpdate q, verdict) ∈ new →
             ∃ namespace name obj,
               new = [(PodsGet namespace name, None); (PodsUpdate q, verdict)]
               ∧ found (volumemanager.kubeClient resizeMap)
                       (calls (volumemanager.kubeClient resizeMap))
                       namespace name = Some obj
               ∧ is_Some (index (v1.Annotations (v1.PodMeta obj))
                                (GetVolumeFsResizeAnnotation volumeName))).
Proof.
  split; [done|]. split.
  - intros l p obj volumeName h resizeMap h' resizeMap' o Hp Hfault Hfound.
    unfold volumemanager.MarkAsFileSystemResized, clientPodsGet.
    rewrite Hp, Hfault, Hfound.
    destruct (DeepCopyPod obj h) as [podObj h1] eqn:Hcopy.
    apply DeepCopyPod_spec in Hcopy as [Hfresh ->]. simpl.
    rewrite lookup_insert_eq.
    destruct (v1.Annotations (v1.PodMeta obj)) as [a|] eqn:Hann; simpl.
    2: { intros [= <- <- <-]. split; [done|]. by intros [? [=]]. }
    destruct (a !! GetVolumeFsResizeAnnotation volumeName) as [value|] eqn:Hv.
    2: { intros [= <- <- <-]. split; [done|]. by intros [? [=]]. }
    set (verdict := faults _ _ _).
    intros Hres. split; [done|]. intros _.
    exists (withAnnotations obj
              (Some (delete (GetVolumeFsResizeAnnotation volumeName) a))),
      verdict.
    destruct verdict as [reason|] eqn:Hverdict; simpl in Hres;
      injection Hres as <- <- <-; simpl; rewrite <- app_assoc; simpl.
    + repeat split; try done.
      intros key. case_decide as Hkey; [subst; apply lookup_delete_eq|].
      by apply lookup_delete_ne.
    + repeat split; try done.
      intros key. case_decide as Hkey; [subst; apply lookup_delete_eq|].
      by apply lookup_delete_ne.
  - intros pod volumeName h resizeMap h' resizeMap' o.
    unfold volumemanager.MarkAsFileSystemResized, clientPodsGet.
    destruct pod as [l|].
    2: { intros [= <- <- <-]. exists []. rewrite app_nil_r. split; [done|].
         intros ?? Hin. inversion Hin. }
    destruct (Pods h !! l) as [p|].
    2: { intros [= <- <- <-]. exists []. rewrite app_nil_r. split; [done|].
         intros ?? Hin. inversion Hin. }
    destruct (faults _ _ (PodsGet _ _)) as [reason|].
    { intros [= <- <- <-]. eexists. split; [done|].
      intros ?? Hin. apply list_elem_of_singleton in Hin. done. }
    destruct (found _ _ _ _) as [obj|] eqn:Hfound.
    2: { intros [= <- <- <-]. eexists. split; [done|].
         intros ?? Hin. apply list_elem_of_singleton in Hin. done. }
    destruct (DeepCopyPod obj h) as [podObj h1] eqn:Hcopy.
    apply DeepCopyPod_spec in Hcopy as [Hfresh ->]. simpl.
    rewrite lookup_insert_eq.
    destruct (index _ _) as [value|] eqn:Hv.
    2: { intros [= <- <- <-]. eexists. split; [done|].
         intros ?? Hin. apply list_elem_of_singleton in Hin. done. }
    destruct (faults _ _ (PodsUpdate _)) as [reason|] eqn:Hverdict; simpl.
    + intros [= <- <- <-]. simpl. rewrite <- app_assoc. simpl.
      eexists. split; [done|]. intros q verdict Hin.
      apply elem_of_cons in Hin as [[=]|Hin].
      apply list_elem_of_singleton in Hin. injection Hin as <- <-.
      eexists _, _, obj. split; [done|]. split; [done|]. by rewrite Hv.
    + intros [= <- <- <-]. simpl. rewrite <- app_assoc. simpl.
      eexists. split; [done|]. intros q verdict Hin.
      apply elem_of_cons in Hin as [[=]|Hin].
      apply list_elem_of_singleton in Hin. injection Hin as <- <-.
      eexists _, _, obj. split; [done|]. split; [done|]. by rewrite Hv.
Qed.

End clearing.

(** ** The fan-out of the controller *)

Lemma length_0_empty (s : string) : String.length s = 0 ↔ s = "".
Proof. destruct s; simpl; split; done. Qed.

Lemma heapWithPods_frame (h : Heap) (cells : gmap loc v1.Pod) :
  PersistentVolumes (heapWithPods h cells) = PersistentVolumes h
  ∧ PersistentVolumeClaims (heapWithPods h cells) = PersistentVolumeClaims h.
Proof. done. Qed.

Section fanout.
Context `{VolumeHelper}.
Variable resizeMap : expand.volumeResizeMap.
Variables pvcName uniqueVolumeName : string.
Variable mountedNodes : gset string.

Abbreviation lister := (expand.podLister resizeMap).
Abbreviation marked obj := (expand.podHasMarkedForPVCResizing obj pvcName).
Abbreviation lookupPods :=
  (expand.lookupPods resizeMap pvcName uniqueVolumeName mountedNodes).

Lemma lookupPods_cons (pod : loc) (pods : list loc) (h : Heap)
    (M : gset string) (P : list loc) (p obj : v1.Pod) (cached : loc) :
  Pods h !! pod = Some p →
  lister !! podKey p = Some cached →
  Pods h !! cached = Some obj →
  lookupPods (pod :: pods) h M P
  = lookupPods pods (DeepCopyPod obj h).2
      (sortOut pvcName mountedNodes obj (DeepCopyPod obj h).1 M P).1
      (sortOut pvcName mountedNodes obj (DeepCopyPod obj h).1 M P).2.
Proof.
  intros Hp Hcached Hobj. simpl. rewrite Hp, Hcached, Hobj.
  unfold sortOut. destruct (DeepCopyPod obj h) as [podObj h1]. simpl.
  repeat case_decide; try done. by destruct (marked obj).
Qed.

Lemma sortOut_spec (obj : v1.Pod) (podObj : loc) (M : gset string)
    (P : list loc) :
  let M' := (sortOut pvcName mountedNodes obj podObj M P).1 in
  let P' := (sortOut pvcName mountedNodes obj podObj M P).2 in
  (∀ n, n ∈ M' ↔ n ∈ M ∨ (n = v1.NodeName obj ∧ eligible mountedNodes obj
                            ∧ marked obj = true))
  ∧ (P' = P
     ∧ (eligible mountedNodes obj → v1.NodeName obj ∈ M')
     ∨ P' = P ++ [podObj]
       ∧ eligible mountedNodes obj ∧ marked obj = false
       ∧ v1.NodeName obj ∉ M').
Proof.
  unfold sortOut, eligible.
  destruct (decide (String.length (v1.NodeName obj) = 0)) as [Hempty|Hsched];
    simpl.
  { apply length_0_empty in Hempty. split.
    - intros n. split; [by left|]. by intros [?|(_ & [? _] & _)].
    - left. split; [done|]. by intros [? _]. }
  rewrite length_0_empty in Hsched.
  destruct (decide (v1.NodeName obj ∉ mountedNodes)) as [Hnm|Hm]; simpl.
  { split.
    - intros n. split; [by left|]. by intros [?|(_ & [_ ?] & _)].
    - left. split; [done|]. by intros [_ ?]. }
  apply dec_stable in Hm.
  destruct (decide (v1.NodeName obj ∈ M)) as [HM|HM]; simpl.
  { split.
    - intros n. split; [by left|]. by intros [?|(-> & _)].
    - by left. }
  destruct (marked obj) eqn:Hmarked; simpl.
  - split.
    + intros n. rewrite elem_of_union, elem_of_singleton. split.
      * intros [->|?]; [by right|by left].
      * intros [?|(-> & _)]; [by right|by left].
    + left. split; [done|]. intros _. apply elem_of_union. left.
      by apply elem_of_singleton.
  - split.
    + intros n. split; [by left|]. by intros [?|(_ & _ & ?)].
    + by right.
Qed.

(** The first loop only allocates: what was on the heap stays, and the
    cells it hands to the second loop are new. *)
Lemma lookupPods_frame (pods : list loc) (h : Heap) (M : gset string)
    (P : list loc) (h' : Heap) (r : outcome + gset string * list loc) :
  lookupPods pods h M P = (h', r) →
  Pods h ⊆ Pods h'
  ∧ PersistentVolumes h' = PersistentVolumes h
  ∧ PersistentVolumeClaims h' = PersistentVolumeClaims h
  ∧ match r with
    | inl _ => True
    | inr (_, P') => ∃ new, P' = P ++ new ∧ Forall (λ c, Pods h !! c = None) new
    end.
Proof.
  revert h M P. induction pods as [|pod pods IH]; intros h M P.
  - simpl. intros [= <- <-]. repeat split; try done.
    exists []. by rewrite app_nil_r.
  - destruct (Pods h !! pod) as [p|] eqn:Hp.
    2: { simpl. rewrite Hp. by intros [= <- <-]. }
    destruct (lister !! podKey p) as [cached|] eqn:Hcached.
    2: { simpl. rewrite Hp, Hcached. by intros [= <- <-]. }
    destruct (Pods h !! cached) as [obj|] eqn:Hobj.
    2: { simpl. rewrite Hp, Hcached, Hobj. by intros [= <- <-]. }
    rewrite (lookupPods_cons _ _ _ _ _ _ _ _ Hp Hcached Hobj).
    destruct (DeepCopyPod obj h) as [podObj h1] eqn:Hcopy.
    apply DeepCopyPod_spec in Hcopy as [Hfresh ->]. simpl.
    intros Hrun. apply IH in Hrun as (Hsub & Hpv & Hpvc & Hr). simpl in *.
    assert (Pods h ⊆ Pods h') as Hsub'.
    { etrans; [|exact Hsub]. by apply insert_subseteq. }
    repeat split; try done.
    destruct r as [o|[M' P']]; [done|].
    destruct Hr as (new & -> & Hnew).
    assert (Forall (λ c, Pods h !! c = None) new) as Hnew'.
    { eapply Forall_impl; [exact Hnew|]. simpl. intros c Hc.
      eapply lookup_weaken_None; [exact Hc|]. by apply insert_subseteq. }
    destruct (sortOut_spec obj podObj M P) as [_ [[-> _]|(-> & _)]].
    + by exists new.
    + exists (podObj :: new). rewrite <- app_assoc. split; [done|].
      by constructor.
Qed.

Lemma observed_Some (h : Heap) (l cached : loc) (p obj : v1.Pod) :
  Pods h !! l = Some p → lister !! podKey p = Some cached →
  Pods h !! cached = Some obj → observed h lister l = Some obj.
Proof. intros Hp Hc Ho. unfold observed. by rewrite Hp, Hc. Qed.

(** The first loop on valid pointers.  It stops only at a pod that the
    lister does not find.  Otherwise it marks exactly the nodes of the
    eligible pods that carry the signal, and hands over copies of eligible
    pods without the signal, among them a copy of every eligible pod whose
    node it leaves unmarked. *)
Lemma lookupPods_spec (h0 : Heap) (pods : list loc) (h : Heap)
    (M : gset string) (P : list loc) (h' : Heap)
    (r : outcome + gset string * list loc) :
  Pods h0 ⊆ Pods h →
  validPointers h0 lister pods →
  lookupPods pods h M P = (h', r) →
  match r with
  | inl o =>
      (∃ l p, l ∈ pods ∧ Pods h0 !! l = Some p ∧ lister !! podKey p = None)
      ∧ ∃ e, o = Returned (Some e)
  | inr (M', P') =>
      (∀ l, l ∈ pods → is_Some (observed h0 lister l))
      ∧ (∀ n, n ∈ M' ↔
              n ∈ M ∨ ∃ l obj, l ∈ pods ∧ observed h0 lister l = Some obj
                               ∧ v1.NodeName obj = n
                               ∧ eligible mountedNodes obj
                               ∧ marked obj = true)
      ∧ ∃ new,
          P' = P ++ new
          ∧ Forall (λ c, ∃ l obj, l ∈ pods ∧ observed h0 lister l = Some obj
                                  ∧ Pods h' !! c = Some obj
                                  ∧ eligible mountedNodes obj
                                  ∧ marked obj = false) new
          ∧ (∀ l obj, l ∈ pods → observed h0 lister l = Some obj →
                      eligible mountedNodes obj → v1.NodeName obj ∉ M' →
                      ∃ c, c ∈ new ∧ Pods h' !! c = Some obj)
  end.
Proof.
  revert h M P. induction pods as [|pod pods IH]; intros h M P Hsub Hvalid.
  - simpl. intros [= <- <-]. split; [by intros l ?%elem_of_nil|]. split.
    + intros n. split; [by left|]. intros [?|(l & ? & ?%elem_of_nil & _)]; done.
    + exists []. rewrite app_nil_r. split; [done|]. split; [constructor|].
      by intros l obj ?%elem_of_nil.
  - destruct Hvalid as [Hpods Hlister].
    destruct (Hpods pod) as [p Hp0]; [by left|].
    assert (Pods h !! pod = Some p) as Hp by (by eapply lookup_weaken).
    destruct (lister !! podKey p) as [cached|] eqn:Hcached.
    2: { simpl. rewrite Hp, Hcached. intros [= <- <-]. split; [|by eexists].
         exists pod, p. split; [by left|done]. }
    destruct (Hlister _ _ Hcached) as [obj Hobj0].
    assert (Pods h !! cached = Some obj) as Hobj by (by eapply lookup_weaken).
    pose proof (observed_Some _ _ _ _ _ Hp0 Hcached Hobj0) as Hobs.
    rewrite (lookupPods_cons _ _ _ _ _ _ _ _ Hp Hcached Hobj).
    destruct (DeepCopyPod obj h) as [podObj h1] eqn:Hcopy.
    apply DeepCopyPod_spec in Hcopy as [Hfresh ->]. simpl.
    pose proof (sortOut_spec obj podObj M P) as [HM1 HP1]. simpl in HM1, HP1.
    destruct (sortOut pvcName mountedNodes obj podObj M P) as [M1 P1].
    simpl in *. intros Hrun.
    pose proof (lookupPods_frame _ _ _ _ _ _ Hrun) as (Hsub1 & _ & _ & _).
    apply IH in Hrun.
    2: { etrans; [exact Hsub|]. by apply insert_subseteq. }
    2: { split; [|done]. intros l Hl. apply Hpods. by right. }
    destruct r as [o|[M' P']].
    { destruct Hrun as [(l & q & Hl & Hq & Hnone) He]. split; [|done].
      exists l, q. split; [by right|done]. }
    destruct Hrun as (Hall & HM' & new & -> & Hnew & Hcover).
    split; [|split].
    + intros l [->|Hl]%elem_of_cons; [by rewrite Hobs|by apply Hall].
    + intros n. rewrite HM', HM1. split.
      * intros [[?|(-> & Hel & Hmk)]|(l & o & Hl & Ho & ?)].
        -- by left.
        -- right. exists pod, obj. split; [by left|done].
        -- right. exists l, o. split; [by right|done].
      * intros [?|(l & o & [->|Hl]%elem_of_cons & Ho & Hn & Hel & Hmk)].
        -- by left; left.
        -- rewrite Hobs in Ho. injection Ho as <-. left. right.
           by rewrite <- Hn.
        -- right. by exists l, o.
    + assert (Forall (λ c, ∃ l obj, l ∈ pod :: pods
                ∧ observed h0 lister l = Some obj ∧ Pods h' !! c = Some obj
                ∧ eligible mountedNodes obj ∧ marked obj = false) new)
        as Hnew'.
      { eapply Forall_impl; [exact Hnew|]. simpl.
        intros c (l & o & Hl & ?). exists l, o. split; [by right|done]. }
      assert (∀ n, n ∈ M1 → n ∈ M') as HM1M'.
      { intros n Hn. apply HM'. by left. }
      destruct HP1 as [[-> Hin]|(-> & Hel & Hmk & HnotM1)].
      * exists new. split; [done|]. split; [done|].
        intros l o [->|Hl]%elem_of_cons Ho Hel HnotM'.
        -- rewrite Hobs in Ho. injection Ho as <-.
           destruct HnotM'. by apply HM1M', Hin.
        -- by eapply Hcover.
      * exists (podObj :: new). rewrite <- app_assoc. split; [done|].
        assert (Pods h' !! podObj = Some obj) as Hcell.
        { eapply lookup_weaken; [|exact Hsub1]. simpl.
          apply lookup_insert_eq. }
        split.
        -- constructor; [|done]. exists pod, obj. split; [by left|done].
        -- intros l o [->|Hl]%elem_of_cons Ho Hel' HnotM'.
           ++ rewrite Hobs in Ho. injection Ho as <-.
              exists podObj. split; [by left|done].
           ++ destruct (Hcover l o Hl Ho Hel' HnotM') as (c & Hc & Hcc).
              exists c. split; [by right|done].
Qed.


Lemma annotated_NodeName (p : v1.Pod) :
  v1.NodeName (expand.annotated p pvcName) = v1.NodeName p.
Proof. done. Qed.

Lemma annotated_podKey (p : v1.Pod) :
  podKey (expand.annotated p pvcName) = podKey p.
Proof. done. Qed.

Lemma annotated_marked (p : v1.Pod) :
  marked (expand.annotated p pvcName) = true.
Proof.
  unfold expand.podHasMarkedForPVCResizing, expand.annotated. simpl.
  by rewrite lookup_insert_eq.
Qed.

(** The second loop edits only the cells it was handed. *)
Lemma markPods_frame (P : list loc) (h : Heap) (k : KubeClient)
    (M : gset string) (h' : Heap) (k' : KubeClient) (o : outcome) :
  expand.markPods pvcName P h k M = (h', k', o) →
  (∀ l, l ∉ P → Pods h' !! l = Pods h !! l)
  ∧ PersistentVolumes h' = PersistentVolumes h
  ∧ PersistentVolumeClaims h' = PersistentVolumeClaims h.
Proof.
  revert h k M. induction P as [|c P IH]; intros h k M; simpl.
  - by intros [= <- <- <-].
  - destruct (Pods h !! c) as [p|] eqn:Hp; [|by intros [= <- <- <-]].
    destruct (decide (v1.NodeName p ∈ M)) as [HM|HM].
    { intros Hrun. apply IH in Hrun as (Hcells & ? & ?).
      split; [|done]. intros l Hl. apply Hcells.
      intros ?. apply Hl. by right. }
    unfold expand.updatePodAnnotationForPVCResizing. rewrite Hp.
    unfold clientPodsUpdate, send.
    destruct (faults k (calls k) _) as [reason|]; simpl.
    + intros [= <- <- <-]. split; [|done]. intros l Hl. simpl.
      apply lookup_insert_ne. intros ->. apply Hl. by left.
    + intros Hrun. apply IH in Hrun as (Hcells & ? & ?).
      split; [|done]. intros l Hl. rewrite Hcells.
      * simpl. apply lookup_insert_ne. intros ->. apply Hl. by left.
      * intros ?. apply Hl. by right.
Qed.

(** The second loop on allocated cells.  It sends one update per node that
    is not marked, for the first pod of the node, and stops at the first
    update that the server turns down. *)
Lemma markPods_spec (P : list loc) (h : Heap) (k : KubeClient)
    (M : gset string) (h' : Heap) (k' : KubeClient) (o : outcome) :
  (∀ c, c ∈ P → is_Some (Pods h !! c)) →
  expand.markPods pvcName P h k M = (h', k', o) →
  ∃ sent : list (v1.Pod * option string),
    calls k' = calls k ++ asUpdates sent
    ∧ faults k' = faults k ∧ found k' = found k
    ∧ NoDup (v1.NodeName <$> sent.*1)
    ∧ Forall (λ x, ∃ c p, c ∈ P ∧ Pods h !! c = Some p
                          ∧ x.1 = expand.annotated p pvcName
                          ∧ v1.NodeName p ∉ M) sent
    ∧ match o with
      | Returned None =>
          Forall (λ x, x.2 = None) sent
          ∧ ∀ c p, c ∈ P → Pods h !! c = Some p →
                   v1.NodeName p ∈ M ∨ v1.NodeName p ∈ v1.NodeName <$> sent.*1
      | Returned (Some e) =>
          ∃ front q reason,
            sent = front ++ [(q, Some reason)]
            ∧ Forall (λ x, x.2 = None) front
            ∧ e = StatusError reason
      | Panicked => False
      end.
Proof.
  revert h k M. induction P as [|c P IH]; intros h k M Halloc; simpl.
  - intros [= <- <- <-]. exists []. unfold asUpdates. simpl.
    rewrite app_nil_r.
    split; [done|]. split; [done|]. split; [done|].
    split; [constructor|]. split; [constructor|]. split; [constructor|].
    by intros ?? ?%elem_of_nil.
  - destruct (Halloc c) as [p Hp]; [by left|]. rewrite Hp.
    destruct (decide (v1.NodeName p ∈ M)) as [HM|HM].
    { intros Hrun. apply IH in Hrun as (sent & Hcalls & ? & ? & Hnd & Hsent & Ho).
      2: { intros c' Hc'. apply Halloc. by right. }
      exists sent. repeat split; try done.
      - eapply Forall_impl; [exact Hsent|]. simpl.
        intros x (c' & p' & Hc' & ?). exists c', p'. split; [by right|done].
      - destruct o as [[e|]|]; try done. destruct Ho as [Hacc Hcover].
        split; [done|]. intros c' p' [->|Hc']%elem_of_cons Hp'.
        + rewrite Hp in Hp'. injection Hp' as <-. by left.
        + by eapply Hcover. }
    unfold expand.updatePodAnnotationForPVCResizing. rewrite Hp.
    unfold clientPodsUpdate, send.
    destruct (faults k (calls k) _) as [reason|] eqn:Hverdict; simpl.
    + intros [= <- <- <-].
      exists [(expand.annotated p pvcName, Some reason)].
      repeat split; try done.
      * simpl. apply NoDup_singleton.
      * constructor; [|constructor]. exists c, p. split; [by left|done].
      * exists [], (expand.annotated p pvcName), reason. by repeat split.
    + intros Hrun.
      apply IH in Hrun as (sent & Hcalls & ? & ? & Hnd & Hsent & Ho).
      2: { intros c' Hc'. simpl. destruct (decide (c = c')) as [->|Hne].
           - rewrite lookup_insert_eq. by eexists.
           - rewrite lookup_insert_ne by done. apply Halloc. by right. }
      simpl in Hcalls, Hsent, Ho.
      assert (Forall (λ x, ∃ c' p', c' ∈ P ∧ Pods h !! c' = Some p'
                ∧ x.1 = expand.annotated p' pvcName
                ∧ (v1.NodeName p' ∉ M)
                ∧ (v1.NodeName p' ≠ v1.NodeName p)) sent) as Hsent'.
      { eapply Forall_impl; [exact Hsent|]. simpl.
        intros x (c' & p' & Hc' & Hp' & Hx & Hn).
        apply not_elem_of_union in Hn as [Hn1%not_elem_of_singleton Hn2].
        destruct (decide (c = c')) as [->|Hne].
        { rewrite lookup_insert_eq in Hp'. injection Hp' as <-. done. }
        rewrite lookup_insert_ne in Hp' by done. by exists c', p'. }
      exists ((expand.annotated p pvcName, None) :: sent).
      split; [|split; [|split; [|split; [|split]]]]; try done.
      * rewrite Hcalls, <- app_assoc. done.
      * simpl. apply NoDup_cons. split; [|done].
        intros Hin. apply list_elem_of_fmap in Hin as (q & Hq & Hin).
        apply list_elem_of_fmap in Hin as (x & -> & Hin).
        rewrite Forall_forall in Hsent'.
        destruct (Hsent' x Hin) as (c' & p' & _ & _ & Hx & _ & Hne).
        rewrite Hx in Hq. done.
      * constructor.
        -- exists c, p. split; [by left|done].
        -- eapply Forall_impl; [exact Hsent'|]. simpl.
           intros x (c' & p' & Hc' & Hp' & Hx & Hn & _).
           exists c', p'. split; [by right|done].
      * destruct o as [[e|]|]; [| |done].
        -- destruct Ho as (front & q & reason & -> & Hfront & ->).
           exists ((expand.annotated p pvcName, None) :: front), q, reason.
           repeat split; try done. by constructor.
        -- destruct Ho as [Hacc Hcover]. split; [by constructor|].
           assert (∀ p', v1.NodeName p' = v1.NodeName p →
                     v1.NodeName p' ∈ M
                     ∨ v1.NodeName p'
                       ∈ v1.NodeName
                           <$> ((expand.annotated p pvcName, None) :: sent).*1)
             as Hhead.
           { intros p' ->. right. simpl. by left. }
           intros c' p' Hc' Hp'.
           destruct (decide (c' = c)) as [->|Hne].
           { rewrite Hp in Hp'. injection Hp' as <-. by apply Hhead. }
           apply elem_of_cons in Hc' as [->|Hc']; [done|].
           destruct (Hcover c' p' Hc') as [HinM|Hin].
           { by rewrite lookup_insert_ne. }
           ++ apply elem_of_union in HinM as [->%elem_of_singleton|?];
                [by apply Hhead|by left].
           ++ right. simpl. by right.
Qed.


Lemma asUpdates_accepted (sent : list (v1.Pod * option string)) (q : v1.Pod) :
  q ∈ acceptedUpdates (asUpdates sent) ↔ (q, None) ∈ sent.
Proof.
  unfold acceptedUpdates, asUpdates. rewrite list_elem_of_omap. split.
  - intros ([c verdict] & Hin & Hq).
    apply list_elem_of_fmap in Hin as ([q' v'] & [= -> ->] & Hin).
    simpl in Hq. destruct v'; [done|]. by injection Hq as ->.
  - intros Hin. exists (PodsUpdate q, None). split; [|done].
    apply list_elem_of_fmap. by exists (q, None).
Qed.

Lemma asUpdates_updatesIn (sent : list (v1.Pod * option string)) :
  updatesIn (asUpdates sent) = sent.*1.
Proof.
  induction sent as [|[q v] sent IH]; [done|].
  change (q :: updatesIn (asUpdates sent) = q :: sent.*1). by rewrite IH.
Qed.

Lemma NoDup_fmap_eq {A B} (f : A → B) (l : list A) (x y : A) :
  NoDup (f <$> l) → x ∈ l → y ∈ l → f x = f y → x = y.
Proof.
  induction l as [|a l IH]; simpl; [by intros _ ?%elem_of_nil|].
  intros [Ha Hnd]%NoDup_cons [->|Hx]%elem_of_cons [->|Hy]%elem_of_cons Hf.
  - done.
  - destruct Ha. rewrite Hf. apply list_elem_of_fmap. by exists y.
  - destruct Ha. rewrite <- Hf. apply list_elem_of_fmap. by exists x.
  - by apply IH.
Qed.

(** The whole call on valid pointers, in terms of the pods it sent for
    update and the verdicts it got. *)
Lemma MarkForFileSystemResize_spec (h h' : Heap)
    (resizeMap' : expand.volumeResizeMap) (o : outcome) :
  mountedNodes = mountedNodesOf resizeMap uniqueVolumeName →
  validPointers h lister
    (expand.podsInVolumeGetter resizeMap uniqueVolumeName) →
  expand.MarkForFileSystemResize pvcName uniqueVolumeName h resizeMap
  = (h', resizeMap', o) →
  ∃ sent : list (v1.Pod * option string),
    resizeMap'
    = expand.withKubeClient resizeMap (expand.kubeClient resizeMap')
    ∧ calls (expand.kubeClient resizeMap')
      = calls (expand.kubeClient resizeMap) ++ asUpdates sent
    ∧ NoDup (v1.NodeName <$> sent.*1)
    ∧ Forall
        (λ x, ∃ obj,
           listedOn h resizeMap uniqueVolumeName (v1.NodeName obj) obj
           ∧ x.1 = expand.annotated obj pvcName
           ∧ eligible mountedNodes obj
           ∧ ∀ obj', listedOn h resizeMap uniqueVolumeName
                       (v1.NodeName obj) obj' →
                     marked obj' = false) sent
    ∧ match o with
      | Returned None =>
          Forall (λ x, x.2 = None) sent
          ∧ ∀ obj, listedOn h resizeMap uniqueVolumeName (v1.NodeName obj) obj →
                   eligible mountedNodes obj →
                   (∃ obj', listedOn h resizeMap uniqueVolumeName
                              (v1.NodeName obj) obj'
                            ∧ marked obj' = true)
                   ∨ v1.NodeName obj ∈ v1.NodeName <$> sent.*1
      | Returned (Some e) =>
          sent = []
          ∧ (∃ l p, l ∈ expand.podsInVolumeGetter resizeMap uniqueVolumeName
                    ∧ Pods h !! l = Some p ∧ lister !! podKey p = None)
          ∨ ∃ front q reason,
              sent = front ++ [(q, Some reason)]
              ∧ Forall (λ x, x.2 = None) front
              ∧ e = StatusError reason
      | Panicked => False
      end.
Proof.
  intros Hmounted Hvalid. unfold expand.MarkForFileSystemResize.
  fold (mountedNodesOf resizeMap uniqueVolumeName). rewrite <- Hmounted.
  destruct (decide (length _ = 0)) as [Hnil|_].
  { apply nil_length_inv in Hnil. intros [= <- <- <-].
    exists []. unfold asUpdates. simpl. rewrite app_nil_r.
    split; [by destruct resizeMap|]. split; [done|].
    split; [constructor|]. split; [constructor|]. split; [constructor|].
    intros obj (l & Hl & _). rewrite Hnil in Hl. by apply elem_of_nil in Hl. }
  destruct (lookupPods _ h ∅ []) as [h1 r] eqn:Hfirst.
  pose proof (lookupPods_spec h _ _ _ _ _ _ (reflexivity _) Hvalid Hfirst)
    as Hspec.
  destruct r as [o1|[M' P']].
  { intros [= <- <- <-]. destruct Hspec as [Hfail [e ->]].
    exists []. unfold asUpdates. simpl. rewrite app_nil_r.
    split; [by destruct resizeMap|]. split; [done|].
    split; [constructor|]. split; [constructor|]. by left. }
  destruct Hspec as (Hall & HM' & new & HP' & Hnew & Hcover). simpl in HP'.
  subst P'.
  destruct (expand.markPods pvcName new h1 _ M') as [[h2 k2] o2] eqn:Hsecond.
  intros [= <- <- <-].
  apply markPods_spec in Hsecond as (sent & Hcalls & _ & _ & Hnd & Hsent & Ho).
  2: { intros c Hc. rewrite Forall_forall in Hnew.
       destruct (Hnew c Hc) as (l & obj & _ & _ & Hcell & _). by eexists. }
  assert (∀ n, n ∈ M' ↔ ∃ l obj,
            l ∈ expand.podsInVolumeGetter resizeMap uniqueVolumeName
            ∧ observed h lister l = Some obj ∧ v1.NodeName obj = n
            ∧ eligible mountedNodes obj ∧ marked obj = true) as HM.
  { intros n. rewrite HM'. split; [|by right].
    by intros [?%elem_of_empty|?]. }
  exists sent. split; [done|]. split; [done|]. split; [done|]. split.
  - apply Forall_forall. intros x Hx.
    destruct (proj1 (Forall_forall _ _) Hsent x Hx)
      as (c & p & Hc & Hp & Hx1 & HnotM).
    destruct (proj1 (Forall_forall _ _) Hnew c Hc)
      as (l & obj & Hl & Hobs & Hcell & Hel & Hmk).
    rewrite Hp in Hcell. injection Hcell as ->.
    exists obj. split; [by exists l|]. split; [done|]. split; [done|].
    intros obj' (l' & Hl' & Hobs' & Hn').
    destruct (marked obj') eqn:Hmk'; [|done]. destruct HnotM. apply HM.
    exists l', obj'. repeat split; try done; unfold eligible;
      rewrite Hn'; apply Hel.
  - destruct o2 as [[e|]|]; [|  |done].
    + by right.
    + destruct Ho as [Hacc Hcov]. split; [done|].
      intros obj (l & Hl & Hobs & _) Hel.
      destruct (decide (v1.NodeName obj ∈ M')) as [HinM|HnotM].
      * left. apply HM in HinM as (l' & obj' & Hl' & Hobs' & Hn' & _ & Hmk').
        exists obj'. split; [by exists l'|done].
      * destruct (Hcover l obj Hl Hobs Hel HnotM) as (c & Hc & Hcell).
        destruct (Hcov c obj Hc Hcell) as [?|?]; [done|by right].
Qed.


Lemma annotated_index (p : v1.Pod) (key : string) :
  index (v1.Annotations (v1.PodMeta (expand.annotated p pvcName))) key
  = if decide (key = GetVolumeFsResizeAnnotation pvcName) then Some "yes"
    else index (v1.Annotations (v1.PodMeta p)) key.
Proof.
  unfold expand.annotated. simpl. case_decide as Hkey.
  - subst. apply lookup_insert_eq.
  - rewrite lookup_insert_ne by done.
    destruct (v1.Annotations (v1.PodMeta p)); [done|apply lookup_empty].
Qed.

(** The first loop stops at the latest at a pod that the lister does not
    find, whatever the pointers. *)
Lemma lookupPods_fails (pods : list loc) (h : Heap) (M : gset string)
    (P : list loc) (h' : Heap) (r : outcome + gset string * list loc) :
  (∃ l p, l ∈ pods ∧ Pods h !! l = Some p ∧ lister !! podKey p = None) →
  lookupPods pods h M P = (h', r) →
  ∃ o, r = inl o ∧ o ≠ Returned None.
Proof.
  revert h M P. induction pods as [|pod pods IH]; intros h M P.
  { by intros (l & p & ?%elem_of_nil & _). }
  intros (l & p & Hl & Hp & Hnone).
  destruct (Pods h !! pod) as [p0|] eqn:Hp0.
  2: { simpl. rewrite Hp0. intros [= <- <-]. by eexists. }
  destruct (lister !! podKey p0) as [cached|] eqn:Hcached.
  2: { simpl. rewrite Hp0, Hcached. intros [= <- <-]. by eexists. }
  destruct (Pods h !! cached) as [obj|] eqn:Hobj.
  2: { simpl. rewrite Hp0, Hcached, Hobj. intros [= <- <-]. by eexists. }
  rewrite (lookupPods_cons _ _ _ _ _ _ _ _ Hp0 Hcached Hobj).
  destruct (DeepCopyPod obj h) as [podObj h1] eqn:Hcopy.
  apply DeepCopyPod_spec in Hcopy as [Hfresh ->]. simpl.
  apply IH. apply elem_of_cons in Hl as [->|Hl].
  { rewrite Hp0 in Hp. injection Hp as <-. by rewrite Hcached in Hnone. }
  exists l, p. split; [done|]. split; [|done]. simpl.
  eapply lookup_weaken; [exact Hp|]. by apply insert_subseteq.
Qed.


End fanout.

Lemma exchanges_app (k k' : KubeClient) (new : list (ApiCall * option string)) :
  calls k' = calls k ++ new → exchanges k k' = new.
Proof. intros Hcalls. unfold exchanges. rewrite Hcalls. apply drop_app_length. Qed.

(** C2, as the code has it.  On valid pointers, all that a call of
    [MarkForFileSystemResize] exchanges with the server are updates of
    pods that set the signal, at most one per node; no update goes to a
    node where a pod using the volume already carries the signal with
    value "yes"; and when the call returns nil, every node with an eligible
    pod has a pod that carries the signal at the end, exactly one if no pod
    of the node carried it before. *)
Theorem MarkForFileSystemResize_one_update_per_node `{VolumeHelper}
    (pvcName uniqueVolumeName : string) (h h' : Heap)
    (resizeMap resizeMap' : expand.volumeResizeMap) (o : outcome) :
  validPointers h (expand.podLister resizeMap)
    (expand.podsInVolumeGetter resizeMap uniqueVolumeName) →
  expand.MarkForFileSystemResize pvcName uniqueVolumeName h resizeMap
  = (h', resizeMap', o) →
  (∃ sent : list (v1.Pod * option string),
     calls (expand.kubeClient resizeMap')
     = calls (expand.kubeClient resizeMap) ++ asUpdates sent
     ∧ NoDup (v1.NodeName <$> sent.*1)
     ∧ ∀ q, q ∈ sent.*1 →
            expand.podHasMarkedForPVCResizing q pvcName = true)
  ∧ (∀ n obj q,
       listedOn h resizeMap uniqueVolumeName n obj →
       expand.podHasMarkedForPVCResizing obj pvcName = true →
       q ∈ updatesIn (exchanges (expand.kubeClient resizeMap)
                                (expand.kubeClient resizeMap')) →
       v1.NodeName q ≠ n)
  ∧ (o = Returned None →
     ∀ n obj,
       listedOn h resizeMap uniqueVolumeName n obj →
       eligible (mountedNodesOf resizeMap uniqueVolumeName) obj →
       (∃ obj',
          listedOn h resizeMap uniqueVolumeName n obj'
          ∧ carriesSignalAfter pvcName
              (exchanges (expand.kubeClient resizeMap)
                         (expand.kubeClient resizeMap')) obj')
       ∧ ((∀ obj', listedOn h resizeMap uniqueVolumeName n obj' →
                   expand.podHasMarkedForPVCResizing obj' pvcName = false) →
          exactlyOneCarrier h resizeMap pvcName uniqueVolumeName
            (exchanges (expand.kubeClient resizeMap)
                       (expand.kubeClient resizeMap')) n)).
Proof.
  intros Hvalid Hrun.
  destruct (MarkForFileSystemResize_spec resizeMap pvcName uniqueVolumeName
              _ h h' resizeMap' o eq_refl Hvalid Hrun)
    as (sent & _ & Hcalls & Hnd & Hsent & Ho).
  rewrite (exchanges_app _ _ _ Hcalls).
  rewrite Forall_forall in Hsent.
  split; [|split].
  - exists sent. split; [done|]. split; [done|].
    intros q (x & -> & Hx)%list_elem_of_fmap.
    destruct (Hsent x Hx) as (obj & _ & -> & _).
    apply annotated_marked.
  - intros n obj q Hlisted Hmarked Hq Hn. rewrite asUpdates_updatesIn in Hq.
    apply list_elem_of_fmap in Hq as (x & -> & Hx).
    destruct (Hsent x Hx) as (obj0 & _ & Hx1 & _ & Hnone).
    rewrite Hx1 in Hn. simpl in Hn. subst n.
    by rewrite (Hnone obj Hlisted) in Hmarked.
  - intros -> n obj Hlisted Hel. destruct Ho as [Hacc Hcover].
    rewrite Forall_forall in Hacc.
    assert (v1.NodeName obj = n) as Hn by (by destruct Hlisted as (? & ? & ? & ?)).
    subst n.
    assert (v1.NodeName obj ∈ v1.NodeName <$> sent.*1 →
            ∃ obj0, listedOn h resizeMap uniqueVolumeName (v1.NodeName obj) obj0
                    ∧ (expand.annotated obj0 pvcName, None) ∈ sent) as Hfrom.
    { intros (q & Hq & (x & -> & Hx)%list_elem_of_fmap)%list_elem_of_fmap.
      destruct (Hsent x Hx) as (obj0 & Hl0 & Hx1 & _).
      pose proof (Hacc x Hx) as Hx2. destruct x as [x1 x2]. simpl in *.
      subst x1 x2. exists obj0. split; [|done]. by rewrite Hq. }
    split.
    + destruct (Hcover obj Hlisted Hel) as [(obj' & Hl' & Hmk')|Hin].
      * exists obj'. split; [done|]. by left.
      * destruct (Hfrom Hin) as (obj0 & Hl0 & Hin0).
        exists obj0. split; [done|]. right. by apply asUpdates_accepted.
    + intros Hnone.
      destruct (Hcover obj Hlisted Hel) as [(obj' & Hl' & Hmk')|Hin].
      { by rewrite (Hnone obj' Hl') in Hmk'. }
      destruct (Hfrom Hin) as (obj0 & Hl0 & Hin0).
      exists obj0. split; [done|]. split.
      { right. by apply asUpdates_accepted. }
      intros obj' Hl' [Hmk'|Hacc'].
      { by rewrite (Hnone obj' Hl') in Hmk'. }
      apply asUpdates_accepted in Hacc'.
      assert (expand.annotated obj' pvcName = expand.annotated obj0 pvcName)
        as Heq.
      { eapply (NoDup_fmap_eq v1.NodeName sent.*1); [done| | |].
        - apply list_elem_of_fmap. by exists (expand.annotated obj' pvcName, None).
        - apply list_elem_of_fmap. by exists (expand.annotated obj0 pvcName, None).
        - destruct Hl' as (? & ? & ? & Hn'), Hl0 as (? & ? & ? & Hn0).
          simpl. by rewrite Hn', Hn0. }
      change (podKey (expand.annotated obj' pvcName)
              = podKey (expand.annotated obj0 pvcName)).
      by rewrite Heq.
Qed.

(** Membership in a list that is written out. *)
Ltac cases_of_list H :=
  repeat (apply elem_of_cons in H as [H|H]);
  [..|exfalso; apply elem_of_nil in H; exact H].

Ltac valid_pointers :=
  split;
  [ let Hl := fresh "Hl" in
    intros ? Hl; cbn in Hl; cases_of_list Hl; subst; vm_compute; by eexists
  | let Hk := fresh "Hk" in
    intros ?? Hk; apply elem_of_list_to_map_2 in Hk; cbn in Hk;
    cases_of_list Hk; injection Hk as -> ->; vm_compute; by eexists ].

Lemma surjective_run {A B C} (run : A * B * C) :
  run = (run.1.1, run.1.2, run.2).
Proof. by destruct run as [[??]?]. Defined.

Lemma MarkForFileSystemResize_one_update_per_node_witness :
  validPointers (heapOfPods noneMarked)
    (expand.podLister (controllerOf quietClient noneMarked))
    (expand.podsInVolumeGetter (controllerOf quietClient noneMarked) "vol")
  ∧ (fanOutOver quietClient noneMarked).2 = Returned None
  ∧ exactlyOneCarrier (H := exampleHelper) (heapOfPods noneMarked)
      (controllerOf quietClient noneMarked) "data" "vol"
      (exchanges quietClient
         (expand.kubeClient (fanOutOver quietClient noneMarked).1.2))
      "n1".
Proof.
  assert (validPointers (heapOfPods noneMarked)
            (expand.podLister (controllerOf quietClient noneMarked))
            (expand.podsInVolumeGetter (controllerOf quietClient noneMarked)
               "vol")) as Hvalid by valid_pointers.
  split; [exact Hvalid|]. split; [by vm_compute|].
  pose proof (MarkForFileSystemResize_one_update_per_node (H := exampleHelper)
                "data" "vol" _ _ _ _ _ Hvalid
                (surjective_run (fanOutOver quietClient noneMarked)))
    as (_ & _ & Hthird).
  apply (Hthird eq_refl "n1" (examplePod "pod-x" "n1" "Running" None)).
  - exists 1%positive. split; [by left|]. by vm_compute.
  - split; [done|]. by vm_compute.
  - intros obj' (l & Hl & Hobs & _). cbn in Hl. cases_of_list Hl; subst l;
      vm_compute in Hobs; injection Hobs as <-; by vm_compute.
Defined.

(** C2, as the claim has it, fails on two runs.  On a node whose two pods
    both carry the signal before the call, both carry it after the call,
    which returns nil.  And on a node whose pods do not carry it, no pod
    carries it after a call whose update the server turns down.  In both
    runs the node has an eligible pod. *)
Lemma MarkForFileSystemResize_not_exactly_one :
  ((fanOutOver quietClient bothMarked).2 = Returned None
   ∧ (∃ obj, listedOn (heapOfPods bothMarked)
               (controllerOf quietClient bothMarked) "vol" "n1" obj
             ∧ eligible (mountedNodesOf (controllerOf quietClient bothMarked)
                           "vol") obj)
   ∧ ¬ exactlyOneCarrier (H := exampleHelper) (heapOfPods bothMarked)
         (controllerOf quietClient bothMarked) "data" "vol"
         (exchanges quietClient
            (expand.kubeClient (fanOutOver quietClient bothMarked).1.2))
         "n1")
  ∧ ((∃ obj, listedOn (heapOfPods noneMarked)
               (controllerOf refusingClient noneMarked) "vol" "n1" obj
             ∧ eligible (mountedNodesOf (controllerOf refusingClient noneMarked)
                           "vol") obj)
     ∧ ¬ exactlyOneCarrier (H := exampleHelper) (heapOfPods noneMarked)
           (controllerOf refusingClient noneMarked) "data" "vol"
           (exchanges refusingClient
              (expand.kubeClient (fanOutOver refusingClient noneMarked).1.2))
           "n1").
Proof.
  split; [split; [by vm_compute|split]|split].
  - exists (examplePod "pod-x" "n1" "Running" (signal "yes")). split.
    + exists 1%positive. split; [by left|]. by vm_compute.
    + split; [done|]. by vm_compute.
  - intros (obj & _ & _ & Honly).
    assert (podKey (examplePod "pod-x" "n1" "Running" (signal "yes"))
            = podKey obj) as Hx.
    { apply Honly.
      - exists 1%positive. split; [by left|]. by vm_compute.
      - left. by vm_compute. }
    assert (podKey (examplePod "pod-y" "n1" "Running" (signal "yes"))
            = podKey obj) as Hy.
    { apply Honly.
      - exists 2%positive. split; [by right; left|]. by vm_compute.
      - left. by vm_compute. }
    rewrite <- Hy in Hx. by vm_compute in Hx.
  - exists (examplePod "pod-x" "n1" "Running" None). split.
    + exists 1%positive. split; [by left|]. by vm_compute.
    + split; [done|]. by vm_compute.
  - intros (obj & (l & Hl & Hobs & _) & [Hmarked|Haccepted] & _).
    + cbn in Hl. cases_of_list Hl; subst l; vm_compute in Hobs;
        injection Hobs as <-; by vm_compute in Hmarked.
    + vm_compute in Haccepted. by apply elem_of_nil in Haccepted.
Qed.

Lemma exchanges_same (k : KubeClient) : exchanges k k = [].
Proof. unfold exchanges. by apply drop_all. Qed.

(** C8.  The lookups of the first loop are all done when the second loop
    sends its first update: a call that exchanges anything with the server
    found every pod in the lister.  When the lister does not find some pod
    that uses the volume, the call ends without returning nil, on valid
    pointers with an error, and it leaves the struct as it was: nothing
    was sent to the server. *)
Theorem MarkForFileSystemResize_lookup_error_writes_nothing `{VolumeHelper}
    (pvcName uniqueVolumeName : string) (h h' : Heap)
    (resizeMap resizeMap' : expand.volumeResizeMap) (o : outcome) :
  expand.MarkForFileSystemResize pvcName uniqueVolumeName h resizeMap
  = (h', resizeMap', o) →
  ((∃ l p, l ∈ expand.podsInVolumeGetter resizeMap uniqueVolumeName
           ∧ Pods h !! l = Some p
           ∧ expand.podLister resizeMap !! podKey p = None) →
   resizeMap' = resizeMap
   ∧ exchanges (expand.kubeClient resizeMap) (expand.kubeClient resizeMap')
     = []
   ∧ o ≠ Returned None
   ∧ (validPointers h (expand.podLister resizeMap)
        (expand.podsInVolumeGetter resizeMap uniqueVolumeName) →
      ∃ e, o = Returned (Some e)))
  ∧ (exchanges (expand.kubeClient resizeMap) (expand.kubeClient resizeMap')
     ≠ [] →
     ∀ l p, l ∈ expand.podsInVolumeGetter resizeMap uniqueVolumeName →
            Pods h !! l = Some p →
            is_Some (expand.podLister resizeMap !! podKey p)).
Proof.
  intros Hrun.
  assert ((∃ l p, l ∈ expand.podsInVolumeGetter resizeMap uniqueVolumeName
                  ∧ Pods h !! l = Some p
                  ∧ expand.podLister resizeMap !! podKey p = None) →
          resizeMap' = resizeMap
          ∧ exchanges (expand.kubeClient resizeMap)
                      (expand.kubeClient resizeMap') = []
          ∧ o ≠ Returned None
          ∧ (validPointers h (expand.podLister resizeMap)
               (expand.podsInVolumeGetter resizeMap uniqueVolumeName) →
             ∃ e, o = Returned (Some e))) as Hfails.
  { intros Hfail. revert Hrun. unfold expand.MarkForFileSystemResize.
    destruct (decide (length _ = 0)) as [Hnil|_].
    { apply nil_length_inv in Hnil. rewrite Hnil in Hfail.
      by destruct Hfail as (l & p & ?%elem_of_nil & _). }
    destruct (expand.lookupPods _ _ _ _ _ h ∅ []) as [h1 r] eqn:Hfirst.
    destruct (lookupPods_fails _ _ _ _ _ _ _ _ _ _ Hfail Hfirst)
      as (o1 & -> & Ho1).
    intros [= <- <- <-]. split; [done|]. split; [apply exchanges_same|].
    split; [done|]. intros Hvalid.
    by destruct (lookupPods_spec _ _ _ _ h _ _ _ _ _ _ (reflexivity _)
                   Hvalid Hfirst) as [_ ?]. }
  split; [done|]. intros Hsent l p Hl Hp.
  destruct (expand.podLister resizeMap !! podKey p) eqn:Hlookup; [done|].
  destruct Hfails as (_ & Hnone & _); [by exists l, p|]. done.
Qed.

Lemma MarkForFileSystemResize_lookup_error_writes_nothing_witness :
  (∃ l p,
     l ∈ expand.podsInVolumeGetter
           (withoutPod "pod-y" (controllerOf quietClient noneMarked)) "vol"
     ∧ Pods (heapOfPods noneMarked) !! l = Some p
     ∧ expand.podLister
         (withoutPod "pod-y" (controllerOf quietClient noneMarked))
       !! podKey p = None)
  ∧ (@expand.MarkForFileSystemResize exampleHelper "data" "vol"
       (heapOfPods noneMarked)
       (withoutPod "pod-y" (controllerOf quietClient noneMarked))).1.2
    = withoutPod "pod-y" (controllerOf quietClient noneMarked)
  ∧ (@expand.MarkForFileSystemResize exampleHelper "data" "vol"
       (heapOfPods noneMarked)
       (withoutPod "pod-y" (controllerOf quietClient noneMarked))).2
    ≠ Returned None.
Proof.
  assert (∃ l p,
     l ∈ expand.podsInVolumeGetter
           (withoutPod "pod-y" (controllerOf quietClient noneMarked)) "vol"
     ∧ Pods (heapOfPods noneMarked) !! l = Some p
     ∧ expand.podLister
         (withoutPod "pod-y" (controllerOf quietClient noneMarked))
       !! podKey p = None) as Hfail.
  { exists 2%positive, (examplePod "pod-y" "n1" "Running" None).
    split; [by right; left|]. split; by vm_compute. }
  split; [exact Hfail|].
  destruct (MarkForFileSystemResize_lookup_error_writes_nothing
              (H := exampleHelper) "data" "vol" _ _ _ _ _
              (surjective_run
                 (@expand.MarkForFileSystemResize exampleHelper "data" "vol"
                    (heapOfPods noneMarked)
                    (withoutPod "pod-y" (controllerOf quietClient noneMarked)))))
    as [Hfirst _].
  destruct (Hfirst Hfail) as (Hsame & _ & Herr & _). by split.
Defined.

(** C10.  A pod that uses the volume and whose annotation for it holds a
    value other than "yes" is not taken for marked.  It does not keep its
    node from being served: when no pod of the node holds "yes" and the
    pod is eligible, a call that returns nil had an update accepted for a
    pod of that node.  Every pod that a call sends for update is a pod
    that uses the volume with the annotation set to "yes" and every other
    annotation as it was; and when the pod is the only one of its node,
    it is the one sent. *)
Theorem other_value_is_unmarked_and_overwritten `{VolumeHelper}
    (pvcName uniqueVolumeName : string) (h h' : Heap)
    (resizeMap resizeMap' : expand.volumeResizeMap) (o : outcome)
    (n : string) (obj : v1.Pod) (value : string) :
  validPointers h (expand.podLister resizeMap)
    (expand.podsInVolumeGetter resizeMap uniqueVolumeName) →
  expand.MarkForFileSystemResize pvcName uniqueVolumeName h resizeMap
  = (h', resizeMap', o) →
  listedOn h resizeMap uniqueVolumeName n obj →
  index (v1.Annotations (v1.PodMeta obj)) (GetVolumeFsResizeAnnotation pvcName)
  = Some value →
  value ≠ "yes" →
  expand.podHasMarkedForPVCResizing obj pvcName = false
  ∧ (o = Returned None →
     eligible (mountedNodesOf resizeMap uniqueVolumeName) obj →
     (∀ obj', listedOn h resizeMap uniqueVolumeName n obj' →
              index (v1.Annotations (v1.PodMeta obj'))
                    (GetVolumeFsResizeAnnotation pvcName) ≠ Some "yes") →
     ∃ obj0,
       listedOn h resizeMap uniqueVolumeName n obj0
       ∧ (PodsUpdate (expand.annotated obj0 pvcName), None)
         ∈ exchanges (expand.kubeClient resizeMap)
                     (expand.kubeClient resizeMap')
       ∧ ((∀ obj', listedOn h resizeMap uniqueVolumeName n obj' → obj' = obj) →
          obj0 = obj))
  ∧ (∀ q, q ∈ updatesIn (exchanges (expand.kubeClient resizeMap)
                                   (expand.kubeClient resizeMap')) →
          ∃ obj0,
            listedOn h resizeMap uniqueVolumeName (v1.NodeName q) obj0
            ∧ q = expand.annotated obj0 pvcName
            ∧ ∀ key,
                index (v1.Annotations (v1.PodMeta q)) key
                = if decide (key = GetVolumeFsResizeAnnotation pvcName)
                  then Some "yes"
                  else index (v1.Annotations (v1.PodMeta obj0)) key).
Proof.
  intros Hvalid Hrun Hlisted Hvalue Hne.
  destruct (MarkForFileSystemResize_spec resizeMap pvcName uniqueVolumeName
              _ h h' resizeMap' o eq_refl Hvalid Hrun)
    as (sent & _ & Hcalls & Hnd & Hsent & Ho).
  rewrite (exchanges_app _ _ _ Hcalls).
  rewrite Forall_forall in Hsent.
  assert (∀ obj', index (v1.Annotations (v1.PodMeta obj'))
                        (GetVolumeFsResizeAnnotation pvcName) ≠ Some "yes" →
                  expand.podHasMarkedForPVCResizing obj' pvcName = false)
    as Hunmarked.
  { intros obj' Hnot.
    destruct (expand.podHasMarkedForPVCResizing obj' pvcName) eqn:Hmk; [|done].
    by apply podHasMarkedForPVCResizing_true in Hmk. }
  split; [|split].
  - apply Hunmarked. rewrite Hvalue. by intros [= ->].
  - intros -> Hel Hnone. destruct Ho as [Hacc Hcover].
    rewrite Forall_forall in Hacc.
    assert (v1.NodeName obj = n) as Hn by (by destruct Hlisted as (? & ? & ? & ?)).
    subst n.
    destruct (Hcover obj Hlisted Hel) as [(obj' & Hl' & Hmk')|Hin].
    { by rewrite (Hunmarked obj' (Hnone obj' Hl')) in Hmk'. }
    apply list_elem_of_fmap in Hin as (q & Hq & Hin).
    apply list_elem_of_fmap in Hin as (x & -> & Hx).
    destruct (Hsent x Hx) as (obj0 & Hl0 & Hx1 & _).
    pose proof (Hacc x Hx) as Hx2. destruct x as [x1 x2]. simpl in *.
    subst x1 x2. exists obj0. rewrite Hq. split; [done|]. split.
    + apply list_elem_of_fmap.
      by exists (expand.annotated obj0 pvcName, None).
    + intros Honly. by apply Honly.
  - intros q Hq. rewrite asUpdates_updatesIn in Hq.
    apply list_elem_of_fmap in Hq as (x & -> & Hx).
    destruct (Hsent x Hx) as (obj0 & Hl0 & Hx1 & _).
    exists obj0. rewrite Hx1. split; [done|]. split; [done|].
    apply annotated_index.
Qed.

Lemma other_value_is_unmarked_and_overwritten_witness :
  validPointers (heapOfPods oddlyMarked)
    (expand.podLister (controllerOf quietClient oddlyMarked))
    (expand.podsInVolumeGetter (controllerOf quietClient oddlyMarked) "vol")
  ∧ index (v1.Annotations
             (v1.PodMeta (examplePod "pod-x" "n1" "Running" (signal "no"))))
          (@GetVolumeFsResizeAnnotation exampleHelper "data") = Some "no"
  ∧ @expand.podHasMarkedForPVCResizing exampleHelper
      (examplePod "pod-x" "n1" "Running" (signal "no")) "data" = false
  ∧ (PodsUpdate (@expand.annotated exampleHelper
                   (examplePod "pod-x" "n1" "Running" (signal "no")) "data"),
     None)
    ∈ exchanges quietClient
        (expand.kubeClient (fanOutOver quietClient oddlyMarked).1.2).
Proof.
  assert (validPointers (heapOfPods oddlyMarked)
            (expand.podLister (controllerOf quietClient oddlyMarked))
            (expand.podsInVolumeGetter (controllerOf quietClient oddlyMarked)
               "vol")) as Hvalid by valid_pointers.
  assert (listedOn (heapOfPods oddlyMarked)
            (controllerOf quietClient oddlyMarked) "vol" "n1"
            (examplePod "pod-x" "n1" "Running" (signal "no"))) as Hlisted.
  { exists 1%positive. split; [by left|]. by vm_compute. }
  assert (∀ obj', listedOn (heapOfPods oddlyMarked)
                    (controllerOf quietClient oddlyMarked) "vol" "n1" obj' →
                  obj' = examplePod "pod-x" "n1" "Running" (signal "no"))
    as Honly.
  { intros obj' (l & Hl & Hobs & _). cbn in Hl. cases_of_list Hl. subst l.
    vm_compute in Hobs. by injection Hobs as <-. }
  split; [exact Hvalid|]. split; [by vm_compute|].
  destruct (other_value_is_unmarked_and_overwritten (H := exampleHelper)
              "data" "vol" _ _ _ _ _ "n1" _ "no" Hvalid
              (surjective_run (fanOutOver quietClient oddlyMarked)) Hlisted)
    as (Hunmarked & Hserved & _); [by vm_compute|done|].
  split; [exact Hunmarked|].
  destruct Hserved as (obj0 & _ & Hin & Hsame).
  - by vm_compute.
  - split; [done|]. by vm_compute.
  - intros obj' Hl'. rewrite (Honly obj' Hl'). by vm_compute.
  - by rewrite <- (Hsame Honly).
Defined.

(** ** Copies, not originals *)

(** C7.  Whatever [UpdatePVSize], [MarkAsResized] and
    [MarkForFileSystemResize] do, and however they end, every object that
    was on the heap before the call is on the heap after it, at the same
    address and equal in every field: the volume whose capacity is
    rewritten, the claim whose status is rewritten and the pods that are
    annotated are new cells.  The requests held in the cache are left as
    they were as well. *)
Theorem mutations_are_made_on_copies `{Json} `{VolumeHelper} :
  (∀ pvcr newSize h resizeMap h' resizeMap' o,
     expand.UpdatePVSize pvcr newSize h resizeMap = (h', resizeMap', o) →
     PersistentVolumes h ⊆ PersistentVolumes h'
     ∧ PersistentVolumeClaims h' = PersistentVolumeClaims h
     ∧ Pods h' = Pods h
     ∧ expand.pvcrs resizeMap' = expand.pvcrs resizeMap)
  ∧ (∀ pvcr newSize h resizeMap h' resizeMap' o,
       expand.MarkAsResized pvcr newSize h resizeMap = (h', resizeMap', o) →
       PersistentVolumeClaims h ⊆ PersistentVolumeClaims h'
       ∧ PersistentVolumes h' = PersistentVolumes h
       ∧ Pods h' = Pods h
       ∧ expand.pvcrs resizeMap' = expand.pvcrs resizeMap)
  ∧ (∀ pvcName uniqueVolumeName h resizeMap h' resizeMap' o,
       expand.MarkForFileSystemResize pvcName uniqueVolumeName h resizeMap
       = (h', resizeMap', o) →
       Pods h ⊆ Pods h'
       ∧ PersistentVolumes h' = PersistentVolumes h
       ∧ PersistentVolumeClaims h' = PersistentVolumeClaims h
       ∧ expand.pvcrs resizeMap' = expand.pvcrs resizeMap).
Proof.
  split; [|split].
  - intros pvcr newSize h resizeMap h' resizeMap' o.
    unfold expand.UpdatePVSize.
    destruct (PersistentVolumes h !! _) as [oldPv|] eqn:Hold.
    2: { by intros [= <- <- <-]. }
    unfold DeepCopyPV, alloc.
    set (pvClone := fresh (dom (PersistentVolumes h))).
    assert (PersistentVolumes h !! pvClone = None) as Hfresh.
    { apply not_elem_of_dom, is_fresh. }
    destruct (Marshal oldPv) as [oldData|err].
    2: { intros [= <- <- <-]. repeat split; try done. simpl.
         by apply insert_subseteq. }
    destruct (expand.assign _ _ _) as [capacity|].
    2: { intros [= <- <- <-]. repeat split; try done. simpl.
         by apply insert_subseteq. }
    assert (PersistentVolumes h
            ⊆ <[pvClone := expand.withSpecCapacity oldPv capacity]>
                (<[pvClone := oldPv]> (PersistentVolumes h))) as Hsub.
    { rewrite insert_insert_eq. by apply insert_subseteq. }
    destruct (Marshal _) as [newData|err].
    2: { by intros [= <- <- <-]. }
    destruct (CreateTwoWayMergePatch _ _ _) as [patchBytes|err].
    2: { by intros [= <- <- <-]. }
    by intros [= <- <- <-].
  - intros pvcr newSize h resizeMap h' resizeMap' o.
    unfold expand.MarkAsResized, expand.updatePVCCapacityAndConditions.
    destruct (PersistentVolumeClaims h !! _) as [c|] eqn:Hc.
    2: { by intros [= <- <- <-]. }
    unfold DeepCopyPVC, alloc.
    set (claimClone := fresh (dom (PersistentVolumeClaims h))).
    assert (PersistentVolumeClaims h !! claimClone = None) as Hfresh.
    { apply not_elem_of_dom, is_fresh. }
    destruct (expand.assign _ _ _) as [capacity|].
    2: { intros [= <- <- <-]. repeat split; try done. simpl.
         by apply insert_subseteq. }
    simpl.
    assert (PersistentVolumeClaims h
            ⊆ <[claimClone := expand.withStatus c capacity []]>
                (<[claimClone := c]> (PersistentVolumeClaims h))) as Hsub.
    { rewrite insert_insert_eq. by apply insert_subseteq. }
    destruct (faults _ _ _); by intros [= <- <- <-].
  - intros pvcName uniqueVolumeName h resizeMap h' resizeMap' o.
    unfold expand.MarkForFileSystemResize.
    destruct (decide (length _ = 0)) as [_|_]; [by intros [= <- <- <-]|].
    destruct (expand.lookupPods _ _ _ _ _ h ∅ []) as [h1 r] eqn:Hfirst.
    apply lookupPods_frame in Hfirst as (Hsub & Hpv & Hpvc & Hr).
    destruct r as [o1|[M' P']]; [by intros [= <- <- <-]|].
    destruct Hr as (new & HP' & Hnew). simpl in HP'. subst P'.
    destruct (expand.markPods _ _ _ _ _) as [[h2 k2] o2] eqn:Hsecond.
    apply markPods_frame in Hsecond as (Hcells & Hpv2 & Hpvc2).
    intros [= <- <- <-]. split; [|split; [congruence|split; [congruence|done]]].
    apply map_subseteq_spec. intros l x Hl. rewrite Hcells.
    + by eapply lookup_weaken.
    + intros Hin. rewrite Forall_forall in Hnew.
      by rewrite (Hnew l Hin) in Hl.
Qed.

(** ** The populator *)

Section populating.
Context `{VolumeHelper}.
Variable populator : populator.volumeFsResizeMapPopulator.

#[local] Instance wantedBy_dec (p : v1.Pod) (podName volumeName : string) :
  Decision (wantedBy populator p podName volumeName).
Proof. unfold wantedBy. apply _. Defined.

Lemma wanted_dec (h : Heap) (pods : list loc) (podName volumeName : string) :
  Decision (wanted populator h pods podName volumeName).
Proof.
  assert (∀ l, Decision
            (from_option (λ p, wantedBy populator p podName volumeName) False
                         (Pods h !! l))) as Hdec.
  { intros l. destruct (Pods h !! l); simpl; apply _. }
  destruct (Exists_dec _ (dec := Hdec) pods) as [Hyes|Hno]; [left|right].
  - apply Exists_exists in Hyes as (l & Hl & Hw).
    destruct (Pods h !! l) as [p|] eqn:Hp; [|done]. by exists l, p.
  - intros (l & p & Hl & Hp & Hw). apply Hno, Exists_exists.
    exists l. split; [done|]. by rewrite Hp.
Defined.

Lemma AddVolumeForPod_spec (volumeName : string) (l : loc) (h : Heap)
    (resizeMap : volumemanager.volumeFsResizeMap) (p : v1.Pod) :
  Pods h !! l = Some p →
  ∃ resizeMap',
    volumemanager.AddVolumeForPod volumeName l h resizeMap
    = (resizeMap', Returned None)
    ∧ volumemanager.kubeClient resizeMap' = volumemanager.kubeClient resizeMap
    ∧ ∀ podName' volumeName',
        pending resizeMap' podName' volumeName'
        = if decide (podName' = GetUniquePodName p ∧ volumeName' = volumeName)
          then Some {| volumemanager.Pod := l;
                       volumemanager.VolumeName := volumeName |}
          else pending resizeMap podName' volumeName'.
Proof.
  intros Hp. unfold volumemanager.AddVolumeForPod. rewrite Hp.
  eexists. split; [done|]. split; [done|].
  intros podName' volumeName'. unfold pending. simpl.
  destruct (decide (podName' = GetUniquePodName p)) as [->|Hpod].
  - rewrite lookup_insert_eq.
    destruct (decide (volumeName' = volumeName)) as [->|Hvol].
    + rewrite lookup_insert_eq. by rewrite decide_True.
    + rewrite lookup_insert_ne by done.
      rewrite decide_False by (by intros [_ ?]).
      destruct (volumemanager.pods resizeMap !! _); [done|apply lookup_empty].
  - rewrite lookup_insert_ne by done. by rewrite decide_False by (by intros [? _]).
Qed.

(** The loop over the annotations of a pod: every entry with a handshake
    key and the value "yes" puts a new copy of the pod into the cache,
    under the pod and the name that the key decodes to; the rest of the
    cache stays. *)
Lemma rangeAnnotations_spec (p : v1.Pod) (annotations : list (string * string))
    (h : Heap) (resizeMap : volumemanager.volumeFsResizeMap)
    (h' : Heap) (resizeMap' : volumemanager.volumeFsResizeMap) (o : outcome) :
  populator.rangeAnnotations p annotations h resizeMap = (h', resizeMap', o) →
  o = Returned None
  ∧ Pods h ⊆ Pods h'
  ∧ PersistentVolumes h' = PersistentVolumes h
  ∧ PersistentVolumeClaims h' = PersistentVolumeClaims h
  ∧ volumemanager.kubeClient resizeMap' = volumemanager.kubeClient resizeMap
  ∧ ∀ podName volumeName,
      (podName = GetUniquePodName p
       ∧ (GetVolumeFsResizeAnnotation volumeName, "yes") ∈ annotations →
       ∃ e, pending resizeMap' podName volumeName = Some e
            ∧ volumemanager.VolumeName e = volumeName
            ∧ Pods h !! volumemanager.Pod e = None
            ∧ Pods h' !! volumemanager.Pod e = Some p)
      ∧ (¬ (podName = GetUniquePodName p
            ∧ (GetVolumeFsResizeAnnotation volumeName, "yes") ∈ annotations) →
         pending resizeMap' podName volumeName
         = pending resizeMap podName volumeName).
Proof.
  revert h resizeMap.
  induction annotations as [|[key value] annotations IH]; intros h resizeMap.
  { simpl. intros [= <- <- <-]. repeat split; try done.
    by intros [_ ?%elem_of_nil]. }
  cbn [populator.rangeAnnotations].
  destruct (IsVolumeFsResizeAnnotation key && bool_decide (value = "yes"))
    eqn:Htest.
  - apply andb_true_iff in Htest as [Hkey Hvalue].
    apply IsVolumeFsResizeAnnotation_true in Hkey.
    apply bool_decide_eq_true in Hvalue. subst value.
    set (name := GetVolumeUniqueNameFromFsResizeAnnotation key) in *.
    destruct (DeepCopyPod p h) as [copy h1] eqn:Hcopy.
    apply DeepCopyPod_spec in Hcopy as [Hfresh ->].
    destruct (AddVolumeForPod_spec name copy
                (heapWithPods h (<[copy := p]> (Pods h))) resizeMap p)
      as (resizeMap1 & -> & Hclient1 & Hpending1).
    { simpl. apply lookup_insert_eq. }
    intros Hrun. apply IH in Hrun
      as (-> & Hsub & Hpv & Hpvc & Hclient & Hcache). simpl in *.
    assert (Pods h ⊆ <[copy := p]> (Pods h)) as Hsub1
      by (by apply insert_subseteq).
    split; [done|]. split; [by etrans|]. split; [done|]. split; [done|].
    split; [congruence|].
    intros podName volumeName.
    destruct (Hcache podName volumeName) as [Hlater Hnot].
    destruct (decide (podName = GetUniquePodName p
                      ∧ (GetVolumeFsResizeAnnotation volumeName, "yes")
                        ∈ annotations)) as [Hin|Hout].
    + split.
      * intros _. destruct (Hlater Hin) as (e & He & Hname & Hnew & Hcell).
        exists e. repeat split; try done. by eapply lookup_weaken_None.
      * intros Hno. destruct Hno. destruct Hin as [Hpod Hin].
        split; [done|]. by right.
    + rewrite (Hnot Hout), Hpending1. split.
      * intros [-> [Hhead|Htail]%elem_of_cons]; [|by destruct Hout].
        injection Hhead as Hhead. rewrite Hkey in Hhead.
        apply GetVolumeFsResizeAnnotation_inj in Hhead. subst volumeName.
        rewrite decide_True by done. eexists. repeat split; try done.
        simpl. eapply lookup_weaken; [|exact Hsub]. apply lookup_insert_eq.
      * intros Hneither. rewrite decide_False; [done|].
        intros [-> ->]. apply Hneither. split; [done|].
        rewrite <- Hkey. by left.
  - intros Hrun. apply IH in Hrun
      as (-> & Hsub & Hpv & Hpvc & Hclient & Hcache).
    repeat split; try done.
    + intros [-> [Hhead|Htail]%elem_of_cons].
      * injection Hhead as <- <-.
        unfold IsVolumeFsResizeAnnotation in Htest.
        by rewrite decode_encode in Htest.
      * by apply Hcache.
    + intros Hno. apply Hcache. intros [-> Hin]. apply Hno.
      split; [done|by right].
Qed.

Lemma elem_of_range_entries {V} (m : gomap V) (k : string) (v : V) :
  (k, v) ∈ range (entries m) ↔ index m k = Some v.
Proof.
  unfold range. rewrite elem_of_map_to_list.
  destruct m; [done|]. simpl. by rewrite lookup_empty.
Qed.

(** The loop over the pods of the pod manager, on valid pointers: it
    returns; every pair that some pod asks for ends with an entry that
    holds a new copy of such a pod; every other pair keeps what it had. *)
Lemma rangePods_spec (h0 : Heap) (pods : list loc) (h : Heap)
    (resizeMap : volumemanager.volumeFsResizeMap) (h' : Heap)
    (resizeMap' : volumemanager.volumeFsResizeMap) (o : outcome) :
  Pods h0 ⊆ Pods h →
  (∀ l, l ∈ pods → is_Some (Pods h0 !! l)) →
  populator.rangePods populator pods h resizeMap = (h', resizeMap', o) →
  o = Returned None
  ∧ Pods h ⊆ Pods h'
  ∧ PersistentVolumes h' = PersistentVolumes h
  ∧ PersistentVolumeClaims h' = PersistentVolumeClaims h
  ∧ volumemanager.kubeClient resizeMap' = volumemanager.kubeClient resizeMap
  ∧ ∀ podName volumeName,
      (wanted populator h0 pods podName volumeName →
       ∃ e p, pending resizeMap' podName volumeName = Some e
              ∧ volumemanager.VolumeName e = volumeName
              ∧ Pods h !! volumemanager.Pod e = None
              ∧ Pods h' !! volumemanager.Pod e = Some p
              ∧ (∃ l, l ∈ pods ∧ Pods h0 !! l = Some p)
              ∧ wantedBy populator p podName volumeName)
      ∧ (¬ wanted populator h0 pods podName volumeName →
         pending resizeMap' podName volumeName
         = pending resizeMap podName volumeName).
Proof.
  revert h resizeMap.
  induction pods as [|pod pods IH]; intros h resizeMap Hsub0 Hvalid.
  { simpl. intros [= <- <- <-]. repeat split; try done.
    by intros (l & p & ?%elem_of_nil & _). }
  destruct (Hvalid pod) as [p0 Hp0]; [by left|].
  assert (Pods h !! pod = Some p0) as Hp by (by eapply lookup_weaken).
  assert (∀ l, l ∈ pods → is_Some (Pods h0 !! l)) as Hvalid'.
  { intros l Hl. apply Hvalid. by right. }
  assert (∀ podName volumeName,
            wanted populator h0 (pod :: pods) podName volumeName
            ↔ wantedBy populator p0 podName volumeName
              ∨ wanted populator h0 pods podName volumeName) as Hcons.
  { intros podName volumeName. split.
    - intros (l & p & [->|Hl]%elem_of_cons & Hlp & Hw).
      + rewrite Hp0 in Hlp. injection Hlp as <-. by left.
      + right. by exists l, p.
    - intros [Hw|(l & p & Hl & Hlp & Hw)].
      + exists pod, p0. split; [by left|done].
      + exists l, p. split; [by right|done]. }
  cbn [populator.rangePods]. rewrite Hp.
  destruct (populator.isPodTerminated populator p0) eqn:Hterminated.
  - intros Hrun. apply IH in Hrun
      as (-> & Hsub & Hpv & Hpvc & Hclient & Hcache); [|done..].
    repeat split; try done.
    + intros Hw. apply Hcons in Hw as [(_ & Hrunning & _)|Hw].
      { by rewrite Hterminated in Hrunning. }
      destruct (Hcache podName volumeName) as [Hyes _].
      destruct (Hyes Hw) as (e & p & He & Hname & Hnew & Hcell & (l & Hl & Hlp) & Hwp).
      exists e, p. split_and!; try done. exists l. split; [by right|done].
    + intros Hno. apply Hcache. intros Hw. apply Hno, Hcons. by right.
  - unfold populator.processPodVolumes. rewrite Hp.
    destruct (populator.rangeAnnotations p0 _ h resizeMap)
      as [[h1 resizeMap1] o1] eqn:Hinner.
    apply rangeAnnotations_spec in Hinner
      as (-> & Hsub1 & Hpv1 & Hpvc1 & Hclient1 & Hcache1).
    intros Hrun. apply IH in Hrun
      as (-> & Hsub & Hpv & Hpvc & Hclient & Hcache); [|by etrans|done].
    split; [done|]. split; [by etrans|]. split; [congruence|].
    split; [congruence|]. split; [congruence|].
    intros podName volumeName.
    destruct (Hcache podName volumeName) as [Hlater Hnot].
    destruct (Hcache1 podName volumeName) as [Hhead Hnothead].
    assert (wantedBy populator p0 podName volumeName
            ↔ podName = GetUniquePodName p0
              ∧ (GetVolumeFsResizeAnnotation volumeName, "yes")
                ∈ range (entries (v1.Annotations (v1.PodMeta p0)))) as Hw0.
    { rewrite elem_of_range_entries. unfold wantedBy. rewrite Hterminated.
      split; [by intros (<- & _ & ?)|by intros (-> & ?)]. }
    destruct (wanted_dec h0 pods podName volumeName) as [Hw|Hnw].
    + split; [|by intros Hno; destruct Hno; apply Hcons; right].
      intros _.
      destruct (Hlater Hw)
        as (e & p & He & Hname & Hnew & Hcell & (l & Hl & Hlp) & Hwp).
      exists e, p. split_and!; try done.
      * by eapply lookup_weaken_None.
      * exists l. split; [by right|done].
    + rewrite (Hnot Hnw). split.
      * intros [Hwp|?]%Hcons; [|done].
        destruct (Hhead (proj1 Hw0 Hwp)) as (e & He & Hname & Hnew & Hcell).
        exists e, p0. split_and!; try done.
        -- by eapply lookup_weaken.
        -- exists pod. split; [by left|done].
      * intros Hno. apply Hnothead. intros Hin. apply Hno, Hcons. left.
        by apply Hw0.
Qed.


End populating.

(** C5.  In an iteration over valid pointers the populator returns, and
    it leaves the pods it was shown as they are.  The cache gets an entry
    for a pod and a volume exactly when some pod of the pod manager has
    that identity, is not terminated and carries the annotation of the
    volume with the value "yes": the entry then names the volume that the
    key decodes to and points to a new cell, which holds a copy of such a
    pod; the entry of any other pair is not touched.  Whether a pod is
    terminated is judged on the status of the status provider, and on the
    pod's own status when the provider has none. *)
Theorem populate_enqueues_copies_of_live_signalled_pods `{VolumeHelper}
    (populator : populator.volumeFsResizeMapPopulator) (h h' : Heap)
    (resizeMap resizeMap' : volumemanager.volumeFsResizeMap) (o : outcome) :
  (∀ l, l ∈ populator.podManager populator → is_Some (Pods h !! l)) →
  populator.populate populator h resizeMap = (h', resizeMap', o) →
  o = Returned None
  ∧ Pods h ⊆ Pods h'
  ∧ (∀ podName volumeName,
       (wanted populator h (populator.podManager populator) podName volumeName →
        ∃ e p,
          pending resizeMap' podName volumeName = Some e
          ∧ volumemanager.VolumeName e = volumeName
          ∧ Pods h !! volumemanager.Pod e = None
          ∧ Pods h' !! volumemanager.Pod e = Some p
          ∧ (∃ l, l ∈ populator.podManager populator ∧ Pods h !! l = Some p)
          ∧ wantedBy populator p podName volumeName)
       ∧ (¬ wanted populator h (populator.podManager populator)
              podName volumeName →
          pending resizeMap' podName volumeName
          = pending resizeMap podName volumeName))
  ∧ (∀ p,
       populator.isPodTerminated populator p
       = IsPodTerminated p
           (default (v1.Status p)
              (populator.podStatusProvider populator (v1.UID (v1.PodMeta p))))).
Proof.
  intros Hvalid Hrun. unfold populator.populate, populator.addNewPods in Hrun.
  apply (rangePods_spec populator h) in Hrun
    as (-> & Hsub & _ & _ & _ & Hcache); [|done..].
  split; [done|]. split; [done|]. split; [done|].
  intros p. unfold populator.isPodTerminated.
  by destruct (populator.podStatusProvider populator _).
Qed.

Lemma populate_enqueues_copies_of_live_signalled_pods_witness :
  (∀ l, l ∈ populator.podManager (watching None) →
        is_Some (Pods (heapOfPods [signalledPod]) !! l))
  ∧ firstCycle.2 = Returned None
  ∧ ∃ e, pending firstCycle.1.2 "uid-pod-x" "data" = Some e
         ∧ volumemanager.VolumeName e = "data"
         ∧ Pods (heapOfPods [signalledPod]) !! volumemanager.Pod e = None
         ∧ Pods firstCycle.1.1 !! volumemanager.Pod e = Some signalledPod.
Proof.
  assert (∀ l, l ∈ populator.podManager (watching None) →
               is_Some (Pods (heapOfPods [signalledPod]) !! l)) as Hvalid.
  { intros l Hl. cbn in Hl. cases_of_list Hl. subst l. vm_compute. by eexists. }
  assert (wanted (H := exampleHelper) (watching None)
            (heapOfPods [signalledPod]) (populator.podManager (watching None))
            "uid-pod-x" "data") as Hwanted.
  { exists 1%positive, signalledPod. split; [by left|].
    split; vm_compute; [reflexivity|]. by split. }
  split; [exact Hvalid|].
  destruct (populate_enqueues_copies_of_live_signalled_pods (H := exampleHelper)
              (watching None) _ _ _ _ _ Hvalid (surjective_run firstCycle))
    as (Hreturns & _ & Hcache & _).
  split; [exact Hreturns|]. clear Hreturns.
  destruct (Hcache "uid-pod-x" "data") as [Hentry _].
  destruct (Hentry Hwanted)
    as (e & p & He & Hname & Hnew & Hcell & (l & Hl & Hp) & _).
  cbn in Hl. cases_of_list Hl. subst l. vm_compute in Hp.
  injection Hp as <-. exists e.
  split; [exact He|]. split; [exact Hname|]. split; [exact Hnew|exact Hcell].
Defined.

(** C6, as the code has it.  Take a pod of the pod manager that the
    populator does not take for terminated and that carries the annotation
    of a volume with the value "yes".  After an iteration of the populator
    over valid pointers, from any cache, the cache has an entry for the
    pod and the volume that names the volume and holds a new copy of a pod
    of that identity; and no pair that had an entry lost it.  That holds in
    particular from the cache that a drain leaves behind, in which the
    pair has no entry. *)
Theorem populate_recreates_entry_of_live_pod `{VolumeHelper}
    (populator : populator.volumeFsResizeMapPopulator) (h h' : Heap)
    (resizeMap resizeMap' : volumemanager.volumeFsResizeMap) (o : outcome)
    (l : loc) (p : v1.Pod) (volumeName : string) :
  (∀ l, l ∈ populator.podManager populator → is_Some (Pods h !! l)) →
  l ∈ populator.podManager populator →
  Pods h !! l = Some p →
  populator.isPodTerminated populator p = false →
  index (v1.Annotations (v1.PodMeta p)) (GetVolumeFsResizeAnnotation volumeName)
  = Some "yes" →
  populator.populate populator h resizeMap = (h', resizeMap', o) →
  o = Returned None
  ∧ (∃ e p',
       pending resizeMap' (GetUniquePodName p) volumeName = Some e
       ∧ volumemanager.VolumeName e = volumeName
       ∧ Pods h !! volumemanager.Pod e = None
       ∧ Pods h' !! volumemanager.Pod e = Some p'
       ∧ GetUniquePodName p' = GetUniquePodName p)
  ∧ (∀ podName volumeName',
       is_Some (pending resizeMap podName volumeName') →
       is_Some (pending resizeMap' podName volumeName'))
  ∧ (∀ before,
       resizeMap = (volumemanager.GetVolumesToResize before).2 →
       pending resizeMap (GetUniquePodName p) volumeName = None).
Proof.
  intros Hvalid Hl Hp Hlive Hyes Hrun.
  unfold populator.populate, populator.addNewPods in Hrun.
  apply (rangePods_spec populator h) in Hrun
    as (-> & Hsub & _ & _ & _ & Hcache); [|done..].
  split; [done|]. split; [|split].
  - destruct (Hcache (GetUniquePodName p) volumeName) as [Hentry _].
    destruct Hentry as (e & p' & He & Hname & Hnew & Hcell & _ & (Hid & _)).
    { by exists l, p. }
    by exists e, p'.
  - intros podName volumeName' Hhad.
    destruct (Hcache podName volumeName') as [Hentry Hkept].
    destruct (wanted_dec populator h (populator.podManager populator)
                podName volumeName') as [Hw|Hnw].
    + destruct (Hentry Hw) as (e & ? & -> & _). by eexists.
    + by rewrite (Hkept Hnw).
  - by intros before ->.
Qed.

Lemma populate_recreates_entry_of_live_pod_witness :
  (∀ l, l ∈ populator.podManager (watching None) →
        is_Some (Pods firstCycle.1.1 !! l))
  ∧ Pods firstCycle.1.1 !! 1%positive = Some signalledPod
  ∧ @populator.isPodTerminated exampleHelper (watching None) signalledPod
    = false
  ∧ index (v1.Annotations (v1.PodMeta signalledPod))
          (@GetVolumeFsResizeAnnotation exampleHelper "data") = Some "yes"
  ∧ pending drained "uid-pod-x" "data" = None
  ∧ (secondCycle None).2 = Returned None
  ∧ ∃ e, pending (secondCycle None).1.2 "uid-pod-x" "data" = Some e
         ∧ volumemanager.VolumeName e = "data".
Proof.
  assert (∀ l, l ∈ populator.podManager (watching None) →
               is_Some (Pods firstCycle.1.1 !! l)) as Hvalid.
  { intros l Hl. cbn in Hl. cases_of_list Hl. subst l. vm_compute. by eexists. }
  assert (Pods firstCycle.1.1 !! 1%positive = Some signalledPod) as Hp.
  { vm_compute. reflexivity. }
  assert (@populator.isPodTerminated exampleHelper (watching None) signalledPod
          = false) as Hlive.
  { vm_compute. reflexivity. }
  assert (index (v1.Annotations (v1.PodMeta signalledPod))
                (@GetVolumeFsResizeAnnotation exampleHelper "data")
          = Some "yes") as Hyes.
  { vm_compute. reflexivity. }
  split; [exact Hvalid|]. split; [exact Hp|]. split; [exact Hlive|].
  split; [exact Hyes|].
  destruct (populate_recreates_entry_of_live_pod (H := exampleHelper)
              (watching None) _ _ _ _ _ 1%positive signalledPod "data"
              Hvalid (list_elem_of_here _ _) Hp Hlive Hyes
              (surjective_run (secondCycle None)))
    as (Hreturns & (e & p' & He & Hname & _) & _ & Hdrained).
  split; [exact (Hdrained firstCycle.1.2 eq_refl)|].
  split; [exact Hreturns|]. exists e. split; [exact He|exact Hname].
Defined.

(** C6, as the claim has it, fails for a pod that terminates between two
    cycles.  The pod carries the annotation with the value "yes"
    throughout.  The first cycle, for which it runs, gives it an entry;
    the consumer drains the cache; the second cycle, for which the status
    provider reports the phase Failed, leaves the cache without an entry
    for the pod. *)
Lemma populate_skips_terminated_pod :
  Pods firstCycle.1.1 !! 1%positive = Some signalledPod
  ∧ index (v1.Annotations (v1.PodMeta signalledPod))
          (@GetVolumeFsResizeAnnotation exampleHelper "data") = Some "yes"
  ∧ is_Some (pending firstCycle.1.2 "uid-pod-x" "data")
  ∧ (secondCycle (Some {| v1.PodPhase := "Failed" |})).2 = Returned None
  ∧ ¬ is_Some (pending (secondCycle (Some {| v1.PodPhase := "Failed" |})).1.2
                 "uid-pod-x" "data").
Proof.
  split; [vm_compute; reflexivity|]. split; [vm_compute; reflexivity|].
  split; [vm_compute; eexists; reflexivity|].
  split; [vm_compute; reflexivity|].
  vm_compute. intros [e He]. discriminate He.
Qed.

(** ** The theorems at work on the example worlds *)

Lemma AddPVCUpdate_adds_iff_witness :
  PersistentVolumeClaims claimHeap !! 1%positive = Some exampleClaim
  ∧ PersistentVolumes claimHeap !! 1%positive = Some exampleVolume
  ∧ expand.pvcrs (expand.AddPVCUpdate 1 1 claimHeap idleController).1 !! "u1"
    = Some exampleRequest.
Proof.
  assert (PersistentVolumeClaims claimHeap !! 1%positive = Some exampleClaim)
    as Hc by (vm_compute; reflexivity).
  assert (PersistentVolumes claimHeap !! 1%positive = Some exampleVolume)
    as Hv by (vm_compute; reflexivity).
  split; [exact Hc|]. split; [exact Hv|].
  destruct (AddPVCUpdate_adds_iff 1 1 claimHeap idleController _ _ Hc Hv)
    as [Hadds _].
  rewrite Hadds.
  - vm_compute. reflexivity.
  - split; [|split].
    + eexists. split; [reflexivity|]. split; reflexivity.
    + reflexivity.
    + vm_compute. reflexivity.
Defined.

Lemma handshake_codec_inverse_witness :
  @decode exampleHelper (@GetVolumeFsResizeAnnotation exampleHelper "data")
  = ("data", true)
  ∧ (@decode exampleHelper "kubernetes.io/config.source").2 = false.
Proof.
  destruct (handshake_codec_inverse (H := exampleHelper))
    as (Hround & Hforeign & _).
  split; [exact (Hround "data")|].
  apply Hforeign. intros volumeName Heq. vm_compute in Heq. discriminate Heq.
Defined.

Lemma MarkAsFileSystemResized_clears_once_witness :
  Pods (heapOfPods [signalledPod]) !! 1%positive = Some signalledPod
  ∧ is_Some (index (v1.Annotations (v1.PodMeta signalledPod))
                   (@GetVolumeFsResizeAnnotation exampleHelper "data"))
  ∧ ∃ obj',
      calls (volumemanager.kubeClient
               (@volumemanager.MarkAsFileSystemResized exampleHelper
                  (Some 1%positive) "data" (heapOfPods [signalledPod])
                  (volumemanager.NewVolumeFsResizeMap servingClient)).1.2)
      = [(PodsGet "default" "pod-x", None); (PodsUpdate obj', None)]
      ∧ index (v1.Annotations (v1.PodMeta obj'))
              (@GetVolumeFsResizeAnnotation exampleHelper "data") = None.
Proof.
  assert (Pods (heapOfPods [signalledPod]) !! 1%positive = Some signalledPod)
    as Hp by (vm_compute; reflexivity).
  assert (is_Some (index (v1.Annotations (v1.PodMeta signalledPod))
                         (@GetVolumeFsResizeAnnotation exampleHelper "data")))
    as Hyes by (vm_compute; eexists; reflexivity).
  split; [exact Hp|]. split; [exact Hyes|].
  destruct (MarkAsFileSystemResized_clears_once (H := exampleHelper))
    as (_ & Hread & _).
  destruct (Hread 1%positive signalledPod signalledPod "data"
              (heapOfPods [signalledPod])
              (volumemanager.NewVolumeFsResizeMap servingClient) _ _ _
              Hp eq_refl eq_refl (surjective_run _)) as [_ Hclears].
  destruct (Hclears Hyes) as (obj' & verdict & Hcalls & Hverdict & _ & _ & _ & _
                              & Hindex).
  assert (verdict = None) as ->.
  { apply Hverdict. vm_compute. reflexivity. }
  exists obj'. split; [exact Hcalls|].
  rewrite Hindex. apply decide_True. reflexivity.
Defined.

Lemma mutations_are_made_on_copies_witness :
  PersistentVolumes
    (@expand.UpdatePVSize exampleJson exampleRequest 2%Z claimHeap
       idleController).1.1 !! 1%positive
  = Some exampleVolume
  ∧ (@expand.UpdatePVSize exampleJson exampleRequest 2%Z claimHeap
       idleController).2
    = Returned None.
Proof.
  destruct (mutations_are_made_on_copies (H := exampleJson) (H0 := exampleHelper))
    as (Hvolume & _ & _).
  destruct (Hvolume exampleRequest 2%Z claimHeap idleController _ _ _
              (surjective_run _)) as (Hkept & _).
  split; [|vm_compute; reflexivity].
  eapply lookup_weaken; [|exact Hkept]. vm_compute. reflexivity.
Defined.

(* ===================================================================== *)
(** * Part III: further properties of the code                            *)
(* ===================================================================== *)

(** ** The cache of the controller *)

Lemma withPvcrs_same (resizeMap : expand.volumeResizeMap) :
  expand.withPvcrs resizeMap (expand.pvcrs resizeMap) = resizeMap.
Proof. by destruct resizeMap. Qed.

Lemma AddPVCUpdate_resizable (pvc pv : loc) (h : Heap)
    (resizeMap : expand.volumeResizeMap)
    (c : v1.PersistentVolumeClaim) (v : v1.PersistentVolume) :
  PersistentVolumeClaims h !! pvc = Some c →
  PersistentVolumes h !! pv = Some v →
  resizable c v →
  expand.AddPVCUpdate pvc pv h resizeMap
  = (expand.withPvcrs resizeMap
       (<[v1.UID (v1.PVCMeta c) := requestFor pvc pv c]>
          (expand.pvcrs resizeMap)),
     Returned None).
Proof.
  intros Hc Hv ((ref & Href & Hns & Hname) & Hphase & Hsize).
  unfold expand.AddPVCUpdate. rewrite Hv, Hc, Href.
  rewrite decide_False by (by intros [?|?]).
  rewrite decide_False by (by intros ?).
  rewrite decide_False; [done|]. rewrite Cmp_ge_0. lia.
Qed.

Lemma AddPVCUpdate_cases (pvc pv : loc) (h : Heap)
    (resizeMap : expand.volumeResizeMap) :
  (expand.AddPVCUpdate pvc pv h resizeMap).1 = resizeMap
  ∨ ∃ c, PersistentVolumeClaims h !! pvc = Some c
         ∧ (expand.AddPVCUpdate pvc pv h resizeMap).1
           = expand.withPvcrs resizeMap
               (<[v1.UID (v1.PVCMeta c) := requestFor pvc pv c]>
                  (expand.pvcrs resizeMap)).
Proof.
  unfold expand.AddPVCUpdate.
  destruct (PersistentVolumes h !! pv) as [v|]; [|by left].
  destruct (PersistentVolumeClaims h !! pvc) as [c|]; [|by left].
  destruct (v1.ClaimRef v) as [ref|]; [|by left].
  repeat (case_decide; [by left|]). right. by exists c.
Qed.

(** X1.  [DeletePVC] of a claim behind a valid pointer returns normally
    and removes the entry under the claim's UID, if there is one, and no
    other: a claim that is not in the cache leaves the struct exactly as
    it was, and deleting a second time changes nothing. *)
Theorem DeletePVC_removes_only_its_key (pvc : loc) (h : Heap)
    (resizeMap : expand.volumeResizeMap) (c : v1.PersistentVolumeClaim) :
  PersistentVolumeClaims h !! pvc = Some c →
  (expand.DeletePVC pvc h resizeMap).2 = Returned None
  ∧ expand.pvcrs (expand.DeletePVC pvc h resizeMap).1
    !! v1.UID (v1.PVCMeta c) = None
  ∧ (∀ k, k ≠ v1.UID (v1.PVCMeta c) →
          expand.pvcrs (expand.DeletePVC pvc h resizeMap).1 !! k
          = expand.pvcrs resizeMap !! k)
  ∧ (expand.pvcrs resizeMap !! v1.UID (v1.PVCMeta c) = None →
     (expand.DeletePVC pvc h resizeMap).1 = resizeMap)
  ∧ (expand.DeletePVC pvc h (expand.DeletePVC pvc h resizeMap).1).1
    = (expand.DeletePVC pvc h resizeMap).1
  ∧ expand.kubeClient (expand.DeletePVC pvc h resizeMap).1
    = expand.kubeClient resizeMap.
Proof.
  intros Hc. unfold expand.DeletePVC. rewrite Hc. simpl.
  split; [done|]. split; [apply lookup_delete_eq|].
  split; [by intros k Hk; apply lookup_delete_ne|].
  split; [|split; [|done]].
  - intros Habsent. rewrite delete_id by done. apply withPvcrs_same.
  - unfold expand.withPvcrs. simpl. f_equal. apply delete_id, lookup_delete_eq.
Qed.

Lemma DeletePVC_removes_only_its_key_witness :
  PersistentVolumeClaims claimHeap !! 1%positive = Some exampleClaim
  ∧ expand.pvcrs
      (expand.DeletePVC 1 claimHeap
         (expand.AddPVCUpdate 1 1 claimHeap idleController).1).1 !! "u1"
    = None.
Proof.
  assert (PersistentVolumeClaims claimHeap !! 1%positive = Some exampleClaim)
    as Hc by (vm_compute; reflexivity).
  split; [exact Hc|].
  exact (proj1 (proj2 (DeletePVC_removes_only_its_key 1 claimHeap
                         (expand.AddPVCUpdate 1 1 claimHeap idleController).1
                         exampleClaim Hc))).
Defined.

(** X2.  The last writer wins, and leaves no trace of the earlier one:
    whatever an earlier [AddPVCUpdate] for a claim of the same UID did,
    the cache after an accepted [AddPVCUpdate] is the cache that this
    call alone would have made.  Entries under other UIDs are as the
    earlier call left them. *)
Theorem AddPVCUpdate_last_writer_wins (pvc1 pv1 pvc2 pv2 : loc) (h : Heap)
    (resizeMap : expand.volumeResizeMap)
    (c1 c2 : v1.PersistentVolumeClaim) (v2 : v1.PersistentVolume) :
  PersistentVolumeClaims h !! pvc1 = Some c1 →
  PersistentVolumeClaims h !! pvc2 = Some c2 →
  PersistentVolumes h !! pv2 = Some v2 →
  resizable c2 v2 →
  v1.UID (v1.PVCMeta c1) = v1.UID (v1.PVCMeta c2) →
  (expand.AddPVCUpdate pvc2 pv2 h
     (expand.AddPVCUpdate pvc1 pv1 h resizeMap).1).1
  = (expand.AddPVCUpdate pvc2 pv2 h resizeMap).1
  ∧ expand.pvcrs (expand.AddPVCUpdate pvc2 pv2 h resizeMap).1
    !! v1.UID (v1.PVCMeta c2) = Some (requestFor pvc2 pv2 c2)
  ∧ size (expand.pvcrs
            (expand.AddPVCUpdate pvc2 pv2 h
               (expand.AddPVCUpdate pvc1 pv1 h resizeMap).1).1)
    = size (expand.pvcrs (expand.AddPVCUpdate pvc2 pv2 h resizeMap).1).
Proof.
  intros Hc1 Hc2 Hv2 Hok Huid.
  assert ((expand.AddPVCUpdate pvc2 pv2 h
             (expand.AddPVCUpdate pvc1 pv1 h resizeMap).1).1
          = (expand.AddPVCUpdate pvc2 pv2 h resizeMap).1) as Hsame.
  { rewrite !(AddPVCUpdate_resizable pvc2 pv2 h _ c2 v2) by done. simpl.
    destruct (AddPVCUpdate_cases pvc1 pv1 h resizeMap) as [->|(c & Hc & ->)];
      [done|].
    rewrite Hc1 in Hc. injection Hc as <-. unfold expand.withPvcrs. simpl.
    rewrite Huid. by rewrite insert_insert_eq. }
  split; [exact Hsame|]. split; [|by rewrite Hsame].
  rewrite (AddPVCUpdate_resizable pvc2 pv2 h _ c2 v2) by done. simpl.
  apply lookup_insert_eq.
Qed.

Lemma resizable_grownClaim : resizable grownClaim exampleVolume.
Proof.
  split; [|split].
  - eexists. split; [reflexivity|]. split; reflexivity.
  - reflexivity.
  - vm_compute. reflexivity.
Defined.

Lemma AddPVCUpdate_last_writer_wins_witness :
  PersistentVolumeClaims twoVersionsHeap !! 1%positive = Some exampleClaim
  ∧ PersistentVolumeClaims twoVersionsHeap !! 2%positive = Some grownClaim
  ∧ PersistentVolumes twoVersionsHeap !! 1%positive = Some exampleVolume
  ∧ resizable grownClaim exampleVolume
  ∧ (expand.GetPVCsWithResizeRequest
       (expand.AddPVCUpdate 2 1 twoVersionsHeap
          (expand.AddPVCUpdate 1 1 twoVersionsHeap idleController).1).1).1
    = [requestFor 2 1 grownClaim].
Proof.
  assert (PersistentVolumeClaims twoVersionsHeap !! 1%positive
          = Some exampleClaim) as Hc1 by (vm_compute; reflexivity).
  assert (PersistentVolumeClaims twoVersionsHeap !! 2%positive
          = Some grownClaim) as Hc2 by (vm_compute; reflexivity).
  assert (PersistentVolumes twoVersionsHeap !! 1%positive
          = Some exampleVolume) as Hv by (vm_compute; reflexivity).
  split; [exact Hc1|]. split; [exact Hc2|]. split; [exact Hv|].
  split; [exact resizable_grownClaim|].
  rewrite (proj1 (AddPVCUpdate_last_writer_wins 1 1 2 1 twoVersionsHeap
                    idleController exampleClaim grownClaim exampleVolume
                    Hc1 Hc2 Hv resizable_grownClaim eq_refl)).
  vm_compute. reflexivity.
Defined.

Lemma GetPVCsWithResizeRequest_batch (resizeMap : expand.volumeResizeMap) :
  (expand.GetPVCsWithResizeRequest resizeMap).1
  = (map_to_list (expand.pvcrs resizeMap)).*2.
Proof. exact (foldl_snoc snd _ []). Qed.

(** X3.  Nothing that was enqueued is lost, and nothing is handed out
    twice: after an accepted [AddPVCUpdate] the next drain returns the
    request that was built, in a batch with one request per UID of the
    cache; it is the whole batch if the cache was empty; and a drain that
    follows a drain returns the empty batch. *)
Theorem enqueued_request_is_drained_once (pvc pv : loc) (h : Heap)
    (resizeMap : expand.volumeResizeMap)
    (c : v1.PersistentVolumeClaim) (v : v1.PersistentVolume) :
  PersistentVolumeClaims h !! pvc = Some c →
  PersistentVolumes h !! pv = Some v →
  resizable c v →
  requestFor pvc pv c
  ∈ (expand.GetPVCsWithResizeRequest
       (expand.AddPVCUpdate pvc pv h resizeMap).1).1
  ∧ length (expand.GetPVCsWithResizeRequest
              (expand.AddPVCUpdate pvc pv h resizeMap).1).1
    = size (dom (expand.pvcrs resizeMap) ∪ {[v1.UID (v1.PVCMeta c)]})
  ∧ (expand.pvcrs resizeMap = ∅ →
     (expand.GetPVCsWithResizeRequest
        (expand.AddPVCUpdate pvc pv h resizeMap).1).1
     = [requestFor pvc pv c])
  ∧ (expand.GetPVCsWithResizeRequest
       (expand.GetPVCsWithResizeRequest
          (expand.AddPVCUpdate pvc pv h resizeMap).1).2).1 = [].
Proof.
  intros Hc Hv Hok.
  rewrite (AddPVCUpdate_resizable pvc pv h resizeMap c v) by done.
  rewrite !GetPVCsWithResizeRequest_batch. simpl.
  split; [|split; [|split]].
  - apply list_elem_of_fmap. exists (v1.UID (v1.PVCMeta c), requestFor pvc pv c).
    split; [done|]. apply elem_of_map_to_list, lookup_insert_eq.
  - rewrite length_fmap, length_map_to_list, <- size_dom, dom_insert_L.
    f_equal. apply (comm_L (∪)).
  - intros ->. rewrite insert_empty. by rewrite map_to_list_singleton.
  - by rewrite map_to_list_empty.
Qed.

Lemma enqueued_request_is_drained_once_witness :
  PersistentVolumeClaims claimHeap !! 1%positive = Some exampleClaim
  ∧ PersistentVolumes claimHeap !! 1%positive = Some exampleVolume
  ∧ resizable exampleClaim exampleVolume
  ∧ (expand.GetPVCsWithResizeRequest
       (expand.AddPVCUpdate 1 1 claimHeap idleController).1).1
    = [requestFor 1 1 exampleClaim].
Proof.
  assert (PersistentVolumeClaims claimHeap !! 1%positive = Some exampleClaim)
    as Hc by (vm_compute; reflexivity).
  assert (PersistentVolumes claimHeap !! 1%positive = Some exampleVolume)
    as Hv by (vm_compute; reflexivity).
  assert (resizable exampleClaim exampleVolume) as Hok.
  { split; [|split].
    - eexists. split; [reflexivity|]. split; reflexivity.
    - reflexivity.
    - vm_compute. reflexivity. }
  split; [exact Hc|]. split; [exact Hv|]. split; [exact Hok|].
  destruct (enqueued_request_is_drained_once 1 1 claimHeap idleController
              exampleClaim exampleVolume Hc Hv Hok) as (_ & _ & Hall & _).
  apply Hall. reflexivity.
Defined.

Lemma MarkAsResized_frame (pvcr : expand.PVCWithResizeRequest)
    (newSize : Quantity) (h h' : Heap)
    (resizeMap resizeMap' : expand.volumeResizeMap) (o : outcome) :
  expand.MarkAsResized pvcr newSize h resizeMap = (h', resizeMap', o) →
  PersistentVolumeClaims h ⊆ PersistentVolumeClaims h'
  ∧ PersistentVolumes h' = PersistentVolumes h
  ∧ Pods h' = Pods h
  ∧ expand.pvcrs resizeMap' = expand.pvcrs resizeMap.
Proof.
  unfold expand.MarkAsResized, expand.updatePVCCapacityAndConditions.
  destruct (PersistentVolumeClaims h !! _) as [c|] eqn:Hc.
  2: { by intros [= <- <- <-]. }
  unfold DeepCopyPVC, alloc.
  set (claimClone := fresh (dom (PersistentVolumeClaims h))).
  assert (PersistentVolumeClaims h !! claimClone = None) as Hfresh.
  { apply not_elem_of_dom, is_fresh. }
  destruct (expand.assign _ _ _) as [capacity|].
  2: { intros [= <- <- <-]. repeat split; try done. simpl.
       by apply insert_subseteq. }
  simpl.
  assert (PersistentVolumeClaims h
          ⊆ <[claimClone := expand.withStatus c capacity []]>
              (<[claimClone := c]> (PersistentVolumeClaims h))) as Hsub.
  { rewrite insert_insert_eq. by apply insert_subseteq. }
  destruct (faults _ _ _); by intros [= <- <- <-].
Qed.

Lemma UpdatePVSize_frame `{Json} (pvcr : expand.PVCWithResizeRequest)
    (newSize : Quantity) (h h' : Heap)
    (resizeMap resizeMap' : expand.volumeResizeMap) (o : outcome) :
  expand.UpdatePVSize pvcr newSize h resizeMap = (h', resizeMap', o) →
  PersistentVolumes h ⊆ PersistentVolumes h'
  ∧ PersistentVolumeClaims h' = PersistentVolumeClaims h
  ∧ Pods h' = Pods h
  ∧ expand.pvcrs resizeMap' = expand.pvcrs resizeMap.
Proof.
  unfold expand.UpdatePVSize.
  destruct (PersistentVolumes h !! _) as [oldPv|] eqn:Hold.
  2: { by intros [= <- <- <-]. }
  unfold DeepCopyPV, alloc.
  set (pvClone := fresh (dom (PersistentVolumes h))).
  assert (PersistentVolumes h !! pvClone = None) as Hfresh.
  { apply not_elem_of_dom, is_fresh. }
  destruct (Marshal oldPv) as [oldData|err].
  2: { intros [= <- <- <-]. repeat split; try done. simpl.
       by apply insert_subseteq. }
  destruct (expand.assign _ _ _) as [capacity|].
  2: { intros [= <- <- <-]. repeat split; try done. simpl.
       by apply insert_subseteq. }
  assert (PersistentVolumes h
          ⊆ <[pvClone := expand.withSpecCapacity oldPv capacity]>
              (<[pvClone := oldPv]> (PersistentVolumes h))) as Hsub.
  { rewrite insert_insert_eq. by apply insert_subseteq. }
  destruct (Marshal _) as [newData|err].
  2: { by intros [= <- <- <-]. }
  destruct (CreateTwoWayMergePatch _ _ _) as [patchBytes|err].
  2: { by intros [= <- <- <-]. }
  by intros [= <- <- <-].
Qed.

Lemma MarkForFileSystemResize_frame `{VolumeHelper}
    (pvcName uniqueVolumeName : string) (h h' : Heap)
    (resizeMap resizeMap' : expand.volumeResizeMap) (o : outcome) :
  expand.MarkForFileSystemResize pvcName uniqueVolumeName h resizeMap
  = (h', resizeMap', o) →
  Pods h ⊆ Pods h'
  ∧ PersistentVolumes h' = PersistentVolumes h
  ∧ PersistentVolumeClaims h' = PersistentVolumeClaims h
  ∧ expand.pvcrs resizeMap' = expand.pvcrs resizeMap.
Proof.
  unfold expand.MarkForFileSystemResize.
  destruct (decide (length _ = 0)) as [_|_]; [by intros [= <- <- <-]|].
  destruct (expand.lookupPods _ _ _ _ _ h ∅ []) as [h1 r] eqn:Hfirst.
  apply lookupPods_frame in Hfirst as (Hsub & Hpv & Hpvc & Hr).
  destruct r as [o1|[M' P']]; [by intros [= <- <- <-]|].
  destruct Hr as (new & HP' & Hnew). simpl in HP'. subst P'.
  destruct (expand.markPods _ _ _ _ _) as [[h2 k2] o2] eqn:Hsecond.
  apply markPods_frame in Hsecond as (Hcells & Hpv2 & Hpvc2).
  intros [= <- <- <-]. split; [|split; [congruence|split; [congruence|done]]].
  apply map_subseteq_spec. intros l x Hl. rewrite Hcells.
  - by eapply lookup_weaken.
  - intros Hin. rewrite Forall_forall in Hnew.
    by rewrite (Hnew l Hin) in Hl.
Qed.

Lemma keyedByUID_grow (h h' : Heap) (resizeMap resizeMap' : expand.volumeResizeMap) :
  PersistentVolumeClaims h ⊆ PersistentVolumeClaims h' →
  expand.pvcrs resizeMap' = expand.pvcrs resizeMap →
  keyedByUID h resizeMap → keyedByUID h' resizeMap'.
Proof.
  intros Hsub Hsame Hkeyed k r Hr. rewrite Hsame in Hr.
  specialize (Hkeyed k r Hr). unfold expand.UniquePVCKey in *.
  destruct (PersistentVolumeClaims h !! expand.PVC r) as [c|] eqn:Hc; [|done].
  by rewrite (lookup_weaken _ _ _ _ Hc Hsub).
Qed.

(** X4.  The cache keeps its requests under the UIDs of the claims they
    point to.  That holds for the new cache, every method of the struct
    preserves it, and so does anything that only adds objects to the heap.
    A batch drained from such a cache holds no request twice and no two
    requests of the same UID, and [UniquePVCKey] of each of its requests
    is the key it was stored under. *)
Theorem requests_are_keyed_by_UID `{Json} `{VolumeHelper} :
  (∀ h client lister getPods getNodes,
     keyedByUID h (expand.NewVolumeResizeMap client lister getPods getNodes))
  ∧ (∀ pvc pv h resizeMap,
       keyedByUID h resizeMap →
       keyedByUID h (expand.AddPVCUpdate pvc pv h resizeMap).1)
  ∧ (∀ pvc h resizeMap,
       keyedByUID h resizeMap →
       keyedByUID h (expand.DeletePVC pvc h resizeMap).1)
  ∧ (∀ h resizeMap,
       keyedByUID h (expand.GetPVCsWithResizeRequest resizeMap).2)
  ∧ (∀ pvcr newSize h resizeMap h' resizeMap' o,
       expand.MarkAsResized pvcr newSize h resizeMap = (h', resizeMap', o) →
       keyedByUID h resizeMap → keyedByUID h' resizeMap')
  ∧ (∀ pvcr newSize h resizeMap h' resizeMap' o,
       expand.UpdatePVSize pvcr newSize h resizeMap = (h', resizeMap', o) →
       keyedByUID h resizeMap → keyedByUID h' resizeMap')
  ∧ (∀ pvcName uniqueVolumeName h resizeMap h' resizeMap' o,
       expand.MarkForFileSystemResize pvcName uniqueVolumeName h resizeMap
       = (h', resizeMap', o) →
       keyedByUID h resizeMap → keyedByUID h' resizeMap')
  ∧ (∀ h resizeMap,
       keyedByUID h resizeMap →
       NoDup (expand.GetPVCsWithResizeRequest resizeMap).1
       ∧ NoDup ((λ r, expand.UniquePVCKey r h)
                  <$> (expand.GetPVCsWithResizeRequest resizeMap).1)
       ∧ ∀ r, r ∈ (expand.GetPVCsWithResizeRequest resizeMap).1 →
              ∃ k, expand.UniquePVCKey r h = Some k
                   ∧ expand.pvcrs resizeMap !! k = Some r).
Proof.
  split; [by intros h client lister getPods getNodes k r ?|].
  split.
  { intros pvc pv h resizeMap Hkeyed.
    destruct (AddPVCUpdate_cases pvc pv h resizeMap) as [->|(c & Hc & ->)];
      [done|].
    intros k r. simpl. destruct (decide (k = v1.UID (v1.PVCMeta c))) as [->|Hk].
    - rewrite lookup_insert_eq. intros [= <-].
      unfold expand.UniquePVCKey. simpl. by rewrite Hc.
    - rewrite lookup_insert_ne by done. apply Hkeyed. }
  split.
  { intros pvc h resizeMap Hkeyed k r. unfold expand.DeletePVC.
    destruct (PersistentVolumeClaims h !! pvc) as [c|]; [|apply Hkeyed].
    simpl. intros Hr. apply lookup_delete_Some in Hr as [_ Hr].
    by apply Hkeyed. }
  split; [by intros h resizeMap k r ?|].
  split.
  { intros pvcr newSize h resizeMap h' resizeMap' o Hrun.
    apply MarkAsResized_frame in Hrun as (Hsub & _ & _ & Hsame).
    by apply keyedByUID_grow. }
  split.
  { intros pvcr newSize h resizeMap h' resizeMap' o Hrun.
    apply UpdatePVSize_frame in Hrun as (_ & Hsame & _ & Hpvcrs).
    apply keyedByUID_grow; [by rewrite Hsame|done]. }
  split.
  { intros pvcName uniqueVolumeName h resizeMap h' resizeMap' o Hrun.
    apply MarkForFileSystemResize_frame in Hrun as (_ & _ & Hsame & Hpvcrs).
    apply keyedByUID_grow; [by rewrite Hsame|done]. }
  intros h resizeMap Hkeyed. rewrite GetPVCsWithResizeRequest_batch.
  assert ((λ r, expand.UniquePVCKey r h)
            <$> (map_to_list (expand.pvcrs resizeMap)).*2
          = Some <$> (map_to_list (expand.pvcrs resizeMap)).*1) as Hkeys.
  { rewrite <- !list_fmap_compose. apply Forall_fmap_ext, Forall_forall.
    intros [k r] Hin. apply elem_of_map_to_list in Hin. simpl.
    by apply Hkeyed. }
  assert (NoDup ((λ r, expand.UniquePVCKey r h)
                   <$> (map_to_list (expand.pvcrs resizeMap)).*2)) as Hnd.
  { rewrite Hkeys. apply NoDup_fmap_2; [apply _|].
    apply NoDup_fst_map_to_list. }
  split; [by eapply NoDup_fmap_1|]. split; [done|].
  intros r Hr. apply list_elem_of_fmap in Hr as ([k r'] & -> & Hin).
  apply elem_of_map_to_list in Hin. exists k. split; [by apply Hkeyed|done].
Qed.

Lemma requestsIn_exchanges_same (k : KubeClient) :
  requestsIn (exchanges k k) = [].
Proof. by rewrite exchanges_same. Qed.

Lemma requestsIn_exchanges_send (k : KubeClient) (c : ApiCall) :
  requestsIn (exchanges k (send c k).1) = [c].
Proof.
  unfold send. simpl. by rewrite (exchanges_app k _ [(c, faults k (calls k) c)]).
Qed.

Lemma send_requests (k k1 : KubeClient) (c : ApiCall) (e1 : option error) :
  send c k = (k1, e1) →
  requestsIn (exchanges k k1) = [c] ∧ length (exchanges k k1) = 1.
Proof.
  unfold send. intros [= <- _].
  by rewrite (exchanges_app k _ [(c, faults k (calls k) c)]).
Qed.

(** X5.  A retry sends the same request.  [UpdatePVSize] and
    [MarkAsResized] work on copies, so a second call with the same request
    and size, made after the first one, sends the server the very request
    that the first one sent, whatever the first one got as an answer; and
    a call sends at most one request. *)
Theorem retry_sends_the_same_request `{Json} :
  (∀ pvcr newSize h resizeMap h1 resizeMap1 o1 h2 resizeMap2 o2,
     expand.UpdatePVSize pvcr newSize h resizeMap = (h1, resizeMap1, o1) →
     expand.UpdatePVSize pvcr newSize h1 resizeMap1 = (h2, resizeMap2, o2) →
     requestsIn (exchanges (expand.kubeClient resizeMap)
                           (expand.kubeClient resizeMap1))
     = requestsIn (exchanges (expand.kubeClient resizeMap1)
                             (expand.kubeClient resizeMap2))
     ∧ (length (exchanges (expand.kubeClient resizeMap)
                          (expand.kubeClient resizeMap1)) ≤ 1)%nat)
  ∧ (∀ pvcr newSize h resizeMap h1 resizeMap1 o1 h2 resizeMap2 o2,
       expand.MarkAsResized pvcr newSize h resizeMap = (h1, resizeMap1, o1) →
       expand.MarkAsResized pvcr newSize h1 resizeMap1 = (h2, resizeMap2, o2) →
       requestsIn (exchanges (expand.kubeClient resizeMap)
                             (expand.kubeClient resizeMap1))
       = requestsIn (exchanges (expand.kubeClient resizeMap1)
                               (expand.kubeClient resizeMap2))
       ∧ (length (exchanges (expand.kubeClient resizeMap)
                            (expand.kubeClient resizeMap1)) ≤ 1)%nat).
Proof.
  split.
  - intros pvcr newSize h resizeMap h1 resizeMap1 o1 h2 resizeMap2 o2 Hfirst.
    pose proof (UpdatePVSize_frame _ _ _ _ _ _ _ Hfirst) as (Hsub & _).
    revert Hfirst. unfold expand.UpdatePVSize.
    destruct (PersistentVolumes h !! _) as [oldPv|] eqn:Hold.
    2: { intros [= <- <- <-]. rewrite Hold. intros [= <- <- <-].
         rewrite !requestsIn_exchanges_same, exchanges_same.
         split; [done|simpl; lia]. }
    rewrite (lookup_weaken _ _ _ _ Hold Hsub).
    unfold DeepCopyPV, alloc.
    destruct (Marshal oldPv) as [oldData|err].
    2: { intros [= <- <- <-] [= <- <- <-].
         rewrite !requestsIn_exchanges_same, exchanges_same.
         split; [done|simpl; lia]. }
    destruct (expand.assign _ _ _) as [capacity|].
    2: { intros [= <- <- <-] [= <- <- <-].
         rewrite !requestsIn_exchanges_same, exchanges_same.
         split; [done|simpl; lia]. }
    destruct (Marshal _) as [newData|err].
    2: { intros [= <- <- <-] [= <- <- <-].
         rewrite !requestsIn_exchanges_same, exchanges_same.
         split; [done|simpl; lia]. }
    destruct (CreateTwoWayMergePatch _ _ _) as [patchBytes|err].
    2: { intros [= <- <- <-] [= <- <- <-].
         rewrite !requestsIn_exchanges_same, exchanges_same.
         split; [done|simpl; lia]. }
    unfold clientPersistentVolumesPatch.
    destruct (send _ (expand.kubeClient resizeMap)) as [k1 e1] eqn:Hsend1.
    intros [= <- <- <-].
    change (expand.kubeClient (expand.withKubeClient resizeMap k1)) with k1.
    destruct (send _ k1) as [k2 e2] eqn:Hsend2.
    intros [= <- <- <-].
    change (expand.kubeClient
              (expand.withKubeClient (expand.withKubeClient resizeMap k1) k2))
      with k2.
    apply send_requests in Hsend1 as [-> ->].
    apply send_requests in Hsend2 as [-> _]. done.
  - intros pvcr newSize h resizeMap h1 resizeMap1 o1 h2 resizeMap2 o2 Hfirst.
    pose proof (MarkAsResized_frame _ _ _ _ _ _ _ Hfirst) as (Hsub & _).
    revert Hfirst.
    unfold expand.MarkAsResized, expand.updatePVCCapacityAndConditions.
    destruct (PersistentVolumeClaims h !! _) as [c|] eqn:Hc.
    2: { intros [= <- <- <-]. rewrite Hc. intros [= <- <- <-].
         rewrite !requestsIn_exchanges_same, exchanges_same.
         split; [done|simpl; lia]. }
    rewrite (lookup_weaken _ _ _ _ Hc Hsub).
    unfold DeepCopyPVC, alloc.
    destruct (expand.assign _ _ _) as [capacity|].
    2: { intros [= <- <- <-] [= <- <- <-].
         rewrite !requestsIn_exchanges_same, exchanges_same.
         split; [done|simpl; lia]. }
    unfold clientPersistentVolumeClaimsUpdateStatus.
    destruct (send _ (expand.kubeClient resizeMap)) as [k1 e1] eqn:Hsend1.
    intros Hfirst.
    assert (resizeMap1 = expand.withKubeClient resizeMap k1) as ->.
    { by destruct e1; injection Hfirst as <- <- <-. }
    change (expand.kubeClient (expand.withKubeClient resizeMap k1)) with k1.
    destruct (send _ k1) as [k2 e2] eqn:Hsend2.
    intros Hsecond.
    assert (resizeMap2
            = expand.withKubeClient (expand.withKubeClient resizeMap k1) k2)
      as ->.
    { by destruct e2; injection Hsecond as <- <- <-. }
    change (expand.kubeClient
              (expand.withKubeClient (expand.withKubeClient resizeMap k1) k2))
      with k2.
    apply send_requests in Hsend1 as [-> ->].
    apply send_requests in Hsend2 as [-> _]. done.
Qed.

(** X6.  A claim whose status has no capacity map reads as a claim of
    size 0: when it is bound to the volume and requests a positive size,
    [AddPVCUpdate] enqueues it, with the current size 0.  [MarkAsResized]
    of that request then panics on the assignment to the nil map of the
    copy, before anything is sent to the server. *)
Theorem claim_without_capacity_is_enqueued_and_panics (pvc pv : loc)
    (h : Heap) (resizeMap : expand.volumeResizeMap)
    (c : v1.PersistentVolumeClaim) (v : v1.PersistentVolume) :
  PersistentVolumeClaims h !! pvc = Some c →
  PersistentVolumes h !! pv = Some v →
  resizable c v →
  v1.StatusCapacity c = None →
  expand.pvcrs (expand.AddPVCUpdate pvc pv h resizeMap).1
  !! v1.UID (v1.PVCMeta c) = Some (requestFor pvc pv c)
  ∧ expand.CurrentSize (requestFor pvc pv c) = 0%Z
  ∧ ∀ newSize resizeMap',
      (expand.MarkAsResized (requestFor pvc pv c) newSize h resizeMap').2
      = Panicked
      ∧ (expand.MarkAsResized (requestFor pvc pv c) newSize h resizeMap').1.2
        = resizeMap'.
Proof.
  intros Hc Hv Hok Hnil.
  rewrite (AddPVCUpdate_resizable pvc pv h resizeMap c v) by done. simpl.
  split; [apply lookup_insert_eq|]. split.
  - unfold v1.quantityOf. by rewrite Hnil.
  - intros newSize resizeMap'.
    unfold expand.MarkAsResized, expand.updatePVCCapacityAndConditions.
    simpl. rewrite Hc, Hnil. done.
Qed.

Lemma claim_without_capacity_is_enqueued_and_panics_witness :
  PersistentVolumeClaims heapWithoutCapacity !! 1%positive
  = Some claimWithoutCapacity
  ∧ PersistentVolumes heapWithoutCapacity !! 1%positive = Some exampleVolume
  ∧ resizable claimWithoutCapacity exampleVolume
  ∧ v1.StatusCapacity claimWithoutCapacity = None
  ∧ (expand.MarkAsResized (requestFor 1 1 claimWithoutCapacity) 2%Z
       heapWithoutCapacity idleController).2 = Panicked.
Proof.
  assert (PersistentVolumeClaims heapWithoutCapacity !! 1%positive
          = Some claimWithoutCapacity) as Hc by (vm_compute; reflexivity).
  assert (PersistentVolumes heapWithoutCapacity !! 1%positive
          = Some exampleVolume) as Hv by (vm_compute; reflexivity).
  assert (resizable claimWithoutCapacity exampleVolume) as Hok.
  { split; [|split].
    - eexists. split; [reflexivity|]. split; reflexivity.
    - reflexivity.
    - vm_compute. reflexivity. }
  split; [exact Hc|]. split; [exact Hv|]. split; [exact Hok|].
  split; [reflexivity|].
  destruct (claim_without_capacity_is_enqueued_and_panics 1 1
              heapWithoutCapacity idleController claimWithoutCapacity
              exampleVolume Hc Hv Hok eq_refl) as (_ & _ & Hpanics).
  exact (proj1 (Hpanics 2%Z idleController)).
Defined.

(** X7.  [MarkAsResized] of a request whose claim pointer is valid panics
    exactly when the claim's status has no capacity map.  Otherwise it
    sends one status update and nothing else: the claim sent is the cached
    claim with the storage capacity set to the new size and the conditions
    emptied, every other capacity entry and every other field as cached;
    and it returns nil when the server accepts, and the server's error as
    it is when it does not. *)
Theorem MarkAsResized_sends_one_status_update
    (pvcr : expand.PVCWithResizeRequest) (newSize : Quantity) (h : Heap)
    (resizeMap : expand.volumeResizeMap) (c : v1.PersistentVolumeClaim) :
  PersistentVolumeClaims h !! expand.PVC pvcr = Some c →
  ((expand.MarkAsResized pvcr newSize h resizeMap).2 = Panicked
   ↔ v1.StatusCapacity c = None)
  ∧ (v1.StatusCapacity c = None →
     (expand.MarkAsResized pvcr newSize h resizeMap).1.2 = resizeMap)
  ∧ (v1.StatusCapacity c ≠ None →
     ∃ sent verdict,
       exchanges (expand.kubeClient resizeMap)
         (expand.kubeClient (expand.MarkAsResized pvcr newSize h resizeMap).1.2)
       = [(PersistentVolumeClaimsUpdateStatus sent, verdict)]
       ∧ (expand.MarkAsResized pvcr newSize h resizeMap).2
         = Returned (StatusError <$> verdict)
       ∧ v1.quantityOf (v1.StatusCapacity sent) v1.ResourceStorage = newSize
       ∧ (∀ name, name ≠ v1.ResourceStorage →
                  index (v1.StatusCapacity sent) name
                  = index (v1.StatusCapacity c) name)
       ∧ v1.Conditions sent = []
       ∧ v1.PVCMeta sent = v1.PVCMeta c
       ∧ v1.Requests sent = v1.Requests c
       ∧ v1.Phase sent = v1.Phase c).
Proof.
  intros Hc.
  unfold expand.MarkAsResized, expand.updatePVCCapacityAndConditions.
  rewrite Hc. unfold DeepCopyPVC, alloc.
  destruct (v1.StatusCapacity c) as [capacity|] eqn:Hcap; simpl.
  - unfold clientPersistentVolumeClaimsUpdateStatus, send.
    assert (∀ name, name ≠ v1.ResourceStorage →
              <[v1.ResourceStorage := newSize]> capacity !! name
              = capacity !! name) as Hothers.
    { intros name Hname. by apply lookup_insert_ne. }
    destruct (faults _ _ _) as [reason|] eqn:Hverdict; simpl.
    + split; [by split|]. split; [done|]. intros _.
      eexists _, (Some reason).
      rewrite (exchanges_app _ _ [(_, Some reason)]) by done.
      split_and!; try done. unfold v1.quantityOf. simpl.
      by rewrite lookup_insert_eq.
    + split; [by split|]. split; [done|]. intros _.
      eexists _, None.
      rewrite (exchanges_app _ _ [(_, None)]) by done.
      split_and!; try done. unfold v1.quantityOf. simpl.
      by rewrite lookup_insert_eq.
  - split; [done|]. split; [done|]. by intros [].
Qed.

Lemma MarkAsResized_sends_one_status_update_witness :
  PersistentVolumeClaims claimHeap !! expand.PVC exampleRequest
  = Some exampleClaim
  ∧ (expand.MarkAsResized exampleRequest 2%Z claimHeap idleController).2
    ≠ Panicked.
Proof.
  assert (PersistentVolumeClaims claimHeap !! expand.PVC exampleRequest
          = Some exampleClaim) as Hc by (vm_compute; reflexivity).
  split; [exact Hc|].
  destruct (MarkAsResized_sends_one_status_update exampleRequest 2%Z claimHeap
              idleController exampleClaim Hc) as (Hpanics & _).
  intros Hp. apply Hpanics in Hp. discriminate Hp.
Defined.

(** X8.  [UpdatePVSize] returns nil only when the server accepted a patch.
    All it ever sends is one patch, for the volume of the request under
    its name, and the patch is the difference between the serialisation
    of the cached volume and that of a volume that differs from it in the
    storage capacity alone, which is the new size.  Nothing is sent when a
    serialisation or the difference fails. *)
Theorem UpdatePVSize_nil_iff_patch_accepted `{Json}
    (pvcr : expand.PVCWithResizeRequest) (newSize : Quantity) (h h' : Heap)
    (resizeMap resizeMap' : expand.volumeResizeMap) (o : outcome)
    (oldPv : v1.PersistentVolume) :
  PersistentVolumes h !! expand.PersistentVolume pvcr = Some oldPv →
  expand.UpdatePVSize pvcr newSize h resizeMap = (h', resizeMap', o) →
  (o = Returned None
   ↔ ∃ patchBytes,
       exchanges (expand.kubeClient resizeMap) (expand.kubeClient resizeMap')
       = [(PersistentVolumesPatch (v1.Name (v1.PVMeta oldPv)) patchBytes,
           None)])
  ∧ (exchanges (expand.kubeClient resizeMap) (expand.kubeClient resizeMap')
     = []
     ∨ ∃ oldData newData patchBytes verdict newPv,
         exchanges (expand.kubeClient resizeMap)
                   (expand.kubeClient resizeMap')
         = [(PersistentVolumesPatch (v1.Name (v1.PVMeta oldPv)) patchBytes,
             verdict)]
         ∧ o = Returned (StatusError <$> verdict)
         ∧ Marshal oldPv = inl oldData
         ∧ Marshal newPv = inl newData
         ∧ CreateTwoWayMergePatch oldData newData newPv = inl patchBytes
         ∧ v1.quantityOf (v1.SpecCapacity newPv) v1.ResourceStorage = newSize
         ∧ (∀ name, name ≠ v1.ResourceStorage →
                    index (v1.SpecCapacity newPv) name
                    = index (v1.SpecCapacity oldPv) name)
         ∧ v1.PVMeta newPv = v1.PVMeta oldPv
         ∧ v1.ClaimRef newPv = v1.ClaimRef oldPv).
Proof.
  intros Hold. unfold expand.UpdatePVSize. rewrite Hold.
  unfold DeepCopyPV, alloc.
  destruct (Marshal oldPv) as [oldData|err] eqn:Hmarshal.
  2: { intros [= <- <- <-]. rewrite exchanges_same.
       split; [|by left]. split; [done|]. by intros [? ?]. }
  destruct (v1.SpecCapacity oldPv) as [capacity|] eqn:Hcap; simpl.
  2: { intros [= <- <- <-]. rewrite exchanges_same.
       split; [|by left]. split; [done|]. by intros [? ?]. }
  destruct (Marshal (expand.withSpecCapacity oldPv _)) as [newData|err]
    eqn:Hmarshal'.
  2: { intros [= <- <- <-]. rewrite exchanges_same.
       split; [|by left]. split; [done|]. by intros [? ?]. }
  destruct (CreateTwoWayMergePatch _ _ _) as [patchBytes|err] eqn:Hpatch.
  2: { intros [= <- <- <-]. rewrite exchanges_same.
       split; [|by left]. split; [done|]. by intros [? ?]. }
  unfold clientPersistentVolumesPatch, send.
  set (verdict := faults _ _ _). intros [= <- <- <-].
  rewrite (exchanges_app _
             (expand.kubeClient (expand.withKubeClient resizeMap _))
             [(PersistentVolumesPatch (v1.Name (v1.PVMeta oldPv)) patchBytes,
               verdict)]) by done.
  split.
  - split.
    + destruct verdict; [done|]. intros _. by exists patchBytes.
    + intros (bytes & [= _ ->]). done.
  - right. exists oldData, newData, patchBytes, verdict.
    eexists. split_and!; try done.
    + unfold v1.quantityOf. simpl. by rewrite lookup_insert_eq.
    + intros name Hname. simpl. by apply lookup_insert_ne.
Qed.

Lemma UpdatePVSize_nil_iff_patch_accepted_witness :
  PersistentVolumes claimHeap !! expand.PersistentVolume exampleRequest
  = Some exampleVolume
  ∧ ∃ patchBytes,
      exchanges quietClient
        (expand.kubeClient
           (@expand.UpdatePVSize exampleJson exampleRequest 2%Z claimHeap
              idleController).1.2)
      = [(PersistentVolumesPatch "pv-a" patchBytes, None)].
Proof.
  assert (PersistentVolumes claimHeap !! expand.PersistentVolume exampleRequest
          = Some exampleVolume) as Hv by (vm_compute; reflexivity).
  split; [exact Hv|].
  destruct (UpdatePVSize_nil_iff_patch_accepted (H := exampleJson)
              exampleRequest 2%Z claimHeap _ idleController _ _ exampleVolume
              Hv (surjective_run _)) as [Hnil _].
  apply Hnil. vm_compute. reflexivity.
Defined.

(** ** The fan-out, continued *)

Lemma NoDup_within_size (l : list string) (X : gset string) :
  NoDup l → (∀ x, x ∈ l → x ∈ X) → (length l ≤ size X)%nat.
Proof.
  intros Hnd Hin. rewrite <- (size_list_to_set (C := gset string) l Hnd).
  apply subseteq_size. intros x Hx. apply Hin. by apply elem_of_list_to_set in Hx.
Qed.

Lemma length_omap_le {A B} (f : A → option B) (l : list A) :
  (length (omap f l) ≤ length l)%nat.
Proof.
  induction l as [|x l IH]; [done|].
  change (omap f (x :: l))
    with (match f x with Some y => y :: omap f l | None => omap f l end).
  destruct (f x); simpl; lia.
Qed.

Lemma length_asUpdates (sent : list (v1.Pod * option string)) :
  length (asUpdates sent) = length (v1.NodeName <$> sent.*1).
Proof. unfold asUpdates. by rewrite !length_fmap. Qed.

(** X9.  The fan-out only ever updates pods that are scheduled, to nodes
    on which the volume is mounted, and it makes at most one exchange per
    such node and at most one per pod that uses the volume: when the
    volume is mounted nowhere, or no pod uses it, nothing is sent. *)
Theorem fanout_updates_only_scheduled_pods_on_mounted_nodes `{VolumeHelper}
    (pvcName uniqueVolumeName : string) (h h' : Heap)
    (resizeMap resizeMap' : expand.volumeResizeMap) (o : outcome) :
  validPointers h (expand.podLister resizeMap)
    (expand.podsInVolumeGetter resizeMap uniqueVolumeName) →
  expand.MarkForFileSystemResize pvcName uniqueVolumeName h resizeMap
  = (h', resizeMap', o) →
  (∀ q, q ∈ updatesIn (exchanges (expand.kubeClient resizeMap)
                                 (expand.kubeClient resizeMap')) →
        v1.NodeName q ≠ ""
        ∧ v1.NodeName q
          ∈ expand.volumeMountedNodesGetter resizeMap uniqueVolumeName)
  ∧ (length (exchanges (expand.kubeClient resizeMap)
                       (expand.kubeClient resizeMap'))
     ≤ size (mountedNodesOf resizeMap uniqueVolumeName))%nat
  ∧ (length (exchanges (expand.kubeClient resizeMap)
                       (expand.kubeClient resizeMap'))
     ≤ length (expand.podsInVolumeGetter resizeMap uniqueVolumeName))%nat
  ∧ (expand.volumeMountedNodesGetter resizeMap uniqueVolumeName = [] →
     exchanges (expand.kubeClient resizeMap) (expand.kubeClient resizeMap')
     = []).
Proof.
  intros Hvalid Hrun.
  destruct (MarkForFileSystemResize_spec resizeMap pvcName uniqueVolumeName
              _ h h' resizeMap' o eq_refl Hvalid Hrun)
    as (sent & _ & Hcalls & Hnd & Hsent & _).
  rewrite (exchanges_app _ _ _ Hcalls).
  rewrite Forall_forall in Hsent.
  assert (∀ n, n ∈ v1.NodeName <$> sent.*1 →
               n ≠ "" ∧ n ∈ mountedNodesOf resizeMap uniqueVolumeName
               ∧ ∃ l obj,
                   l ∈ expand.podsInVolumeGetter resizeMap uniqueVolumeName
                   ∧ observed h (expand.podLister resizeMap) l = Some obj
                   ∧ v1.NodeName obj = n) as Hnodes.
  { intros n (q & -> & (x & -> & Hx)%list_elem_of_fmap)%list_elem_of_fmap.
    destruct (Hsent x Hx) as (obj & (l & Hl & Hobs & _) & -> & [Hs Hm] & _).
    split; [done|]. split; [done|]. by exists l, obj. }
  assert (length (asUpdates sent)
          ≤ size (mountedNodesOf resizeMap uniqueVolumeName))%nat as Hbound.
  { rewrite length_asUpdates. apply NoDup_within_size; [done|].
    intros n Hn. by apply Hnodes. }
  split; [|split; [done|split]].
  - intros q Hq. rewrite asUpdates_updatesIn in Hq.
    destruct (Hnodes (v1.NodeName q)) as (Hs & Hm & _).
    { apply list_elem_of_fmap. by exists q. }
    split; [done|]. by apply elem_of_list_to_set in Hm.
  - rewrite length_asUpdates.
    transitivity (length (omap (λ l, v1.NodeName
                                       <$> observed h (expand.podLister resizeMap) l)
                               (expand.podsInVolumeGetter resizeMap
                                  uniqueVolumeName))).
    + apply submseteq_length, NoDup_submseteq; [done|].
      intros n Hn. destruct (Hnodes n Hn) as (_ & _ & l & obj & Hl & Hobs & <-).
      apply list_elem_of_omap. exists l. split; [done|]. by rewrite Hobs.
    + apply length_omap_le.
  - intros Hnone.
    assert (mountedNodesOf resizeMap uniqueVolumeName = ∅) as Hempty.
    { unfold mountedNodesOf. by rewrite Hnone. }
    rewrite Hempty, size_empty in Hbound.
    destruct (asUpdates sent); [done|]. simpl in Hbound. lia.
Qed.

Lemma fanout_updates_only_scheduled_pods_on_mounted_nodes_witness :
  validPointers (heapOfPods noneMarked)
    (expand.podLister (controllerOf quietClient noneMarked))
    (expand.podsInVolumeGetter (controllerOf quietClient noneMarked) "vol")
  ∧ (length (exchanges quietClient
               (expand.kubeClient (fanOutOver quietClient noneMarked).1.2))
     ≤ 1)%nat.
Proof.
  assert (validPointers (heapOfPods noneMarked)
            (expand.podLister (controllerOf quietClient noneMarked))
            (expand.podsInVolumeGetter (controllerOf quietClient noneMarked)
               "vol")) as Hvalid by valid_pointers.
  split; [exact Hvalid|].
  destruct (fanout_updates_only_scheduled_pods_on_mounted_nodes
              (H := exampleHelper) "data" "vol" _ _ _ _ _ Hvalid
              (surjective_run (fanOutOver quietClient noneMarked)))
    as (_ & Hbound & _).
  exact Hbound.
Defined.

(** X10.  Marking again is a no-op.  When the lister finds every pod that
    uses the volume and every node with an eligible pod already has a pod
    that carries the signal, the fan-out sends nothing and returns
    nil. *)
Theorem fanout_sends_nothing_when_nodes_are_marked `{VolumeHelper}
    (pvcName uniqueVolumeName : string) (h h' : Heap)
    (resizeMap resizeMap' : expand.volumeResizeMap) (o : outcome) :
  validPointers h (expand.podLister resizeMap)
    (expand.podsInVolumeGetter resizeMap uniqueVolumeName) →
  (∀ l, l ∈ expand.podsInVolumeGetter resizeMap uniqueVolumeName →
        is_Some (observed h (expand.podLister resizeMap) l)) →
  (∀ n obj,
     listedOn h resizeMap uniqueVolumeName n obj →
     eligible (mountedNodesOf resizeMap uniqueVolumeName) obj →
     ∃ obj', listedOn h resizeMap uniqueVolumeName n obj'
             ∧ expand.podHasMarkedForPVCResizing obj' pvcName = true) →
  expand.MarkForFileSystemResize pvcName uniqueVolumeName h resizeMap
  = (h', resizeMap', o) →
  o = Returned None
  ∧ exchanges (expand.kubeClient resizeMap) (expand.kubeClient resizeMap') = []
  ∧ expand.pvcrs resizeMap' = expand.pvcrs resizeMap.
Proof.
  intros Hvalid Hfound Hmarked Hrun.
  destruct (MarkForFileSystemResize_spec resizeMap pvcName uniqueVolumeName
              _ h h' resizeMap' o eq_refl Hvalid Hrun)
    as (sent & Hsame & Hcalls & _ & Hsent & Ho).
  rewrite (exchanges_app _ _ _ Hcalls).
  assert (sent = []) as ->.
  { destruct sent as [|x sent]; [done|].
    apply Forall_cons in Hsent as [(obj & Hl & _ & Hel & Hnone) _].
    destruct (Hmarked _ obj Hl Hel) as (obj' & Hl' & Hmk').
    by rewrite (Hnone obj' Hl') in Hmk'. }
  split; [|split; [done|by rewrite Hsame]].
  destruct o as [[e|]|]; [|done|done].
  destruct Ho as [(_ & l & p & Hl & Hp & Hnone)|(front & q & reason & Hs & _)].
  - destruct (Hfound l Hl) as [obj Hobs]. unfold observed in Hobs.
    by rewrite Hp, Hnone in Hobs.
  - by destruct front.
Qed.

Lemma fanout_sends_nothing_when_nodes_are_marked_witness :
  validPointers (heapOfPods bothMarked)
    (expand.podLister (controllerOf quietClient bothMarked))
    (expand.podsInVolumeGetter (controllerOf quietClient bothMarked) "vol")
  ∧ exchanges quietClient
      (expand.kubeClient (fanOutOver quietClient bothMarked).1.2) = [].
Proof.
  assert (validPointers (heapOfPods bothMarked)
            (expand.podLister (controllerOf quietClient bothMarked))
            (expand.podsInVolumeGetter (controllerOf quietClient bothMarked)
               "vol")) as Hvalid by valid_pointers.
  split; [exact Hvalid|].
  refine (proj1 (proj2 (fanout_sends_nothing_when_nodes_are_marked
                          (H := exampleHelper) "data" "vol" _ _ _ _ _
                          Hvalid _ _
                          (surjective_run (fanOutOver quietClient bothMarked))))).
  - intros l Hl. cbn in Hl. cases_of_list Hl; subst l; vm_compute;
      eexists; reflexivity.
  - intros n obj (l & Hl & Hobs & Hn) _.
    exists (examplePod "pod-x" "n1" "Running" (signal "yes")). split.
    + exists 1%positive. split; [apply list_elem_of_here|].
      split; [vm_compute; reflexivity|].
      rewrite <- Hn. cbn in Hl. cases_of_list Hl; subst l;
        vm_compute in Hobs; injection Hobs as <-; reflexivity.
    + vm_compute. reflexivity.
Defined.

(** X11.  How the fan-out ends, on valid pointers.  It never panics.  When
    it returns nil, the server accepted every update it was sent.  When it
    returns an error, either the lister missed a pod and nothing was sent,
    or the error is the server's answer to the last update sent, returned
    as it is, and every update before that one was accepted: the call
    stops at the first refusal. *)
Theorem fanout_stops_at_first_refusal `{VolumeHelper}
    (pvcName uniqueVolumeName : string) (h h' : Heap)
    (resizeMap resizeMap' : expand.volumeResizeMap) (o : outcome) :
  validPointers h (expand.podLister resizeMap)
    (expand.podsInVolumeGetter resizeMap uniqueVolumeName) →
  expand.MarkForFileSystemResize pvcName uniqueVolumeName h resizeMap
  = (h', resizeMap', o) →
  o ≠ Panicked
  ∧ (o = Returned None →
     Forall (λ x, x.2 = None)
       (exchanges (expand.kubeClient resizeMap) (expand.kubeClient resizeMap')))
  ∧ (∀ e, o = Returned (Some e) →
          (exchanges (expand.kubeClient resizeMap)
                     (expand.kubeClient resizeMap') = []
           ∧ ∃ l p, l ∈ expand.podsInVolumeGetter resizeMap uniqueVolumeName
                    ∧ Pods h !! l = Some p
                    ∧ expand.podLister resizeMap !! podKey p = None)
          ∨ ∃ front q reason,
              exchanges (expand.kubeClient resizeMap)
                        (expand.kubeClient resizeMap')
              = front ++ [(PodsUpdate q, Some reason)]
              ∧ Forall (λ x, x.2 = None) front
              ∧ e = StatusError reason).
Proof.
  intros Hvalid Hrun.
  destruct (MarkForFileSystemResize_spec resizeMap pvcName uniqueVolumeName
              _ h h' resizeMap' o eq_refl Hvalid Hrun)
    as (sent & _ & Hcalls & _ & _ & Ho).
  rewrite (exchanges_app _ _ _ Hcalls).
  split; [by intros ->|]. split.
  - intros ->. destruct Ho as [Hacc _]. unfold asUpdates.
    apply Forall_fmap. eapply Forall_impl; [exact Hacc|]. done.
  - intros e ->.
    destruct Ho as [(-> & Hfail)|(front & q & reason & -> & Hacc & ->)].
    + by left.
    + right. exists (asUpdates front), q, reason. unfold asUpdates.
      rewrite fmap_app. split; [done|]. split; [|done].
      apply Forall_fmap. eapply Forall_impl; [exact Hacc|]. done.
Qed.

Lemma fanout_stops_at_first_refusal_witness :
  validPointers (heapOfPods noneMarked)
    (expand.podLister (controllerOf refusingClient noneMarked))
    (expand.podsInVolumeGetter (controllerOf refusingClient noneMarked) "vol")
  ∧ (fanOutOver refusingClient noneMarked).2
    = Returned (Some (StatusError "Conflict"))
  ∧ length (exchanges refusingClient
              (expand.kubeClient (fanOutOver refusingClient noneMarked).1.2))
    = 1.
Proof.
  assert (validPointers (heapOfPods noneMarked)
            (expand.podLister (controllerOf refusingClient noneMarked))
            (expand.podsInVolumeGetter (controllerOf refusingClient noneMarked)
               "vol")) as Hvalid by valid_pointers.
  assert ((fanOutOver refusingClient noneMarked).2
          = Returned (Some (StatusError "Conflict"))) as Hends
    by (vm_compute; reflexivity).
  split; [exact Hvalid|]. split; [exact Hends|].
  destruct (fanout_stops_at_first_refusal (H := exampleHelper) "data" "vol"
              _ _ _ _ _ Hvalid
              (surjective_run (fanOutOver refusingClient noneMarked)))
    as (_ & _ & Herror).
  destruct (Herror _ Hends) as [(_ & l & p & Hl & Hp & Hmissing)
                               |(front & q & reason & Hlog & Hfront & _)].
  - exfalso. cbn in Hl. cases_of_list Hl; subst l; vm_compute in Hp;
      injection Hp as <-; vm_compute in Hmissing; discriminate Hmissing.
  - vm_compute. reflexivity.
Defined.

(** ** The cache of the node, continued *)

Lemma GetVolumesToResize_batch (resizeMap : volumemanager.volumeFsResizeMap) :
  (volumemanager.GetVolumesToResize resizeMap).1
  = (flatten (map_to_list (volumemanager.pods resizeMap))).*2.
Proof. exact (foldl_nested_snoc _ []). Qed.

Lemma elem_of_batch (resizeMap : volumemanager.volumeFsResizeMap)
    (e : volumemanager.VolumeToResize) :
  e ∈ (volumemanager.GetVolumesToResize resizeMap).1
  ↔ ∃ podName volumeName, pending resizeMap podName volumeName = Some e.
Proof.
  rewrite GetVolumesToResize_batch, list_elem_of_fmap. unfold pending. split.
  - intros ([[podName volumeName] e'] & -> & Hin).
    apply elem_of_flatten in Hin as (volumes & Hin & He).
    apply elem_of_map_to_list in Hin. exists podName, volumeName.
    by rewrite Hin.
  - intros (podName & volumeName & He).
    destruct (volumemanager.pods resizeMap !! podName) as [volumes|] eqn:Hpod;
      [|done].
    exists ((podName, volumeName), e). split; [done|].
    apply elem_of_flatten. exists volumes. split; [|done].
    by apply elem_of_map_to_list.
Qed.

(** X12.  [AddVolumeForPod] with a valid pod pointer returns normally and
    writes one pair: the entry of the pod's identity and the volume is the
    pointer and the name it was given, every other pair of the cache keeps
    what it had, and adding the same again changes nothing.  The next
    drain hands the entry out.  With a pointer to no pod the call panics
    and leaves the cache as it was. *)
Theorem AddVolumeForPod_writes_one_pair
    (volumeName : string) (l : loc) (h : Heap)
    (resizeMap : volumemanager.volumeFsResizeMap) :
  (∀ p, Pods h !! l = Some p →
     (volumemanager.AddVolumeForPod volumeName l h resizeMap).2
     = Returned None
     ∧ pending (volumemanager.AddVolumeForPod volumeName l h resizeMap).1
               (GetUniquePodName p) volumeName
       = Some {| volumemanager.Pod := l;
                 volumemanager.VolumeName := volumeName |}
     ∧ (∀ podName' volumeName',
          ¬ (podName' = GetUniquePodName p ∧ volumeName' = volumeName) →
          pending (volumemanager.AddVolumeForPod volumeName l h resizeMap).1
                  podName' volumeName'
          = pending resizeMap podName' volumeName')
     ∧ (volumemanager.AddVolumeForPod volumeName l h
          (volumemanager.AddVolumeForPod volumeName l h resizeMap).1).1
       = (volumemanager.AddVolumeForPod volumeName l h resizeMap).1
     ∧ {| volumemanager.Pod := l; volumemanager.VolumeName := volumeName |}
       ∈ (volumemanager.GetVolumesToResize
            (volumemanager.AddVolumeForPod volumeName l h resizeMap).1).1)
  ∧ (Pods h !! l = None →
     volumemanager.AddVolumeForPod volumeName l h resizeMap
     = (resizeMap, Panicked)).
Proof.
  split.
  - intros p Hp.
    destruct (AddVolumeForPod_spec volumeName l h resizeMap p Hp)
      as (resizeMap' & Hrun & _ & Hpending).
    rewrite Hrun. simpl.
    assert (pending resizeMap' (GetUniquePodName p) volumeName
            = Some {| volumemanager.Pod := l;
                      volumemanager.VolumeName := volumeName |}) as Hentry.
    { rewrite Hpending. by rewrite decide_True. }
    split; [done|]. split; [done|]. split; [|split].
    + intros podName' volumeName' Hother. rewrite Hpending.
      by rewrite decide_False.
    + revert Hrun. unfold volumemanager.AddVolumeForPod. rewrite Hp.
      intros [= <-]. simpl. rewrite lookup_insert_eq.
      unfold volumemanager.withPods. simpl. f_equal.
      by rewrite !insert_insert_eq.
    + apply elem_of_batch. by exists (GetUniquePodName p), volumeName.
  - intros Hp. unfold volumemanager.AddVolumeForPod. by rewrite Hp.
Qed.

Lemma AddVolumeForPod_writes_one_pair_witness :
  Pods (heapOfPods [signalledPod]) !! 1%positive = Some signalledPod
  ∧ {| volumemanager.Pod := 1%positive; volumemanager.VolumeName := "data" |}
    ∈ (volumemanager.GetVolumesToResize
         (volumemanager.AddVolumeForPod "data" 1
            (heapOfPods [signalledPod])
            (volumemanager.NewVolumeFsResizeMap quietClient)).1).1.
Proof.
  assert (Pods (heapOfPods [signalledPod]) !! 1%positive = Some signalledPod)
    as Hp by (vm_compute; reflexivity).
  split; [exact Hp|].
  destruct (AddVolumeForPod_writes_one_pair "data" 1
              (heapOfPods [signalledPod])
              (volumemanager.NewVolumeFsResizeMap quietClient)) as [Hadds _].
  destruct (Hadds signalledPod Hp) as (_ & _ & _ & _ & Hdrained).
  exact Hdrained.
Defined.

Lemma MarkAsFileSystemResized_frame `{VolumeHelper} (pod : option loc)
    (volumeName : string) (h h' : Heap)
    (resizeMap resizeMap' : volumemanager.volumeFsResizeMap) (o : outcome) :
  volumemanager.MarkAsFileSystemResized pod volumeName h resizeMap
  = (h', resizeMap', o) →
  Pods h ⊆ Pods h'
  ∧ PersistentVolumes h' = PersistentVolumes h
  ∧ PersistentVolumeClaims h' = PersistentVolumeClaims h
  ∧ volumemanager.pods resizeMap' = volumemanager.pods resizeMap.
Proof.
  unfold volumemanager.MarkAsFileSystemResized, clientPodsGet.
  destruct pod as [l|]; [|by intros [= <- <- <-]].
  destruct (Pods h !! l) as [p|] eqn:Hp; [|by intros [= <- <- <-]].
  destruct (faults _ _ (PodsGet _ _)) as [reason|];
    [by intros [= <- <- <-]|].
  destruct (found _ _ _ _) as [obj|]; [|by intros [= <- <- <-]].
  destruct (DeepCopyPod obj h) as [podObj h1] eqn:Hcopy.
  apply DeepCopyPod_spec in Hcopy as [Hfresh ->]. simpl.
  rewrite lookup_insert_eq.
  assert (Pods h ⊆ <[podObj := obj]> (Pods h)) as Hsub
    by (by apply insert_subseteq).
  destruct (index _ _) as [value|]; [|by intros [= <- <- <-]].
  assert (∀ obj', Pods h ⊆ <[podObj := obj']> (<[podObj := obj]> (Pods h)))
    as Hsub'.
  { intros obj'. rewrite insert_insert_eq. by apply insert_subseteq. }
  unfold clientPodsUpdate, send.
  destruct (faults _ _ (PodsUpdate _)); intros [= <- <- <-];
    (split; [apply Hsub'|done]).
Qed.

Lemma nodeKeyed_grow (h h' : Heap)
    (resizeMap resizeMap' : volumemanager.volumeFsResizeMap) :
  Pods h ⊆ Pods h' →
  volumemanager.pods resizeMap' = volumemanager.pods resizeMap →
  nodeKeyed h resizeMap → nodeKeyed h' resizeMap'.
Proof.
  intros Hsub Hsame Hkeyed podName volumeName e He.
  unfold pending in He. rewrite Hsame in He.
  destruct (Hkeyed podName volumeName e He) as (Hname & p & Hp & Hid).
  split; [done|]. exists p. split; [|done]. by eapply lookup_weaken.
Qed.

(** X13.  The node cache keeps every entry under the identity of the pod
    it points to and under the volume name it carries.  That holds for the
    new cache, every method of the cache preserves it, and so does an
    iteration of the populator over valid pointers.  In a batch drained
    from such a cache no entry occurs twice. *)
Theorem entries_are_keyed_by_pod_and_volume `{VolumeHelper} :
  (∀ h client, nodeKeyed h (volumemanager.NewVolumeFsResizeMap client))
  ∧ (∀ volumeName l h resizeMap,
       nodeKeyed h resizeMap →
       nodeKeyed h (volumemanager.AddVolumeForPod volumeName l h resizeMap).1)
  ∧ (∀ h resizeMap,
       nodeKeyed h (volumemanager.GetVolumesToResize resizeMap).2)
  ∧ (∀ pod volumeName h resizeMap h' resizeMap' o,
       volumemanager.MarkAsFileSystemResized pod volumeName h resizeMap
       = (h', resizeMap', o) →
       nodeKeyed h resizeMap → nodeKeyed h' resizeMap')
  ∧ (∀ populator h resizeMap h' resizeMap' o,
       (∀ l, l ∈ populator.podManager populator → is_Some (Pods h !! l)) →
       populator.populate populator h resizeMap = (h', resizeMap', o) →
       nodeKeyed h resizeMap → nodeKeyed h' resizeMap')
  ∧ (∀ h resizeMap,
       nodeKeyed h resizeMap →
       NoDup (volumemanager.GetVolumesToResize resizeMap).1).
Proof.
  split; [by intros h client podName volumeName e ?|].
  split.
  { intros volumeName l h resizeMap Hkeyed.
    destruct (Pods h !! l) as [p|] eqn:Hp.
    2: { unfold volumemanager.AddVolumeForPod. by rewrite Hp. }
    destruct (AddVolumeForPod_spec volumeName l h resizeMap p Hp)
      as (resizeMap' & -> & _ & Hpending).
    intros podName' volumeName' e. simpl. rewrite Hpending.
    case_decide as Hpair; [|apply Hkeyed].
    destruct Hpair as [-> ->]. intros [= <-]. simpl.
    split; [done|]. by exists p. }
  split; [by intros h resizeMap podName volumeName e ?|].
  split.
  { intros pod volumeName h resizeMap h' resizeMap' o Hrun.
    apply MarkAsFileSystemResized_frame in Hrun as (Hsub & _ & _ & Hsame).
    by apply nodeKeyed_grow. }
  split.
  { intros populator h resizeMap h' resizeMap' o Hvalid Hrun Hkeyed.
    unfold populator.populate, populator.addNewPods in Hrun.
    apply (rangePods_spec populator h) in Hrun
      as (_ & Hsub & _ & _ & _ & Hcache); [|done..].
    intros podName volumeName e He.
    destruct (Hcache podName volumeName) as [Hnew Hold].
    destruct (wanted_dec populator h (populator.podManager populator)
                podName volumeName) as [Hw|Hnw].
    - destruct (Hnew Hw) as (e' & p & He' & Hname & _ & Hcell & _ & (Hid & _)).
      rewrite He' in He. injection He as <-. split; [done|]. by exists p.
    - rewrite (Hold Hnw) in He.
      destruct (Hkeyed podName volumeName e He) as (Hname & p & Hp & Hid).
      split; [done|]. exists p. split; [|done]. by eapply lookup_weaken. }
  intros h resizeMap Hkeyed. rewrite GetVolumesToResize_batch.
  set (keyed := flatten (map_to_list (volumemanager.pods resizeMap))).
  assert (NoDup keyed.*1) as Hnd.
  { apply NoDup_flatten_keys, NoDup_fst_map_to_list. }
  assert (Forall (λ x, (GetUniquePodName
                          <$> Pods h !! volumemanager.Pod x.2,
                        volumemanager.VolumeName x.2)
                       = (Some x.1.1, x.1.2)) keyed) as Hkeys.
  { apply Forall_forall. intros [[podName volumeName] e] Hin.
    apply elem_of_flatten in Hin as (volumes & Hin & He).
    apply elem_of_map_to_list in Hin.
    destruct (Hkeyed podName volumeName e) as (Hname & p & Hp & Hid).
    { unfold pending. by rewrite Hin. }
    simpl. by rewrite Hp, Hname, <- Hid. }
  apply (NoDup_fmap_1 (λ e, (GetUniquePodName
                               <$> Pods h !! volumemanager.Pod e,
                             volumemanager.VolumeName e))).
  assert ((λ e, (GetUniquePodName <$> Pods h !! volumemanager.Pod e,
                 volumemanager.VolumeName e)) <$> keyed.*2
          = (λ k : string * string, (Some k.1, k.2)) <$> keyed.*1) as ->.
  { rewrite <- !list_fmap_compose. by apply Forall_fmap_ext. }
  apply NoDup_fmap_2; [|done]. by intros [??] [??] [= -> ->].
Qed.

(** ** The populator, continued *)

Lemma elem_of_batch_keys (resizeMap : volumemanager.volumeFsResizeMap)
    (podName volumeName : string) :
  (podName, volumeName)
    ∈ (flatten (map_to_list (volumemanager.pods resizeMap))).*1
  ↔ is_Some (pending resizeMap podName volumeName).
Proof.
  rewrite list_elem_of_fmap. unfold pending. split.
  - intros ([[podName' volumeName'] e] & [= -> ->] & Hin).
    apply elem_of_flatten in Hin as (volumes & Hin & He).
    apply elem_of_map_to_list in Hin. rewrite Hin. by exists e.
  - intros [e He].
    destruct (volumemanager.pods resizeMap !! podName) as [volumes|] eqn:Hpod;
      [|done].
    exists ((podName, volumeName), e). split; [done|].
    apply elem_of_flatten. exists volumes. split; [|done].
    by apply elem_of_map_to_list.
Qed.

Lemma length_batch (resizeMap resizeMap' : volumemanager.volumeFsResizeMap) :
  (∀ podName volumeName,
     is_Some (pending resizeMap' podName volumeName)
     ↔ is_Some (pending resizeMap podName volumeName)) →
  length (volumemanager.GetVolumesToResize resizeMap').1
  = length (volumemanager.GetVolumesToResize resizeMap).1.
Proof.
  intros Hsame. rewrite !GetVolumesToResize_batch, !length_fmap.
  rewrite <- (length_fmap fst (flatten (map_to_list
                                 (volumemanager.pods resizeMap')))).
  rewrite <- (length_fmap fst (flatten (map_to_list
                                 (volumemanager.pods resizeMap)))).
  apply Permutation_length, NoDup_Permutation.
  - apply NoDup_flatten_keys, NoDup_fst_map_to_list.
  - apply NoDup_flatten_keys, NoDup_fst_map_to_list.
  - intros [podName volumeName]. rewrite !elem_of_batch_keys. apply Hsame.
Qed.

(** X14.  An iteration of the populator talks to no server and touches no
    volume and no claim.  An iteration that follows another one with no
    drain in between, the pod manager showing the same pods, leaves the
    cache with the same pairs of pod and volume: it replaces entries and
    adds none, so the next batch has the size it would have had. *)
Theorem populate_again_adds_no_entry `{VolumeHelper}
    (populator : populator.volumeFsResizeMapPopulator) (h h1 h2 : Heap)
    (resizeMap resizeMap1 resizeMap2 : volumemanager.volumeFsResizeMap)
    (o1 o2 : outcome) :
  (∀ l, l ∈ populator.podManager populator → is_Some (Pods h !! l)) →
  populator.populate populator h resizeMap = (h1, resizeMap1, o1) →
  populator.populate populator h1 resizeMap1 = (h2, resizeMap2, o2) →
  volumemanager.kubeClient resizeMap2 = volumemanager.kubeClient resizeMap
  ∧ PersistentVolumes h2 = PersistentVolumes h
  ∧ PersistentVolumeClaims h2 = PersistentVolumeClaims h
  ∧ (∀ podName volumeName,
       is_Some (pending resizeMap2 podName volumeName)
       ↔ is_Some (pending resizeMap1 podName volumeName))
  ∧ length (volumemanager.GetVolumesToResize resizeMap2).1
    = length (volumemanager.GetVolumesToResize resizeMap1).1.
Proof.
  intros Hvalid Hrun1 Hrun2.
  unfold populator.populate, populator.addNewPods in Hrun1, Hrun2.
  apply (rangePods_spec populator h) in Hrun1
    as (_ & Hsub1 & Hpv1 & Hpvc1 & Hclient1 & Hcache1); [|done..].
  apply (rangePods_spec populator h) in Hrun2
    as (_ & Hsub2 & Hpv2 & Hpvc2 & Hclient2 & Hcache2); [|done..].
  assert (∀ podName volumeName,
            is_Some (pending resizeMap2 podName volumeName)
            ↔ is_Some (pending resizeMap1 podName volumeName)) as Hsame.
  { intros podName volumeName.
    destruct (Hcache1 podName volumeName) as [Hnew1 _].
    destruct (Hcache2 podName volumeName) as [Hnew2 Hold2].
    destruct (wanted_dec populator h (populator.podManager populator)
                podName volumeName) as [Hw|Hnw].
    - destruct (Hnew1 Hw) as (e1 & ? & -> & _).
      destruct (Hnew2 Hw) as (e2 & ? & -> & _). by split; eexists.
    - by rewrite (Hold2 Hnw). }
  split; [congruence|]. split; [congruence|]. split; [congruence|].
  split; [done|]. by apply length_batch.
Qed.

Lemma populate_again_adds_no_entry_witness :
  (∀ l, l ∈ populator.podManager (watching None) →
        is_Some (Pods (heapOfPods [signalledPod]) !! l))
  ∧ volumemanager.kubeClient repeatedCycle.1.2 = quietClient
  ∧ length (volumemanager.GetVolumesToResize repeatedCycle.1.2).1
    = length (volumemanager.GetVolumesToResize firstCycle.1.2).1.
Proof.
  assert (∀ l, l ∈ populator.podManager (watching None) →
               is_Some (Pods (heapOfPods [signalledPod]) !! l)) as Hvalid.
  { intros l Hl. cbn in Hl. cases_of_list Hl. subst l. vm_compute. by eexists. }
  split; [exact Hvalid|].
  destruct (populate_again_adds_no_entry (H := exampleHelper)
              (watching None) _ _ _ _ _ _ _ _ Hvalid
              (surjective_run firstCycle) (surjective_run repeatedCycle))
    as (Hclient & _ & _ & _ & Hlength).
  split; [exact Hclient|exact Hlength].
Defined.

(** ** The handshake, from the mark to the clearing *)

(** X15.  The controller marks a pod with one update, which sends the pod
    with the annotation of the volume set to "yes"; a populator that does
    not take that pod for terminated wants the volume resized for it.
    When the node then reads that pod back and clears the signal of the
    same volume, its update sends the pod with the annotation gone and
    every other annotation, the identity, the node and the status as the
    controller found them; the method returns nil exactly when the server
    accepts that update, and no populator wants the volume resized for the
    pod it sent. *)
Theorem signal_set_by_controller_is_cleared_by_node `{VolumeHelper}
    (pod : loc) (pvcName : string) (p : v1.Pod) (h h1 : Heap)
    (k k1 : KubeClient) (o1 : outcome)
    (l : loc) (q : v1.Pod) (hn hn' : Heap)
    (resizeMap resizeMap' : volumemanager.volumeFsResizeMap) (o : outcome) :
  Pods h !! pod = Some p →
  expand.updatePodAnnotationForPVCResizing pod pvcName h k = (h1, k1, o1) →
  Pods hn !! l = Some q →
  faults (volumemanager.kubeClient resizeMap)
         (calls (volumemanager.kubeClient resizeMap))
         (PodsGet (v1.Namespace (v1.PodMeta q)) (v1.Name (v1.PodMeta q)))
  = None →
  (∀ sent verdict,
     (PodsUpdate sent, verdict) ∈ exchanges k k1 →
     found (volumemanager.kubeClient resizeMap)
           (calls (volumemanager.kubeClient resizeMap))
           (v1.Namespace (v1.PodMeta q)) (v1.Name (v1.PodMeta q))
     = Some sent) →
  volumemanager.MarkAsFileSystemResized (Some l) pvcName hn resizeMap
  = (hn', resizeMap', o) →
  ∃ sent cleared verdict,
    exchanges k k1 = [(PodsUpdate sent, faults k (calls k) (PodsUpdate sent))]
    ∧ (∀ populator,
         populator.isPodTerminated populator sent = false →
         wantedBy populator sent (GetUniquePodName p) pvcName)
    ∧ exchanges (volumemanager.kubeClient resizeMap)
                (volumemanager.kubeClient resizeMap')
      = [(PodsGet (v1.Namespace (v1.PodMeta q)) (v1.Name (v1.PodMeta q)), None);
         (PodsUpdate cleared, verdict)]
    ∧ (o = Returned None ↔ verdict = None)
    ∧ podKey cleared = podKey p
    ∧ v1.UID (v1.PodMeta cleared) = v1.UID (v1.PodMeta p)
    ∧ v1.NodeName cleared = v1.NodeName p
    ∧ v1.Status cleared = v1.Status p
    ∧ (∀ key,
         index (v1.Annotations (v1.PodMeta cleared)) key
         = if decide (key = GetVolumeFsResizeAnnotation pvcName)
           then None
           else index (v1.Annotations (v1.PodMeta p)) key)
    ∧ ∀ populator podName, ¬ wantedBy populator cleared podName pvcName.
Proof.
  intros Hp Hmark Hq Hfault Hfound.
  unfold expand.updatePodAnnotationForPVCResizing in Hmark.
  rewrite Hp in Hmark. unfold clientPodsUpdate, send in Hmark.
  injection Hmark as <- <- <-.
  set (sent := expand.annotated p pvcName) in *.
  assert (exchanges k (logged (PodsUpdate sent)
                         (faults k (calls k) (PodsUpdate sent)) k)
          = [(PodsUpdate sent, faults k (calls k) (PodsUpdate sent))])
    as Hsent by (by apply exchanges_app).
  rewrite Hsent in Hfound |- *.
  specialize (Hfound sent _ (list_elem_of_here _ _)).
  unfold volumemanager.MarkAsFileSystemResized, clientPodsGet.
  rewrite Hq, Hfault, Hfound.
  destruct (DeepCopyPod sent hn) as [podObj h2] eqn:Hcopy.
  apply DeepCopyPod_spec in Hcopy as [Hfresh ->]. simpl.
  rewrite lookup_insert_eq.
  set (annKey := GetVolumeFsResizeAnnotation pvcName).
  set (annotations := match v1.Annotations (v1.PodMeta p) with
                      | Some a => a
                      | None => ∅
                      end).
  assert (v1.Annotations (v1.PodMeta sent)
          = Some (<[annKey := "yes"]> annotations)) as Hann by done.
  rewrite Hann. simpl. rewrite lookup_insert_eq.
  set (cleared := withAnnotations sent
                    (Some (delete annKey (<[annKey := "yes"]> annotations)))).
  set (verdict := faults _ _ (PodsUpdate cleared)).
  intros Hres. exists sent, cleared, verdict.
  split; [done|]. split.
  { intros populator Hlive. split; [done|]. split; [done|].
    rewrite Hann. simpl. apply lookup_insert_eq. }
  assert (∀ key, index (v1.Annotations (v1.PodMeta cleared)) key
                 = if decide (key = annKey) then None
                   else index (v1.Annotations (v1.PodMeta p)) key) as Hindex.
  { intros key. simpl. case_decide as Hkey; [subst; apply lookup_delete_eq|].
    rewrite lookup_delete_ne, lookup_insert_ne by done.
    unfold annotations. by destruct (v1.Annotations (v1.PodMeta p)). }
  assert (∀ populator podName, ¬ wantedBy populator cleared podName pvcName)
    as Hcleared.
  { intros populator podName (_ & _ & Hyes). fold annKey in Hyes.
    rewrite Hindex, decide_True in Hyes by done. discriminate Hyes. }
  unfold clientPodsUpdate, send in Hres. fold cleared verdict in Hres.
  destruct verdict as [reason|]; simpl in Hres; injection Hres as <- <- <-.
  - split; [apply exchanges_app; simpl; by rewrite <- app_assoc|].
    split; [split; congruence|done].
  - split; [apply exchanges_app; simpl; by rewrite <- app_assoc|].
    split; [split; congruence|done].
Qed.

Lemma signal_set_by_controller_is_cleared_by_node_witness :
  Pods (heapOfPods [plainPod]) !! 1%positive = Some plainPod
  ∧ Pods (heapOfPods [signalledPod]) !! 1%positive = Some signalledPod
  ∧ ∃ cleared verdict,
      exchanges servingClient (volumemanager.kubeClient nodeClears.1.2)
      = [(PodsGet "default" "pod-x", None); (PodsUpdate cleared, verdict)]
      ∧ (nodeClears.2 = Returned None ↔ verdict = None)
      ∧ v1.NodeName cleared = "n1"
      ∧ index (v1.Annotations (v1.PodMeta cleared))
              (@GetVolumeFsResizeAnnotation exampleHelper "data") = None.
Proof.
  assert (Pods (heapOfPods [plainPod]) !! 1%positive = Some plainPod)
    as Hp by (vm_compute; reflexivity).
  assert (Pods (heapOfPods [signalledPod]) !! 1%positive = Some signalledPod)
    as Hq by (vm_compute; reflexivity).
  assert (∀ sent verdict,
            (PodsUpdate sent, verdict)
              ∈ exchanges quietClient controllerMarks.1.2 →
            found servingClient (calls servingClient) "default" "pod-x"
            = Some sent) as Hfound.
  { intros sent verdict Hin. vm_compute in Hin. cases_of_list Hin.
    injection Hin as -> ->. vm_compute. reflexivity. }
  split; [exact Hp|]. split; [exact Hq|].
  destruct (signal_set_by_controller_is_cleared_by_node (H := exampleHelper)
              1%positive "data" plainPod _ _ _ _ _
              1%positive signalledPod _ _
              (volumemanager.NewVolumeFsResizeMap servingClient) _ _
              Hp (surjective_run controllerMarks) Hq eq_refl Hfound
              (surjective_run nodeClears))
    as (sent & cleared & verdict & _ & _ & Hcleared & Hverdict & _ & _ & Hnode
        & _ & Hindex & _).
  exists cleared, verdict.
  split; [exact Hcleared|]. split; [exact Hverdict|]. split; [exact Hnode|].
  rewrite Hindex. apply decide_True. reflexivity.
Defined.

(** X16.  Clearing the signal is a matter between the node and the
    server: [MarkAsFileSystemResized] edits the pod it read back, so it
    leaves every pod that existed before as it was, and it leaves the
    entries of the cache alone.  As long as the pod manager shows a live
    pod with the annotation of a volume set to "yes", the next iteration
    of the populator enqueues that pod and volume again, cleared or not. *)
Theorem cleared_signal_is_enqueued_until_pod_manager_sees_it
    `{VolumeHelper} (populator : populator.volumeFsResizeMapPopulator)
    (pod : option loc) (volumeName : string) (h h1 h2 : Heap)
    (resizeMap resizeMap1 resizeMap2 : volumemanager.volumeFsResizeMap)
    (o1 o2 : outcome) :
  (∀ l, l ∈ populator.podManager populator → is_Some (Pods h !! l)) →
  volumemanager.MarkAsFileSystemResized pod volumeName h resizeMap
  = (h1, resizeMap1, o1) →
  populator.populate populator h1 resizeMap1 = (h2, resizeMap2, o2) →
  (∀ l p, Pods h !! l = Some p → Pods h1 !! l = Some p)
  ∧ volumemanager.pods resizeMap1 = volumemanager.pods resizeMap
  ∧ ∀ podName volumeName',
      wanted populator h (populator.podManager populator) podName volumeName' →
      ∃ e p, pending resizeMap2 podName volumeName' = Some e
             ∧ Pods h2 !! volumemanager.Pod e = Some p
             ∧ wantedBy populator p podName volumeName'.
Proof.
  intros Hvalid Hclear Hrun.
  apply MarkAsFileSystemResized_frame in Hclear as (Hsub & _ & _ & Hsame).
  split; [intros l p Hl; by eapply lookup_weaken|]. split; [done|].
  unfold populator.populate, populator.addNewPods in Hrun.
  apply (rangePods_spec populator h) in Hrun
    as (_ & _ & _ & _ & _ & Hcache); [|done..].
  intros podName volumeName' Hwanted.
  destruct (Hcache podName volumeName') as [Hnew _].
  destruct (Hnew Hwanted) as (e & p & He & _ & _ & Hcell & _ & Hw).
  by exists e, p.
Qed.

Lemma cleared_signal_is_enqueued_until_pod_manager_sees_it_witness :
  (∀ l, l ∈ populator.podManager (watching None) →
        is_Some (Pods (heapOfPods [signalledPod]) !! l))
  ∧ nodeClears.2 = Returned None
  ∧ is_Some (pending cycleAfterClearing.1.2 "uid-pod-x" "data").
Proof.
  assert (∀ l, l ∈ populator.podManager (watching None) →
               is_Some (Pods (heapOfPods [signalledPod]) !! l)) as Hvalid.
  { intros l Hl. cbn in Hl. cases_of_list Hl. subst l. vm_compute. by eexists. }
  assert (wanted (H := exampleHelper) (watching None)
            (heapOfPods [signalledPod]) (populator.podManager (watching None))
            "uid-pod-x" "data") as Hwanted.
  { exists 1%positive, signalledPod. split; [by left|].
    split; vm_compute; [reflexivity|]. by split. }
  split; [exact Hvalid|]. split; [vm_compute; reflexivity|].
  destruct (cleared_signal_is_enqueued_until_pod_manager_sees_it
              (H := exampleHelper) (watching None) (Some 1%positive) "data"
              _ _ _ _ _ _ _ _ Hvalid
              (surjective_run nodeClears) (surjective_run cycleAfterClearing))
    as (_ & _ & Hagain).
  destruct (Hagain "uid-pod-x" "data" Hwanted) as (e & p & He & _).
  exists e. exact He.
Defined.

(** ** The device mounter of the rbd plugin *)

Section rbd_properties.
Context `{rbd.Plugin}.

Lemma events_app (n n' : rbd.Node) (new : list rbd.Event) :
  rbd.trace n' = rbd.trace n ++ new → events n n' = new.
Proof. intros Htrace. unfold events. rewrite Htrace. apply drop_app_length. Qed.

(** Case analysis on the membership of an event in a run, and the search
    for an event in a run. *)
Ltac in_events :=
  repeat match goal with
  | H : _ ∈ _ |- _ =>
      first [ apply elem_of_nil in H; destruct H
            | apply elem_of_cons in H as [H|H]
            | apply elem_of_app in H as [H|H] ]
  end;
  simplify_eq/=.

Ltac find_events :=
  repeat first [ split | eexists | intros ? ];
  first [ done | lia | congruence
        | eauto 12 using list_elem_of_here, list_elem_of_further ].

(** The runs of [UnmountDevice], one by one. *)
Lemma UnmountDevice_cases (deviceMountPath : string) (n n' : rbd.Node)
    (r : option rbd.Error) :
  rbd.UnmountDevice deviceMountPath n = (n', r) →
  (∃ pathExists e,
     events n n' = [rbd.PathExists deviceMountPath pathExists (Some e)]
     ∧ r = Some (rbd.FmtErrorf "Error checking if path exists: %v" []
                   (Some e)))
  ∨ (events n n' = [rbd.PathExists deviceMountPath false None] ∧ r = None)
  ∨ (∃ devicePath cnt e,
       events n n'
       = [rbd.PathExists deviceMountPath true None;
          rbd.GetDeviceNameFromMount deviceMountPath devicePath cnt (Some e)]
       ∧ r = Some e)
  ∨ (∃ devicePath cnt,
       (1 < cnt)%Z
       ∧ events n n'
         = [rbd.PathExists deviceMountPath true None;
            rbd.GetDeviceNameFromMount deviceMountPath devicePath cnt None]
       ∧ r = Some (rbd.FmtErrorf "rbd: more than 1 reference counts at %s"
                     [deviceMountPath] None))
  ∨ (∃ devicePath e,
       events n n'
       = [rbd.PathExists deviceMountPath true None;
          rbd.GetDeviceNameFromMount deviceMountPath devicePath 1 None;
          rbd.Unmount deviceMountPath (Some e)]
       ∧ r = Some e)
  ∨ (∃ devicePath cnt detached,
       (cnt ≤ 1)%Z
       ∧ events n n'
         = [rbd.PathExists deviceMountPath true None;
            rbd.GetDeviceNameFromMount deviceMountPath devicePath cnt None]
           ++ (if bool_decide (cnt = 1%Z)
               then [rbd.Unmount deviceMountPath None] else [])
           ++ rbd.DetachDisk deviceMountPath devicePath detached
              :: (if detached is None
                  then [rbd.Remove deviceMountPath r] else [])
       ∧ (is_Some detached → r = detached)).
Proof.
  unfold rbd.UnmountDevice, rbd.body, mbind, rbd.Run_bind, mret, rbd.Run_ret,
    rbd.exit, rbd.volutil_PathExists, rbd.mount_GetDeviceNameFromMount,
    rbd.mounter_Unmount, rbd.manager_DetachDisk, rbd.os_Remove, rbd.call.
  simpl.
  destruct (rbd.pathExists _ _ _) as [pathExists [e|]] eqn:Hpath; simpl.
  { intros [= <- <-]. left. exists pathExists, e.
    split; [by apply events_app|done]. }
  destruct pathExists; simpl.
  2: { intros [= <- <-]. right; left. split; [by apply events_app|done]. }
  destruct (rbd.getDeviceNameFromMount _ _ _) as [[devicePath cnt] [e|]]
    eqn:Hdev; simpl.
  { intros [= <- <-]. do 2 right; left. exists devicePath, cnt, e.
    split; [|done]. apply events_app. simpl. by rewrite <- app_assoc. }
  case_bool_decide as Hbusy; simpl.
  { intros [= <- <-]. do 3 right; left. exists devicePath, cnt.
    split; [done|]. split; [|done].
    apply events_app. simpl. by rewrite <- app_assoc. }
  case_bool_decide as Hone; simpl.
  - subst cnt. destruct (rbd.unmount _ _ _) as [e|] eqn:Hunmount; simpl.
    { intros [= <- <-]. do 4 right; left. exists devicePath, e.
      split; [|done]. apply events_app. simpl. by rewrite <- !app_assoc. }
    destruct (rbd.detachDisk _ _ _ _) as [e|] eqn:Hdetach; simpl.
    { intros [= <- <-]. do 5 right. exists devicePath, 1%Z, (Some e).
      split; [done|]. split; [|done].
      apply events_app. simpl. by rewrite <- !app_assoc. }
    destruct (rbd.remove _ _ _) as [e|] eqn:Hremove; simpl;
      intros [= <- <-]; do 5 right; exists devicePath, 1%Z, None;
      (split; [done|]); (split; [|by intros [? [=]]]);
      apply events_app; simpl; by rewrite <- !app_assoc.
  - destruct (rbd.detachDisk _ _ _ _) as [e|] eqn:Hdetach; simpl.
    { intros [= <- <-]. do 5 right. exists devicePath, cnt, (Some e).
      split; [lia|]. split; [|done]. rewrite bool_decide_false by done.
      apply events_app. simpl. by rewrite <- !app_assoc. }
    destruct (rbd.remove _ _ _) as [e|] eqn:Hremove; simpl;
      intros [= <- <-]; do 5 right; exists devicePath, cnt, None;
      (split; [lia|]); (split; [|by intros [? [=]]]);
      rewrite bool_decide_false by done;
      apply events_app; simpl; by rewrite <- !app_assoc.
Qed.


(** X17.  [UnmountDevice] tears down in order.  It unmounts nothing but
    the mount point it was given, and only when that is the one reference
    to the device; it detaches only the device found at that mount point,
    with at most one reference, and after a successful unmount when there
    was one; and it removes only the mount point, after a successful
    detach. *)
Theorem UnmountDevice_tears_down_in_order (deviceMountPath : string)
    (n n' : rbd.Node) (r : option rbd.Error) :
  rbd.UnmountDevice deviceMountPath n = (n', r) →
  (∀ target err,
     rbd.Unmount target err ∈ events n n' →
     target = deviceMountPath
     ∧ ∃ devicePath,
         rbd.GetDeviceNameFromMount deviceMountPath devicePath 1 None
           ∈ events n n')
  ∧ (∀ path devicePath err,
       rbd.DetachDisk path devicePath err ∈ events n n' →
       path = deviceMountPath
       ∧ ∃ cnt,
           (cnt ≤ 1)%Z
           ∧ rbd.GetDeviceNameFromMount deviceMountPath devicePath cnt None
               ∈ events n n'
           ∧ (cnt = 1%Z → rbd.Unmount deviceMountPath None ∈ events n n'))
  ∧ (∀ name err,
       rbd.Remove name err ∈ events n n' →
       name = deviceMountPath
       ∧ ∃ devicePath,
           rbd.DetachDisk deviceMountPath devicePath None ∈ events n n').
Proof.
  intros Hrun.
  destruct (UnmountDevice_cases _ _ _ _ Hrun)
    as [(b & e & -> & _)
       |[[-> _]
       |[(d & c & e & -> & _)
       |[(d & c & _ & -> & _)
       |[(d & e & -> & _)
       |(d & c & detached & Hc & -> & _)]]]]].
  1-5: split_and!; intros; in_events; find_events.
  case_bool_decide; destruct detached; split_and!; intros; in_events;
    find_events.
Qed.


(** The end of a run of [MountDevice], from the file system type on. *)
Ltac mount_tail m realDevicePath deviceMountPath probe Hprobed :=
  let trace_of := (apply events_app; simpl; by rewrite <- ?app_assoc) in
  let fstype := fresh "fstype" in
  let ro := fresh "ro" in
  let e := fresh "e" in
  destruct (rbd.getVolumeSourceFSType _) as [fstype [e|]] eqn:?; simpl;
  [ intros [= <- <-]; do 7 right; left;
    exists m, realDevicePath, deviceMountPath, probe, fstype, e;
    split_and!; [done|exact Hprobed|done|trace_of|done]
  | destruct (rbd.getVolumeSourceReadOnly _) as [ro [e|]] eqn:?; simpl;
    [ intros [= <- <-]; do 8 right; left;
      exists m, realDevicePath, deviceMountPath, probe, fstype, ro, e;
      split_and!; [done|exact Hprobed|done|done|trace_of|done]
    | destruct (rbd.formatAndMount _ _ _ _ _ _) as [e|] eqn:?; simpl;
      [ intros [= <- <-]; do 9 right; left;
        exists m, realDevicePath, deviceMountPath, probe, fstype, ro, e;
        eexists;
        split_and!; [done|exact Hprobed|done|done|trace_of|done]
      | intros [= <- <-]; do 10 right;
        exists m, realDevicePath, deviceMountPath, probe, fstype, ro;
        split_and!; [done|exact Hprobed|done|done|trace_of|done] ] ] ].

(** The runs of [MountDevice], one by one. *)
Lemma MountDevice_cases (spec : rbd.Spec) (pod : option loc)
    (n n' : rbd.Node) (r : rbd.Mounted) :
  rbd.MountDevice spec pod n = (n', r) →
  (∃ m e,
     events n n' = [rbd.CreateMounterFromVolumeSpecAndPod spec pod m (Some e)]
     ∧ r = rbd.Returns "" (Some e))
  ∨ (events n n' = [rbd.CreateMounterFromVolumeSpecAndPod spec pod None None]
     ∧ r = rbd.Panics)
  ∨ (∃ m realDevicePath e,
       events n n'
       = [rbd.CreateMounterFromVolumeSpecAndPod spec pod (Some m) None;
          rbd.AttachDisk m realDevicePath (Some e)]
       ∧ r = rbd.Returns "" (Some e))
  ∨ (∃ m realDevicePath deviceMountPath e,
       rbd.GetDeviceMountPath spec = (deviceMountPath, Some e)
       ∧ events n n' = attached spec pod m realDevicePath
       ∧ r = rbd.Returns deviceMountPath (Some e))
  ∨ (∃ m realDevicePath deviceMountPath notMnt e,
       rbd.GetDeviceMountPath spec = (deviceMountPath, None)
       ∧ rbd.IsNotExist e = false
       ∧ events n n'
         = attached spec pod m realDevicePath
           ++ [rbd.IsLikelyNotMountPoint deviceMountPath notMnt (Some e)]
       ∧ r = rbd.Returns deviceMountPath (Some e))
  ∨ (∃ m realDevicePath deviceMountPath notMnt e e',
       rbd.GetDeviceMountPath spec = (deviceMountPath, None)
       ∧ rbd.IsNotExist e = true
       ∧ events n n'
         = attached spec pod m realDevicePath
           ++ [rbd.IsLikelyNotMountPoint deviceMountPath notMnt (Some e);
               rbd.MkdirAll deviceMountPath 488 (Some e')]
       ∧ r = rbd.Returns deviceMountPath (Some e'))
  ∨ (∃ m realDevicePath deviceMountPath,
       rbd.GetDeviceMountPath spec = (deviceMountPath, None)
       ∧ events n n'
         = attached spec pod m realDevicePath
           ++ [rbd.IsLikelyNotMountPoint deviceMountPath false None]
       ∧ r = rbd.Returns deviceMountPath None)
  ∨ (∃ m realDevicePath deviceMountPath probe fstype e,
       rbd.GetDeviceMountPath spec = (deviceMountPath, None)
       ∧ probed deviceMountPath probe
       ∧ rbd.getVolumeSourceFSType spec = (fstype, Some e)
       ∧ events n n' = attached spec pod m realDevicePath ++ probe
       ∧ r = rbd.Returns deviceMountPath (Some e))
  ∨ (∃ m realDevicePath deviceMountPath probe fstype ro e,
       rbd.GetDeviceMountPath spec = (deviceMountPath, None)
       ∧ probed deviceMountPath probe
       ∧ rbd.getVolumeSourceFSType spec = (fstype, None)
       ∧ rbd.getVolumeSourceReadOnly spec = (ro, Some e)
       ∧ events n n' = attached spec pod m realDevicePath ++ probe
       ∧ r = rbd.Returns deviceMountPath (Some e))
  ∨ (∃ m realDevicePath deviceMountPath probe fstype ro e removed,
       rbd.GetDeviceMountPath spec = (deviceMountPath, None)
       ∧ probed deviceMountPath probe
       ∧ rbd.getVolumeSourceFSType spec = (fstype, None)
       ∧ rbd.getVolumeSourceReadOnly spec = (ro, None)
       ∧ events n n'
         = attached spec pod m realDevicePath ++ probe
           ++ [rbd.FormatAndMount realDevicePath deviceMountPath fstype
                 (mountOptionsOf spec ro) (Some e);
               rbd.Remove deviceMountPath removed]
       ∧ r = rbd.Returns deviceMountPath
               (Some (mountFailure realDevicePath deviceMountPath fstype e)))
  ∨ (∃ m realDevicePath deviceMountPath probe fstype ro,
       rbd.GetDeviceMountPath spec = (deviceMountPath, None)
       ∧ probed deviceMountPath probe
       ∧ rbd.getVolumeSourceFSType spec = (fstype, None)
       ∧ rbd.getVolumeSourceReadOnly spec = (ro, None)
       ∧ events n n'
         = attached spec pod m realDevicePath ++ probe
           ++ [rbd.FormatAndMount realDevicePath deviceMountPath fstype
                 (mountOptionsOf spec ro) None]
       ∧ r = rbd.Returns deviceMountPath None).
Proof.
  unfold rbd.MountDevice, rbd.body, mbind, rbd.Run_bind, mret, rbd.Run_ret,
    rbd.exit, rbd.plugin_createMounterFromVolumeSpecAndPod,
    rbd.manager_AttachDisk, rbd.mounter_IsLikelyNotMountPoint, rbd.os_MkdirAll,
    rbd.mounter_FormatAndMount, rbd.os_Remove, rbd.call.
  simpl.
  destruct (rbd.createMounterFromVolumeSpecAndPod _ _ _ _) as [m [e|]]
    eqn:Hcreate; simpl.
  { intros [= <- <-]. left. exists m, e. split; [by apply events_app|done]. }
  destruct m as [m|]; simpl.
  2: { intros [= <- <-]. right; left. split; [by apply events_app|done]. }
  destruct (rbd.attachDisk _ _ _) as [realDevicePath [e|]] eqn:Hattach; simpl.
  { intros [= <- <-]. do 2 right; left. exists m, realDevicePath, e.
    split; [|done]. apply events_app. simpl. by rewrite <- app_assoc. }
  destruct (rbd.GetDeviceMountPath spec) as [deviceMountPath [e|]] eqn:Hpath;
    simpl.
  { intros [= <- <-]. do 3 right; left.
    exists m, realDevicePath, deviceMountPath, e.
    split; [done|]. split; [|done].
    apply events_app. simpl. by rewrite <- app_assoc. }
  destruct (rbd.isLikelyNotMountPoint _ _ _) as [notMnt [e|]] eqn:Hprobe;
    simpl.
  - destruct (rbd.IsNotExist e) eqn:Hmissing; simpl.
    2: { intros [= <- <-]. do 4 right; left.
         exists m, realDevicePath, deviceMountPath, notMnt, e.
         split_and!; [done..| |done].
         apply events_app. simpl. by rewrite <- ?app_assoc. }
    destruct (rbd.mkdirAll _ _ _ _) as [e'|] eqn:Hmkdir; simpl.
    { intros [= <- <-]. do 5 right; left.
      exists m, realDevicePath, deviceMountPath, notMnt, e, e'.
      split_and!; [done..| |done].
      apply events_app. simpl. by rewrite <- ?app_assoc. }
    assert (probed deviceMountPath
              [rbd.IsLikelyNotMountPoint deviceMountPath notMnt (Some e);
               rbd.MkdirAll deviceMountPath 488 None]) as Hprobed.
    { right. by exists notMnt, e. }
    mount_tail m realDevicePath deviceMountPath
      [rbd.IsLikelyNotMountPoint deviceMountPath notMnt (Some e);
       rbd.MkdirAll deviceMountPath 488 None] Hprobed.
  - destruct notMnt; simpl.
    2: { intros [= <- <-]. do 6 right; left.
         exists m, realDevicePath, deviceMountPath.
         split_and!; [done| |done].
         apply events_app. simpl. by rewrite <- ?app_assoc. }
    assert (probed deviceMountPath
              [rbd.IsLikelyNotMountPoint deviceMountPath true None])
      as Hprobed by (by left).
    mount_tail m realDevicePath deviceMountPath
      [rbd.IsLikelyNotMountPoint deviceMountPath true None] Hprobed.
Qed.


(** X18.  [UnmountDevice] stops at the first error: a call that reports
    one is the last call, and its error is what the method returns, behind
    a message when the check of the path failed.  The method returns nil
    exactly when the path was found missing or the mount point was
    removed. *)
Theorem UnmountDevice_stops_at_first_error (deviceMountPath : string)
    (n n' : rbd.Node) (r : option rbd.Error) :
  rbd.UnmountDevice deviceMountPath n = (n', r) →
  (∀ ev e,
     ev ∈ events n n' → rbd.reported ev = Some e →
     last (events n n') = Some ev
     ∧ r = Some (if ev is rbd.PathExists _ _ _
                 then rbd.FmtErrorf "Error checking if path exists: %v" []
                        (Some e)
                 else e))
  ∧ (r = None
     ↔ rbd.PathExists deviceMountPath false None ∈ events n n'
       ∨ rbd.Remove deviceMountPath None ∈ events n n').
Proof.
  intros Hrun.
  destruct (UnmountDevice_cases _ _ _ _ Hrun)
    as [(b & e & -> & ->)
       |[[-> ->]
       |[(d & c & e & -> & ->)
       |[(d & c & _ & -> & ->)
       |[(d & e & -> & ->)
       |(d & c & detached & Hc & -> & Hr)]]]]].
  1-5: split; [intros ev err Hin Herr; in_events; find_events|].
  1-5: split; [try done|intros [Hin|Hin]; in_events]; try done;
       try (by left; find_events).
  destruct detached as [e|]; simpl.
  - rewrite (Hr ltac:(done)). clear Hr.
    split; [case_bool_decide; intros ev err Hin Herr; in_events; find_events|].
    split; [done|]. case_bool_decide; intros [Hin|Hin]; in_events.
  - clear Hr.
    split; [case_bool_decide; intros ev err Hin Herr; in_events; find_events|].
    split; [intros ->; right; case_bool_decide; find_events|].
    case_bool_decide; intros [Hin|Hin]; in_events; done.
Qed.


(** X19.  A mount point that more than one mount refers to is left alone:
    when the device is found with a reference count above 1,
    [UnmountDevice] has made its two enquiries and nothing else, so it
    unmounts, detaches and removes nothing, and it returns an error of its
    own. *)
Theorem UnmountDevice_refuses_shared_mount (deviceMountPath : string)
    (n n' : rbd.Node) (r : option rbd.Error) (devicePath : string) (cnt : Z) :
  rbd.UnmountDevice deviceMountPath n = (n', r) →
  rbd.GetDeviceNameFromMount deviceMountPath devicePath cnt None
    ∈ events n n' →
  (1 < cnt)%Z →
  events n n'
  = [rbd.PathExists deviceMountPath true None;
     rbd.GetDeviceNameFromMount deviceMountPath devicePath cnt None]
  ∧ r = Some (rbd.FmtErrorf "rbd: more than 1 reference counts at %s"
                [deviceMountPath] None).
Proof.
  intros Hrun.
  destruct (UnmountDevice_cases _ _ _ _ Hrun)
    as [(b & e & -> & ->)
       |[[-> ->]
       |[(d & c & e & -> & ->)
       |[(d & c & _ & -> & ->)
       |[(d & e & -> & ->)
       |(d & c & detached & Hc & -> & Hr)]]]]];
    intros Hin Hbusy; in_events; try done; try lia.
  all: case_bool_decide; destruct detached; in_events; lia.
Qed.

(** The runs of [MountDevice], with the names of what they hold. *)
Ltac mount_cases Hrun :=
  destruct (MountDevice_cases _ _ _ _ _ Hrun)
    as [(m & e & -> & ->)
       |[[-> ->]
       |[(m & rp & e & -> & ->)
       |[(m & rp & dp & e & Hpath & -> & ->)
       |[(m & rp & dp & nm & e & Hpath
          & Hmissing & -> & ->)
       |[(m & rp & dp & nm & e & e' & Hpath
          & Hmissing & -> & ->)
       |[(m & rp & dp & Hpath & -> & ->)
       |[(m & rp & dp & probe & fs & e & Hpath
          & Hprobed & Hfs & -> & ->)
       |[(m & rp & dp & probe & fs & ro & e
          & Hpath & Hprobed & Hfs & Hro & -> & ->)
       |[(m & rp & dp & probe & fs & ro & e
          & removed & Hpath & Hprobed & Hfs & Hro & -> & ->)
       |(m & rp & dp & probe & fs & ro
         & Hpath & Hprobed & Hfs & Hro & -> & ->)]]]]]]]]]];
  try (destruct Hprobed as [->|(nm & e0 & Hmissing & ->)]);
  unfold attached in *.

(** X20.  [MountDevice] formats and mounts only what it has prepared: the
    device is the one the disk manager attached for the mounter of this
    spec and pod, the target is the mount path of the spec, which was
    found free, or missing and then created with mode 0750, and the file
    system type and the options are those of the spec, with the option
    "ro" given exactly for a read-only volume. *)
Theorem MountDevice_mounts_the_attached_device (spec : rbd.Spec)
    (pod : option loc) (n n' : rbd.Node) (r : rbd.Mounted)
    (source target fstype : string) (options : list string)
    (err : option rbd.Error) :
  rbd.MountDevice spec pod n = (n', r) →
  rbd.FormatAndMount source target fstype options err ∈ events n n' →
  ∃ m ro,
    rbd.CreateMounterFromVolumeSpecAndPod spec pod (Some m) None
      ∈ events n n'
    ∧ rbd.AttachDisk m source None ∈ events n n'
    ∧ rbd.GetDeviceMountPath spec = (target, None)
    ∧ rbd.getVolumeSourceFSType spec = (fstype, None)
    ∧ rbd.getVolumeSourceReadOnly spec = (ro, None)
    ∧ options = rbd.MountOptionFromSpec spec (if ro then ["ro"] else [])
    ∧ (rbd.IsLikelyNotMountPoint target true None ∈ events n n'
       ∨ ∃ notMnt e,
           rbd.IsLikelyNotMountPoint target notMnt (Some e) ∈ events n n'
           ∧ rbd.IsNotExist e = true
           ∧ rbd.MkdirAll target 488 None ∈ events n n').
Proof.
  intros Hrun. mount_cases Hrun; intros Hin; in_events.
  all: exists m, ro; split_and!; try done; try find_events.
  all: first [ by left; find_events | right; exists nm, e0; find_events ].
Qed.


(** X21.  [MountDevice] returns a path and nil exactly when the path is
    the mount path of the spec and it either found the path mounted
    already or mounted the device there.  In the first case it stops at
    that enquiry: a repeated call on a mounted device creates no
    directory, mounts nothing and removes nothing. *)
Theorem MountDevice_returns_nil_iff_mounted (spec : rbd.Spec)
    (pod : option loc) (n n' : rbd.Node) (r : rbd.Mounted) :
  rbd.MountDevice spec pod n = (n', r) →
  (∀ path,
     r = rbd.Returns path None
     ↔ rbd.GetDeviceMountPath spec = (path, None)
       ∧ (rbd.IsLikelyNotMountPoint path false None ∈ events n n'
          ∨ ∃ source fstype options,
              rbd.FormatAndMount source path fstype options None
                ∈ events n n'))
  ∧ (∀ path,
       rbd.IsLikelyNotMountPoint path false None ∈ events n n' →
       ∃ m realDevicePath,
         events n n'
         = attached spec pod m realDevicePath
           ++ [rbd.IsLikelyNotMountPoint path false None]).
Proof.
  intros Hrun. mount_cases Hrun.
  all: split;
    [ intros path; split;
      [ intros [= <-]
      | intros [Hpath' [Hin|(source & fstype & options & Hin)]];
        in_events; try done; try congruence ]
    | intros path Hin; in_events; try done ].
  all: try (split; [done|]).
  all: try (by left; find_events).
  all: try (by right; do 3 eexists; find_events).
  all: try (by exists m, rp).
Qed.

(** X22.  When the mount fails, [MountDevice] removes the mount point,
    whatever the removal reports, and returns the mount path with an
    error that names the device, the path and the file system type.  It
    removes nothing in any other run; it creates a directory only with
    mode 0750, at a path whose enquiry reported that it does not exist;
    and it panics exactly when it was given no mounter and no error. *)
Theorem MountDevice_cleans_up_after_failed_mount (spec : rbd.Spec)
    (pod : option loc) (n n' : rbd.Node) (r : rbd.Mounted) :
  rbd.MountDevice spec pod n = (n', r) →
  (∀ source target fstype options e,
     rbd.FormatAndMount source target fstype options (Some e) ∈ events n n' →
     (∃ removed, last (events n n') = Some (rbd.Remove target removed))
     ∧ r = rbd.Returns target (Some (mountFailure source target fstype e)))
  ∧ (∀ name removed,
       rbd.Remove name removed ∈ events n n' →
       ∃ source fstype options e,
         rbd.FormatAndMount source name fstype options (Some e)
           ∈ events n n')
  ∧ (∀ path perm err,
       rbd.MkdirAll path perm err ∈ events n n' →
       perm = 488%Z
       ∧ ∃ notMnt e,
           rbd.IsLikelyNotMountPoint path notMnt (Some e) ∈ events n n'
           ∧ rbd.IsNotExist e = true)
  ∧ (r = rbd.Panics
     ↔ rbd.CreateMounterFromVolumeSpecAndPod spec pod None None
         ∈ events n n').
Proof.
  intros Hrun. mount_cases Hrun.
  all: split_and!;
    [ intros source target fstype options err Hin; in_events
    | intros name removed' Hin; in_events
    | intros path perm err Hin; in_events
    | split; [intros [=]|intros Hin; in_events] ].
  all: try done.
  all: try (by split; [eexists|]).
  all: try (by do 4 eexists; find_events).
  all: try (split; [done|]; do 2 eexists; split; [find_events|done]).
  all: find_events.
Qed.

End rbd_properties.

Lemma UnmountDevice_tears_down_in_order_witness :
  (unmounted 1).2 = None
  ∧ ∃ devicePath,
      rbd.DetachDisk exampleMountPath devicePath None
        ∈ events (exampleNode 1 true None) (unmounted 1).1.
Proof.
  split; [vm_compute; reflexivity|].
  destruct (UnmountDevice_tears_down_in_order (H := examplePlugin)
              exampleMountPath (exampleNode 1 true None) _ _
              (surjective_pairing (unmounted 1))) as (_ & _ & Hremove).
  apply (Hremove exampleMountPath None).
  vm_compute. do 4 apply list_elem_of_further. apply list_elem_of_here.
Defined.

Lemma UnmountDevice_stops_at_first_error_witness :
  rbd.Remove exampleMountPath None
    ∈ events (exampleNode 0 true None) (unmounted 0).1
  ∧ (unmounted 0).2 = None.
Proof.
  assert (rbd.Remove exampleMountPath None
            ∈ events (exampleNode 0 true None) (unmounted 0).1) as Hremoved.
  { vm_compute. do 3 apply list_elem_of_further. apply list_elem_of_here. }
  split; [exact Hremoved|].
  destruct (UnmountDevice_stops_at_first_error (H := examplePlugin)
              exampleMountPath (exampleNode 0 true None) _ _
              (surjective_pairing (unmounted 0))) as [_ Hnil].
  apply Hnil. right. exact Hremoved.
Defined.

Lemma UnmountDevice_refuses_shared_mount_witness :
  rbd.GetDeviceNameFromMount exampleMountPath "/dev/rbd0" 2 None
    ∈ events (exampleNode 2 true None) (unmounted 2).1
  ∧ (1 < 2)%Z
  ∧ length (events (exampleNode 2 true None) (unmounted 2).1) = 2
  ∧ is_Some (unmounted 2).2.
Proof.
  assert (rbd.GetDeviceNameFromMount exampleMountPath "/dev/rbd0" 2 None
            ∈ events (exampleNode 2 true None) (unmounted 2).1) as Hfound.
  { vm_compute. apply list_elem_of_further, list_elem_of_here. }
  split; [exact Hfound|]. split; [lia|].
  destruct (UnmountDevice_refuses_shared_mount (H := examplePlugin)
              exampleMountPath (exampleNode 2 true None) _ _ "/dev/rbd0" 2%Z
              (surjective_pairing (unmounted 2)) Hfound ltac:(lia))
    as [-> ->].
  split; [reflexivity|]. eexists. reflexivity.
Defined.

Lemma MountDevice_mounts_the_attached_device_witness :
  rbd.FormatAndMount "/dev/rbd0" exampleMountPath "ext4" ["ro"] None
    ∈ events (exampleNode 0 true None) (mounted true true None).1
  ∧ ∃ m, rbd.AttachDisk m "/dev/rbd0" None
           ∈ events (exampleNode 0 true None) (mounted true true None).1.
Proof.
  assert (rbd.FormatAndMount "/dev/rbd0" exampleMountPath "ext4" ["ro"] None
            ∈ events (exampleNode 0 true None) (mounted true true None).1)
    as Hmount.
  { vm_compute. do 3 apply list_elem_of_further. apply list_elem_of_here. }
  split; [exact Hmount|].
  destruct (MountDevice_mounts_the_attached_device (H := examplePlugin)
              true None (exampleNode 0 true None) _ _ _ _ _ _ _
              (surjective_pairing (mounted true true None)) Hmount)
    as (m & ro & _ & Hattached & _).
  exists m. exact Hattached.
Defined.

Lemma MountDevice_returns_nil_iff_mounted_witness :
  rbd.IsLikelyNotMountPoint exampleMountPath false None
    ∈ events (exampleNode 0 false None) (mounted false false None).1
  ∧ (mounted false false None).2 = rbd.Returns exampleMountPath None
  ∧ length (events (exampleNode 0 false None) (mounted false false None).1) = 3.
Proof.
  assert (rbd.IsLikelyNotMountPoint exampleMountPath false None
            ∈ events (exampleNode 0 false None) (mounted false false None).1)
    as Hmounted.
  { vm_compute. do 2 apply list_elem_of_further. apply list_elem_of_here. }
  split; [exact Hmounted|].
  destruct (MountDevice_returns_nil_iff_mounted (H := examplePlugin)
              false None (exampleNode 0 false None) _ _
              (surjective_pairing (mounted false false None)))
    as [Hnil Hstops].
  split.
  - apply Hnil. split; [vm_compute; reflexivity|]. left. exact Hmounted.
  - destruct (Hstops exampleMountPath Hmounted) as (m & realDevicePath & ->).
    reflexivity.
Defined.

Lemma MountDevice_cleans_up_after_failed_mount_witness :
  rbd.FormatAndMount "/dev/rbd0" exampleMountPath "ext4" []
      (Some (rbd.Reported "EIO"))
    ∈ events (exampleNode 0 true (Some (rbd.Reported "EIO")))
             (mounted false true (Some (rbd.Reported "EIO"))).1
  ∧ (mounted false true (Some (rbd.Reported "EIO"))).2
    = rbd.Returns exampleMountPath
        (Some (mountFailure "/dev/rbd0" exampleMountPath "ext4"
                 (rbd.Reported "EIO"))).
Proof.
  assert (rbd.FormatAndMount "/dev/rbd0" exampleMountPath "ext4" []
              (Some (rbd.Reported "EIO"))
            ∈ events (exampleNode 0 true (Some (rbd.Reported "EIO")))
                     (mounted false true (Some (rbd.Reported "EIO"))).1)
    as Hfailed.
  { vm_compute. do 3 apply list_elem_of_further. apply list_elem_of_here. }
  split; [exact Hfailed|].
  destruct (MountDevice_cleans_up_after_failed_mount (H := examplePlugin)
              false None (exampleNode 0 true (Some (rbd.Reported "EIO"))) _ _
              (surjective_pairing
                 (mounted false true (Some (rbd.Reported "EIO")))))
    as (Hcleans & _).
  destruct (Hcleans _ _ _ _ _ Hfailed) as [_ Hresult]. exact Hresult.
Defined.
